(** * Ty-AP: content identity, politeness rate limiting, clustering and retention

    A shallow embedding of the core of the repository (src/normalization.py,
    src/dedupe.py, src/rate_limit.py, src/confirm.py, api/admin_cleanup.py,
    the accept gate of api/news_fetch.py) together with the properties
    stated about it.  src/confirm.py is read twice: idealised, in the
    module [Confirm], and with the floats and datetimes of Python, in the
    module [ConfirmFloat].

    Conventions of the embedding.
    - Python [str] is Rocq [string]; the characters are read as ASCII text
      (a byte of value 128 or more is an opaque non-space, non-letter
      character).
    - Outside [ConfirmFloat], a Python [float] is idealised as an exact
      rational [Q]; equality of floats is [Qeq].  In [ConfirmFloat] a float
      is an IEEE 754 binary64 number.
    - Outside [ConfirmFloat], a [datetime] is timezone-aware, a number of
      microseconds since the epoch ([Z]); a [timedelta] is a difference of
      two of them.  In [ConfirmFloat] a datetime is aware or naive.
    - Readings of the wall clock ([time.time()], [datetime.now]) are explicit
      arguments.
    - A Python exception is [None] (or [Raised]) in the result type. *)

From Stdlib Require Import ZArith NArith QArith Qround Qabs Lqa Lia Bool List Sorted Ascii String
  SpecFloat.
From stdpp Require Import base option list gmap strings.

Local Open Scope string_scope.

(** ** Python string primitives *)

Module PyStr.

Definition code (c : ascii) : N := N_of_ascii c.

(** [str.isspace] on ASCII: TAB, LF, VT, FF, CR, FS, GS, RS, US and space.
    The same set is the regular expression class [\s]. *)
Definition is_space (c : ascii) : bool :=
  let n := code c in
  ((9 <=? n) && (n <=? 13) || (28 <=? n) && (n <=? 32))%N.

Definition is_upper (c : ascii) : bool :=
  let n := code c in ((65 <=? n) && (n <=? 90))%N.

Definition is_lower (c : ascii) : bool :=
  let n := code c in ((97 <=? n) && (n <=? 122))%N.

Definition is_digit (c : ascii) : bool :=
  let n := code c in ((48 <=? n) && (n <=? 57))%N.

Definition is_alpha (c : ascii) : bool := is_upper c || is_lower c.

(** The regular expression class [\w] on ASCII. *)
Definition is_word (c : ascii) : bool :=
  is_alpha c || is_digit c || Ascii.eqb c "_".

Definition lower_char (c : ascii) : ascii :=
  if is_upper c then ascii_of_N (code c + 32) else c.

(** [str.lower] *)
Fixpoint lower (s : string) : string :=
  match s with
  | EmptyString => EmptyString
  | String c r => String (lower_char c) (lower r)
  end.

Fixpoint take (n : nat) (s : string) : string :=
  match n, s with
  | S m, String c r => String c (take m r)
  | _, _ => EmptyString
  end.

Fixpoint drop (n : nat) (s : string) : string :=
  match n, s with
  | S m, String _ r => drop m r
  | _, _ => s
  end.

(** [s.startswith(p)] *)
Fixpoint startswith (p s : string) : bool :=
  match p, s with
  | EmptyString, _ => true
  | String a p', String b s' => Ascii.eqb a b && startswith p' s'
  | String _ _, EmptyString => false
  end.

(** [p in s] for strings: [p] occurs as a contiguous substring of [s]. *)
Fixpoint contains (p s : string) : bool :=
  startswith p s ||
  match s with
  | EmptyString => false
  | String _ r => contains p r
  end.

(** [c in s] for a single character. *)
Fixpoint mem_char (c : ascii) (s : string) : bool :=
  match s with
  | EmptyString => false
  | String d r => Ascii.eqb c d || mem_char c r
  end.

(** [s.find(c)]: index of the first occurrence, [None] for -1. *)
Fixpoint find_char (c : ascii) (s : string) : option nat :=
  match s with
  | EmptyString => None
  | String d r =>
      if Ascii.eqb c d then Some 0%nat
      else match find_char c r with Some i => Some (S i) | None => None end
  end.

(** [s.rfind(c)]: index of the last occurrence. *)
Fixpoint rfind_char (c : ascii) (s : string) : option nat :=
  match s with
  | EmptyString => None
  | String d r =>
      match rfind_char c r with
      | Some i => Some (S i)
      | None => if Ascii.eqb c d then Some 0%nat else None
      end
  end.

(** [s.find(c, start)] *)
Definition find_char_from (c : ascii) (start : nat) (s : string) : option nat :=
  match find_char c (drop start s) with
  | Some i => Some (start + i)%nat
  | None => None
  end.

(** [s.split(c, 1)] when [c] occurs in [s]: the text before and after the
    first occurrence. *)
Definition split_first (c : ascii) (s : string) : option (string * string) :=
  match find_char c s with
  | Some i => Some (take i s, drop (S i) s)
  | None => None
  end.

(** [s.split(c)]: every piece between separators, empty pieces included;
    the empty string gives one empty piece. *)
Fixpoint split (c : ascii) (s : string) : list string :=
  match s with
  | EmptyString => [EmptyString]
  | String d r =>
      if Ascii.eqb c d then EmptyString :: split c r
      else match split c r with
           | p :: ps => String d p :: ps
           | [] => [String d EmptyString]
           end
  end.

(** [sep.join(parts)] *)
Fixpoint join (sep : string) (parts : list string) : string :=
  match parts with
  | [] => EmptyString
  | [p] => p
  | p :: ps => p ++ sep ++ join sep ps
  end.

(** [s.replace(c, empty)] *)
Fixpoint remove_char (c : ascii) (s : string) : string :=
  match s with
  | EmptyString => EmptyString
  | String d r => if Ascii.eqb c d then remove_char c r else String d (remove_char c r)
  end.

(** [s.replace(a, b)] for single characters. *)
Fixpoint replace_char (a b : ascii) (s : string) : string :=
  match s with
  | EmptyString => EmptyString
  | String d r => String (if Ascii.eqb a d then b else d) (replace_char a b r)
  end.

(** [s.lstrip(chars)] with the character set given as a predicate. *)
Fixpoint lstrip_by (p : ascii -> bool) (s : string) : string :=
  match s with
  | EmptyString => EmptyString
  | String c r => if p c then lstrip_by p r else s
  end.

(** [s.rstrip(chars)] *)
Fixpoint rstrip_by (p : ascii -> bool) (s : string) : string :=
  match s with
  | EmptyString => EmptyString
  | String c r =>
      match rstrip_by p r with
      | EmptyString => if p c then EmptyString else String c EmptyString
      | r' => String c r'
      end
  end.

(** [s.strip()] *)
Definition strip (s : string) : string := rstrip_by is_space (lstrip_by is_space s).

(** Truthiness of a string: [bool(s)]. *)
Definition nonempty (s : string) : bool :=
  match s with EmptyString => false | String _ _ => true end.

(** [a or b] on strings. *)
Definition or_else (a b : string) : string := if nonempty a then a else b.

(** Lexicographic order of [str] by code point. *)
Definition leb (a b : string) : bool :=
  match String.compare a b with Gt => false | _ => true end.

End PyStr.

(** ** SHA-256 (FIPS 180-4), as computed by [hashlib.sha256] *)

Module Sha256.

Local Open Scope N_scope.

Definition w32 (x : N) : N := x mod 4294967296.

Definition add32 (x y : N) : N := w32 (x + y).

Definition rotr (n x : N) : N :=
  N.lor (N.shiftr x n) (w32 (N.shiftl x (32 - n))).

Definition Ch (x y z : N) : N :=
  N.lxor (N.land x y) (N.land (N.lxor x 4294967295) z).

Definition Maj (x y z : N) : N :=
  N.lxor (N.lxor (N.land x y) (N.land x z)) (N.land y z).

Definition Sigma0 (x : N) : N := N.lxor (N.lxor (rotr 2 x) (rotr 13 x)) (rotr 22 x).
Definition Sigma1 (x : N) : N := N.lxor (N.lxor (rotr 6 x) (rotr 11 x)) (rotr 25 x).
Definition sigma0 (x : N) : N := N.lxor (N.lxor (rotr 7 x) (rotr 18 x)) (N.shiftr x 3).
Definition sigma1 (x : N) : N := N.lxor (N.lxor (rotr 17 x) (rotr 19 x)) (N.shiftr x 10).

(** The first [n] primes, by trial division. *)
Definition is_prime (p : N) : bool :=
  List.forallb (fun d => negb (p mod d =? 0)) (List.map N.of_nat (List.seq 2 (N.to_nat p - 2))).

Definition first_primes (n : nat) : list N :=
  List.firstn n (List.filter is_prime (List.map N.of_nat (List.seq 2 400))).

(** The integer cube root below 2^36, one bit at a time. *)
Fixpoint cube_root_bits (bit : nat) (x r : N) : N :=
  match bit with
  | O => r
  | S b =>
      let r' := N.lor r (N.shiftl 1 (N.of_nat b)) in
      cube_root_bits b x (if r' * r' * r' <=? x then r' else r)
  end.

Definition cube_root (x : N) : N := cube_root_bits 36 x 0.

(** The round constants: the first 32 bits of the fractional parts of the
    cube roots of the first 64 primes. *)
Definition K : list N :=
  Eval vm_compute in
    List.map (fun p => w32 (cube_root (p * 2 ^ 96))) (first_primes 64).

(** The initial hash value: the first 32 bits of the fractional parts of
    the square roots of the first 8 primes. *)
Definition H0 : list N :=
  Eval vm_compute in
    List.map (fun p => w32 (N.sqrt (p * 2 ^ 64))) (first_primes 8).

(** The message followed by the bit 1, zero bits up to 56 mod 64 bytes, and
    the bit length as a 64-bit big-endian number. *)
Fixpoint be_bytes (n : nat) (x : N) : list N :=
  match n with
  | O => []
  | S m => (N.shiftr x (8 * N.of_nat m)) mod 256 :: be_bytes m x
  end.

Definition pad (msg : list N) : list N :=
  let len := List.length msg in
  let zeros := ((119 - len mod 64) mod 64)%nat in
  msg ++ [128] ++ List.repeat 0 zeros ++ be_bytes 8 (8 * N.of_nat len).

Fixpoint words_of_bytes (fuel : nat) (bs : list N) : list N :=
  match fuel, bs with
  | S f, a :: b :: c :: d :: r =>
      (a * 16777216 + b * 65536 + c * 256 + d) :: words_of_bytes f r
  | _, _ => []
  end.

Fixpoint blocks_of_words (fuel : nat) (ws : list N) : list (list N) :=
  match fuel, ws with
  | S f, _ :: _ => List.firstn 16 ws :: blocks_of_words f (List.skipn 16 ws)
  | _, _ => []
  end.

(** The 64-word message schedule, built newest word first. *)
Fixpoint schedule_rev (n : nat) (acc : list N) : list N :=
  match n with
  | O => acc
  | S m =>
      let w2 := List.nth 1 acc 0 in
      let w7 := List.nth 6 acc 0 in
      let w15 := List.nth 14 acc 0 in
      let w16 := List.nth 15 acc 0 in
      schedule_rev m (add32 (add32 (sigma1 w2) w7) (add32 (sigma0 w15) w16) :: acc)
  end.

Definition schedule (block : list N) : list N :=
  List.rev (schedule_rev 48 (List.rev block)).

Record regs := Regs { ra : N; rb : N; rc : N; rd : N; re : N; rf : N; rg : N; rh : N }.

Definition round (s : regs) (kw : N * N) : regs :=
  let t1 := add32 (add32 (add32 (rh s) (Sigma1 (re s))) (Ch (re s) (rf s) (rg s)))
                  (add32 (fst kw) (snd kw)) in
  let t2 := add32 (Sigma0 (ra s)) (Maj (ra s) (rb s) (rc s)) in
  Regs (add32 t1 t2) (ra s) (rb s) (rc s) (add32 (rd s) t1) (re s) (rf s) (rg s).

Definition regs_of (h : list N) : regs :=
  Regs (List.nth 0 h 0) (List.nth 1 h 0) (List.nth 2 h 0) (List.nth 3 h 0)
       (List.nth 4 h 0) (List.nth 5 h 0) (List.nth 6 h 0) (List.nth 7 h 0).

Definition list_of (s : regs) : list N :=
  [ra s; rb s; rc s; rd s; re s; rf s; rg s; rh s].

Definition compress (h : list N) (block : list N) : list N :=
  let s := List.fold_left round (List.combine K (schedule block)) (regs_of h) in
  List.map (fun p => add32 (fst p) (snd p)) (List.combine h (list_of s)).

Definition digest_words (msg : list N) : list N :=
  let bs := pad msg in
  let ws := words_of_bytes (List.length bs) bs in
  List.fold_left compress (blocks_of_words (List.length ws) ws) H0.

Definition hex_digit (n : N) : ascii :=
  ascii_of_N (if n <? 10 then 48 + n else 87 + n).

Fixpoint hex_of_word (n : nat) (x : N) : string :=
  match n with
  | O => EmptyString
  | S m => String (hex_digit ((N.shiftr x (4 * N.of_nat m)) mod 16)) (hex_of_word m x)
  end.

Definition bytes_of_string (s : string) : list N :=
  List.map N_of_ascii (list_ascii_of_string s).

(** [hashlib.sha256(s.encode("utf-8")).hexdigest()] *)
Definition hexdigest (s : string) : string :=
  String.concat EmptyString (List.map (hex_of_word 8) (digest_words (bytes_of_string s))).

End Sha256.

Arguments Sha256.hexdigest : simpl never.

(** ** The part of Python's [urllib.parse] that [canonicalize_url] calls

    Written after the library's source (CPython 3.11, urllib/parse.py).
    Percent-decoding is done on bytes: a decoded byte stands for itself
    (the UTF-8 decoding of escaped non-ASCII sequences is not modelled).
    The validation of a bracketed (IPv6 or IPvFuture) host, which the
    library delegates to [ipaddress], is the parameter [bracketed_ok]. *)

Module Urllib.

Import PyStr.

Definition uses_netloc : list string :=
  [ EmptyString; "ftp"; "http"; "gopher"; "nntp"; "telnet"; "imap"; "wais"; "file"; "mms";
    "https"; "shttp"; "snews"; "prospero"; "rtsp"; "rtspu"; "rsync"; "svn";
    "svn+ssh"; "sftp"; "nfs"; "git"; "git+ssh"; "ws"; "wss" ].

Definition uses_params : list string :=
  [ EmptyString; "ftp"; "hdl"; "prospero"; "http"; "imap"; "https"; "shttp"; "rtsp";
    "rtspu"; "sip"; "sips"; "mms"; "sftp"; "tel" ].

Definition in_list (s : string) (l : list string) : bool :=
  List.existsb (String.eqb s) l.

Fixpoint all_chars (p : ascii -> bool) (s : string) : bool :=
  match s with
  | EmptyString => true
  | String c r => p c && all_chars p r
  end.

(** [_WHATWG_C0_CONTROL_OR_SPACE] *)
Definition is_c0_or_space (c : ascii) : bool := (code c <=? 32)%N.

(** [scheme_chars] *)
Definition is_scheme_char (c : ascii) : bool :=
  is_alpha c || is_digit c || mem_char c "+-.".

Record SplitResult := mkSplit {
  s_scheme : string; s_netloc : string; s_path : string;
  s_query : string; s_fragment : string }.

Record ParseResult := mkParse {
  scheme : string; netloc : string; path : string;
  params : string; query : string; fragment : string }.

(** [_splitnetloc(url, 2)]: the text from index 2 up to the first of
    [/], [?], [#] there, and the rest. *)
Fixpoint first_delim (s : string) : nat :=
  match s with
  | EmptyString => 0
  | String c r => if mem_char c "/?#" then 0 else S (first_delim r)
  end.

Definition _splitnetloc (url : string) : string * string :=
  let r := drop 2 url in
  let delim := first_delim r in
  (take delim r, drop delim r).

Section Parsing.

Variable bracketed_ok : string -> bool.

(** [urlsplit(url)]; [None] is the [ValueError] of an invalid bracketed
    host. *)
Definition urlsplit (url0 : string) : option SplitResult :=
  let url1 := lstrip_by is_c0_or_space url0 in
  let url2 := remove_char "010" (remove_char "013" (remove_char "009" url1)) in
  let '(sch, url3) :=
    match find_char ":" url2 with
    | Some (S i) =>
        if match url2 with String c _ => is_alpha c | EmptyString => false end
           && all_chars is_scheme_char (take (S i) url2)
        then (lower (take (S i) url2), drop (S (S i)) url2)
        else (EmptyString, url2)
    | _ => (EmptyString, url2)
    end in
  let after_netloc (nl url4 : string) : option SplitResult :=
    let '(url5, frag) :=
      match split_first "#" url4 with
      | Some (a, b) => (a, b)
      | None => (url4, EmptyString)
      end in
    let '(url6, qry) :=
      match split_first "?" url5 with
      | Some (a, b) => (a, b)
      | None => (url5, EmptyString)
      end in
    Some (mkSplit sch nl url6 qry frag) in
  if startswith "//" url3 then
    let '(nl, rest) := _splitnetloc url3 in
    let ob := mem_char "[" nl in
    let cb := mem_char "]" nl in
    if xorb ob cb then None
    else if ob && cb && negb (bracketed_ok nl) then None
    else after_netloc nl rest
  else after_netloc EmptyString url3.

(** [_splitparams(url)], called when [;] occurs in [url]. *)
Definition _splitparams (url : string) : string * string :=
  if mem_char "/" url then
    match find_char_from ";" (default 0%nat (rfind_char "/" url)) url with
    | Some i => (take i url, drop (S i) url)
    | None => (url, EmptyString)
    end
  else
    match find_char ";" url with
    | Some i => (take i url, drop (S i) url)
    | None => (url, EmptyString)
    end.

(** [urlparse(url)] *)
Definition urlparse (url : string) : option ParseResult :=
  match urlsplit url with
  | None => None
  | Some r =>
      let '(p, prm) :=
        if in_list (s_scheme r) uses_params && mem_char ";" (s_path r)
        then _splitparams (s_path r)
        else (s_path r, EmptyString) in
      Some (mkParse (s_scheme r) (s_netloc r) p prm (s_query r) (s_fragment r))
  end.

End Parsing.

(** [urlunsplit((scheme, netloc, url, query, fragment))] *)
Definition urlunsplit (sch nl url qry frag : string) : string :=
  let url1 :=
    if nonempty nl
       || (nonempty sch && in_list sch uses_netloc && negb (startswith "//" url))
    then
      let u := if nonempty url && negb (startswith "/" url) then "/" ++ url else url in
      "//" ++ nl ++ u
    else url in
  let url2 := if nonempty sch then sch ++ ":" ++ url1 else url1 in
  let url3 := if nonempty qry then url2 ++ "?" ++ qry else url2 in
  if nonempty frag then url3 ++ "#" ++ frag else url3.

(** [urlunparse((scheme, netloc, url, params, query, fragment))] *)
Definition urlunparse (sch nl url prm qry frag : string) : string :=
  let url1 := if nonempty prm then url ++ ";" ++ prm else url in
  urlunsplit sch nl url1 qry frag.

Definition hex_value (c : ascii) : option N :=
  let n := code c in
  if is_digit c then Some (n - 48)%N
  else if ((65 <=? n) && (n <=? 70))%N then Some (n - 55)%N
  else if ((97 <=? n) && (n <=? 102))%N then Some (n - 87)%N
  else None.

(** [unquote(s)]: every [%XY] with two hexadecimal digits becomes the byte
    it names; any other [%] is kept. *)
Fixpoint unquote (s : string) : string :=
  match s with
  | EmptyString => EmptyString
  | String c r =>
      if Ascii.eqb c "%" then
        match r with
        | String a (String b r') =>
            match hex_value a, hex_value b with
            | Some x, Some y => String (ascii_of_N (16 * x + y)) (unquote r')
            | _, _ => String c (unquote r)
            end
        | _ => String c (unquote r)
        end
      else String c (unquote r)
  end.

(** [_ALWAYS_SAFE] *)
Definition always_safe (c : ascii) : bool :=
  is_alpha c || is_digit c || mem_char c "_.-~".

Definition upper_hex_digit (n : N) : ascii :=
  ascii_of_N (if (n <? 10)%N then 48 + n else 55 + n).

(** [quote_plus(s)] with the default empty [safe]. *)
Fixpoint quote_plus (s : string) : string :=
  match s with
  | EmptyString => EmptyString
  | String c r =>
      if always_safe c then String c (quote_plus r)
      else if Ascii.eqb c " " then String "+" (quote_plus r)
      else String "%" (String (upper_hex_digit (code c / 16))
                         (String (upper_hex_digit (code c mod 16)) (quote_plus r)))
  end.

(** [parse_qsl(qs, keep_blank_values=False)] *)
Definition parse_qsl (qs : string) : list (string * string) :=
  let query_args := if nonempty qs then split "&" qs else [] in
  List.flat_map
    (fun name_value =>
       if negb (nonempty name_value) then []
       else match split_first "=" name_value with
            | None => []
            | Some (n, v) =>
                if nonempty v
                then [(unquote (replace_char "+" " " n), unquote (replace_char "+" " " v))]
                else []
            end)
    query_args.

(** [urlencode(pairs)] for a list of pairs of strings. *)
Definition urlencode (pairs : list (string * string)) : string :=
  join "&" (List.map (fun kv => quote_plus (fst kv) ++ "=" ++ quote_plus (snd kv)) pairs).

End Urllib.

(** ** src/normalization.py *)

Module Normalization.

Import PyStr.

(** [WHITESPACE_RE.sub(" ", value)]: every maximal run of whitespace becomes
    one space.  [in_run] tells that the previous character was whitespace. *)
Fixpoint sub_whitespace (in_run : bool) (s : string) : string :=
  match s with
  | EmptyString => EmptyString
  | String c r =>
      if is_space c
      then if in_run then sub_whitespace true r else String " " (sub_whitespace true r)
      else String c (sub_whitespace false r)
  end.

Definition normalize_whitespace (value : string) : string :=
  strip (sub_whitespace false value).

(** [HTML_TAG_RE.sub] with the empty replacement, for [<[^>]+>]: at a [<], the match runs to
    the first [>] after it when at least one character lies between; it is
    removed and the scan resumes behind it.  Otherwise the [<] is kept. *)
Fixpoint strip_html_fuel (fuel : nat) (s : string) : string :=
  match fuel with
  | O => s
  | S f =>
      match s with
      | EmptyString => EmptyString
      | String c r =>
          if Ascii.eqb c "<" then
            match find_char ">" r with
            | Some (S i) => strip_html_fuel f (drop (S (S i)) r)
            | _ => String c (strip_html_fuel f r)
            end
          else String c (strip_html_fuel f r)
      end
  end.

Definition strip_html (value : string) : string :=
  strip_html_fuel (String.length value) value.

Definition normalize_title (value : string) : string :=
  let cleaned := strip_html value in
  let cleaned := normalize_whitespace cleaned in
  cleaned.

(** Order of Python tuples of two strings. *)
Definition pair_leb (a b : string * string) : bool :=
  if String.eqb (fst a) (fst b) then leb (snd a) (snd b) else leb (fst a) (fst b).

Fixpoint insert_sorted (x : string * string) (l : list (string * string)) :=
  match l with
  | [] => [x]
  | y :: r => if pair_leb x y then x :: l else y :: insert_sorted x r
  end.

(** [sorted(pairs)] *)
Definition sorted_pairs (l : list (string * string)) : list (string * string) :=
  List.fold_right insert_sorted [] l.

Section Canonicalize.

Variable bracketed_ok : string -> bool.

(** [canonicalize_url(url)]; [None] when [urlparse] raises. *)
Definition canonicalize_url (url : string) : option string :=
  match Urllib.urlparse bracketed_ok url with
  | None => None
  | Some parsed =>
      let scheme := or_else (Urllib.scheme parsed) "https" in
      let netloc := lower (Urllib.netloc parsed) in
      let path := or_else (rstrip_by (Ascii.eqb "/") (Urllib.path parsed)) "/" in
      let query_pairs := sorted_pairs (Urllib.parse_qsl (Urllib.query parsed)) in
      let query := Urllib.urlencode query_pairs in
      let normalized := Urllib.urlunparse scheme netloc path EmptyString query EmptyString in
      Some normalized
  end.

End Canonicalize.

(** The text that [deterministic_hash] digests:
    ["|".join(part.strip() for part in parts if part)]. *)
Definition joined_parts (parts : list string) : string :=
  join "|" (List.map strip (List.filter nonempty parts)).

(** [deterministic_hash] applied to the argument tuple [parts]. *)
Definition deterministic_hash (parts : list string) : string :=
  let joined := joined_parts parts in
  Sha256.hexdigest joined.

End Normalization.

(** ** Python numeric primitives on the idealised floats *)

Module PyNum.

Local Open Scope Q_scope.

(** [min(a, b)] and [max(a, b)] of Python: the first argument unless the
    second is strictly smaller (larger). *)
Definition py_min (a b : Q) : Q := if Qle_bool a b then a else b.
Definition py_max (a b : Q) : Q := if Qle_bool b a then a else b.

(** [a < b] as a boolean. *)
Definition Qlt_bool (a b : Q) : bool := negb (Qle_bool b a).

(** [sum(l)] *)
Definition py_sum (l : list Q) : Q := List.fold_left Qplus l 0.

(** [max(l, default=d)]: the first largest element, [d] for the empty
    list. *)
Definition max_default (l : list Q) (d : Q) : Q :=
  match l with
  | [] => d
  | x :: r => List.fold_left (fun m y => if Qlt_bool m y then y else m) r x
  end.

(** Rounding of a rational to the nearest integer, ties to the even one. *)
Definition round_half_even (q : Q) : Z :=
  let f := Qfloor q in
  let d := q - inject_Z f in
  if Qlt_bool d (1 # 2) then f
  else if Qlt_bool (1 # 2) d then (f + 1)%Z
  else if Z.even f then f else (f + 1)%Z.

(** [round(q, 2)] *)
Definition round2 (q : Q) : Q := Qmake (round_half_even (q * 100)) 100.

End PyNum.

(** ** src/rate_limit.py *)

Module RateLimit.

Import PyNum.
Local Open Scope Q_scope.

Record TokenBucket := mkBucket {
  capacity : Q;
  tokens : Q;
  refill_rate : Q;
  updated_at : Q }.

(** [TokenBucket.consume(amount)]; [now] is the reading of [time.time()]. *)
Definition consume (now : Q) (amount : Q) (b : TokenBucket) : bool * TokenBucket :=
  let elapsed := now - updated_at b in
  let refilled := py_min (capacity b) (tokens b + elapsed * refill_rate b) in
  if Qle_bool amount refilled
  then (true, mkBucket (capacity b) (refilled - amount) (refill_rate b) now)
  else (false, mkBucket (capacity b) refilled (refill_rate b) now).

Record RateLimiter := mkLimiter {
  qps : Q;
  burst : Q;
  _buckets : gmap string TokenBucket }.

(** [RateLimiter(qps, burst)] *)
Definition new_limiter (qps burst : Q) : RateLimiter := mkLimiter qps burst ∅.

(** [RateLimiter()] with the default arguments, the module's
    [_default_limiter]. *)
Definition default_limiter : RateLimiter := new_limiter (1 # 2) 1.

(** [RateLimiter.allow(key)].  [created] is the clock reading taken when a
    bucket is made for a key seen for the first time (unused otherwise);
    [now] is the reading taken inside [consume].  The lock makes the body
    one step. *)
Definition allow (key : string) (created now : Q) (rl : RateLimiter) : bool * RateLimiter :=
  let bucket :=
    match _buckets rl !! key with
    | Some b => b
    | None => mkBucket (burst rl) (burst rl) (qps rl) created
    end in
  let '(ok, bucket') := consume now 1 bucket in
  (ok, mkLimiter (qps rl) (burst rl) (<[key := bucket']> (_buckets rl))).

End RateLimit.

(** ** src/dedupe.py *)

Module Dedupe.

Import PyStr.

Record DedupeIndex := mkIndex {
  url_hashes : gmap string string;
  content_hashes : gmap string string }.

Definition empty_index : DedupeIndex := mkIndex ∅ ∅.

Section Add.

Variable bracketed_ok : string -> bool.

(** [DedupeIndex.add(url, content, title)]: the pair returned and the index
    afterwards; [None] when [canonicalize_url] raises. *)
Definition add (idx : DedupeIndex) (url content title : string)
  : option (bool * string * DedupeIndex) :=
  match Normalization.canonicalize_url bracketed_ok url with
  | None => None
  | Some canonical_url =>
      let title_key := Normalization.normalize_title title in
      let url_key := Normalization.deterministic_hash [canonical_url] in
      let content_key := Normalization.deterministic_hash [take 5000 content; title_key] in
      match url_hashes idx !! url_key with
      | Some existing => Some (false, existing, idx)
      | None =>
          match content_hashes idx !! content_key with
          | Some existing => Some (false, existing, idx)
          | None =>
              Some (true, url_key,
                    mkIndex (<[url_key := url_key]> (url_hashes idx))
                            (<[content_key := content_key]> (content_hashes idx)))
          end
      end
  end.

End Add.

End Dedupe.

(** ** src/confirm.py *)

Module Confirm.

Import PyStr PyNum.
Local Open Scope Q_scope.

Definition SIMILARITY_WEIGHT : Q := 6 # 10.
Definition SOURCE_WEIGHT : Q := 3 # 10.
Definition FRESHNESS_WEIGHT : Q := 1 # 10.

Definition SOURCE_SCORES : list (string * Q) :=
  [ ("coindesk", 1); ("theblock", 1); ("blockworks", 1); ("cryptopanic", 2); ("messari", 1) ].

(** [SOURCE_SCORES.get(source, 0.5)] *)
Fixpoint dict_get (d : list (string * Q)) (k : string) (dflt : Q) : Q :=
  match d with
  | [] => dflt
  | (k', v) :: r => if String.eqb k k' then v else dict_get r k dflt
  end.

(** Each pattern of [ENTITY_PATTERNS] is a word-bounded, case-insensitive
    choice between literals; the literals are listed in the order the
    regular expression tries them. *)
Definition ENTITY_PATTERNS : list (string * list string) :=
  [ ("BTC", ["btc"]); ("ETH", ["eth"]); ("SOL", ["sol"]); ("ETF", ["etf"]);
    ("SEC", ["sec"]); ("HACK", ["hacked"; "hacking"; "hack"]);
    ("FUNDING", ["funding rate"]) ].

Definition opt_word (c : option ascii) : bool :=
  match c with Some a => is_word a | None => false end.

Definition head_char (s : string) : option ascii :=
  match s with String c _ => Some c | EmptyString => None end.

(** The assertion [\b] between the characters [prev] and [next]. *)
Definition boundary (prev next : option ascii) : bool :=
  xorb (opt_word prev) (opt_word next).

(** Matches [lit] at the start of [s] ignoring case; gives the last
    character consumed (or [prev]) and the text that follows. *)
Fixpoint match_lit (lit : string) (prev : option ascii) (s : string)
  : option (option ascii * string) :=
  match lit with
  | EmptyString => Some (prev, s)
  | String a lit' =>
      match s with
      | String b s' =>
          if Ascii.eqb (lower_char a) (lower_char b) then match_lit lit' (Some b) s' else None
      | EmptyString => None
      end
  end.

Definition word_at (lit : string) (prev : option ascii) (s : string) : bool :=
  boundary prev (head_char s) &&
  match match_lit lit prev s with
  | Some (last, rest) => boundary last (head_char rest)
  | None => false
  end.

(** [pattern.search(text)] is not [None]. *)
Fixpoint search_from (alts : list string) (prev : option ascii) (s : string) : bool :=
  List.existsb (fun lit => word_at lit prev s) alts ||
  match s with
  | EmptyString => false
  | String c r => search_from alts (Some c) r
  end.

Definition pattern_search (alts : list string) (text : string) : bool :=
  search_from alts None text.

Record NewsItem := mkItem {
  origin : string;
  id : string;
  source : string;
  url : string;
  title : string;
  summary : option string;
  published_at : Z;
  fetched_at : Z;
  content_text : option string;
  language : option string;
  hash : string;
  score_hint : option Q }.

Record NewsCluster := mkCluster {
  c_origin : string;
  cluster_id : string;
  c_canonical_title : string;
  c_summary : option string;
  score : Q;
  source_count : nat;
  entities : list string;
  c_first_seen : Z;
  c_last_seen : Z;
  sentiment_hint : option string;
  links : list string }.

Record ClusterCandidate := mkCandidate {
  canonical_title : string;
  items : list NewsItem;
  similarities : list Q }.

(** [timedelta.total_seconds()] of a difference in microseconds. *)
Definition total_seconds (delta : Z) : Q := Qmake delta 1000000.

(** [ClusterCandidate.add(item, similarity)] *)
Definition add (c : ClusterCandidate) (item : NewsItem) (similarity : Q) : ClusterCandidate :=
  let items' := (items c ++ [item])%list in
  let similarities' := (similarities c ++ [similarity])%list in
  let canonical_title' :=
    if Qlt_bool (max_default (List.removelast similarities') 0) similarity
    then title item else canonical_title c in
  mkCandidate canonical_title' items' similarities'.

(** [min(...)] and [max(...)] over the members; [None] is the [ValueError]
    of an empty sequence. *)
Definition first_seen (c : ClusterCandidate) : option Z :=
  match List.map published_at (items c) with
  | [] => None
  | t :: r => Some (List.fold_left Z.min r t)
  end.

Definition last_seen (c : ClusterCandidate) : option Z :=
  match List.map published_at (items c) with
  | [] => None
  | t :: r => Some (List.fold_left Z.max r t)
  end.

Definition similarity_score (c : ClusterCandidate) : Q :=
  match similarities c with
  | [] => 0
  | _ => py_sum (similarities c) / inject_Z (Z.of_nat (List.length (similarities c)))
  end.

Definition source_score (c : ClusterCandidate) : Q :=
  py_sum (List.map (fun item => dict_get SOURCE_SCORES (source item) (1 # 2)) (items c)).

(** [freshness_score]; [now] is the reading of [datetime.now]. *)
Definition freshness_score (now : Z) (c : ClusterCandidate) : option Q :=
  fs ← first_seen c;
  let age_minutes := total_seconds (now - fs) / 60 in
  let freshness := py_max 0 (1 - age_minutes / 1440) in
  Some (freshness * 100).

Definition detect_entities (c : ClusterCandidate) : list string :=
  let combined_text := join " " (List.map title (items c)) in
  List.fold_left
    (fun entities lp =>
       if pattern_search (snd lp) combined_text
          && negb (List.existsb (String.eqb (fst lp)) entities)
       then (entities ++ [fst lp])%list else entities)
    ENTITY_PATTERNS [].

Definition negative_keywords : list string := ["hack"; "lawsuit"; "layoff"; "bankrupt"].
Definition positive_keywords : list string := ["launch"; "growth"; "profit"; "surge"].

(** [any(word in title for word in keywords)] *)
Definition any_in (keywords : list string) (title : string) : bool :=
  List.existsb (fun word => contains word title) keywords.

(** One turn of the loop of [_sentiment_hint]. *)
Definition sentiment_step (score : Z) (item : NewsItem) : Z :=
  let title := lower (title item) in
  let score := if any_in positive_keywords title then (score + 1)%Z else score in
  let score := if any_in negative_keywords title then (score - 1)%Z else score in
  score.

Definition _sentiment_hint (items : list NewsItem) : option string :=
  let score := List.fold_left sentiment_step items 0%Z in
  if (1 <? score)%Z then Some "positive"
  else if (score <? -1)%Z then Some "negative"
  else None.

(** [len({item.source for item in items})] *)
Definition distinct_sources (l : list NewsItem) : nat :=
  size (list_to_set (List.map source l) : gset string).

(** [ClusterCandidate.to_schema(origin)]; [now] is the clock reading of
    [freshness_score]. *)
Definition to_schema (origin : string) (now : Z) (c : ClusterCandidate) : option NewsCluster :=
  let similarity_component := (similarity_score c / 100) * 100 * SIMILARITY_WEIGHT in
  let source_component := source_score c * 10 * SOURCE_WEIGHT in
  fresh ← freshness_score now c;
  let freshness_component := fresh * FRESHNESS_WEIGHT in
  let score := similarity_component + source_component + freshness_component in
  let sentiment := _sentiment_hint (items c) in
  first ← List.head (items c);
  fs ← first_seen c;
  ls ← last_seen c;
  Some (mkCluster origin
          ("cluster-" ++ take 12 (hash first))
          (canonical_title c)
          (summary first)
          (round2 score)
          (distinct_sources (items c))
          (detect_entities c)
          fs ls sentiment
          (List.map url (items c))).

(** [sorted(items, key=lambda item: item.published_at)]: a stable sort. *)
Fixpoint insert_by_time (x : NewsItem) (l : list NewsItem) : list NewsItem :=
  match l with
  | [] => [x]
  | y :: r => if (published_at x <=? published_at y)%Z then x :: l else y :: insert_by_time x r
  end.

Definition sorted_by_time (l : list NewsItem) : list NewsItem :=
  List.fold_right insert_by_time [] l.

Section Clustering.

(** [rapidfuzz.fuzz.token_set_ratio] *)
Variable token_set_ratio : string -> string -> Q.

Variable window_minutes : Z.
Variable similarity_threshold : Q.

(** The inner [for cluster in clusters] loop for one item: [Some (Some cs)]
    when the item was added to a cluster ([matched], then [break]),
    [Some None] when the loop ran to its end, [None] when it raised. *)
Fixpoint scan (item : NewsItem) (item_title : string) (clusters : list ClusterCandidate)
  : option (option (list ClusterCandidate)) :=
  match clusters with
  | [] => Some None
  | cluster :: rest =>
      fs ← first_seen cluster;
      if Qlt_bool (inject_Z (window_minutes * 60))
                  (Qabs (total_seconds (published_at item - fs)))
      then r ← scan item item_title rest; Some (option_map (cons cluster) r)
      else
        let similarity :=
          token_set_ratio item_title (Normalization.normalize_title (canonical_title cluster)) in
        if Qle_bool similarity_threshold (similarity / 100)
        then Some (Some (add cluster item similarity :: rest))
        else r ← scan item item_title rest; Some (option_map (cons cluster) r)
  end.

(** The body of the outer loop. *)
Definition place_item (clusters : list ClusterCandidate) (item : NewsItem)
  : option (list ClusterCandidate) :=
  let item_title := Normalization.normalize_title (title item) in
  r ← scan item item_title clusters;
  match r with
  | Some clusters' => Some clusters'
  | None =>
      let new_cluster := mkCandidate (title item) [] [] in
      let new_cluster := add new_cluster item 100 in
      Some (clusters ++ [new_cluster])%list
  end.

(** The clusters after the outer loop. *)
Definition build_clusters (items : list NewsItem) : option (list ClusterCandidate) :=
  List.fold_left (fun acc item => clusters ← acc; place_item clusters item)
                 (sorted_by_time items) (Some []).

(** [[cluster.to_schema(origin) for cluster in clusters]]; the [i]-th call
    reads the clock as [clock i]. *)
Fixpoint finalize (origin : string) (clock : nat -> Z) (i : nat) (clusters : list ClusterCandidate)
  : option (list NewsCluster) :=
  match clusters with
  | [] => Some []
  | c :: rest =>
      nc ← to_schema origin (clock i) c;
      ncs ← finalize origin clock (S i) rest;
      Some (nc :: ncs)
  end.

Definition cluster_news (items : list NewsItem) (origin : string) (clock : nat -> Z)
  : option (list NewsCluster) :=
  clusters ← build_clusters items;
  finalize origin clock 0 clusters.

End Clustering.

End Confirm.

(** ** The storage interface (src/storage.py) and api/admin_cleanup.py *)

Module Cleanup.

Import PyStr PyNum.

(** A call either returns a value or raises; a raise carries what the
    caller is left with. *)
Inductive result (E A : Type) : Type :=
  | Ok (a : A)
  | Raised (e : E).

Arguments Ok {E A} a.
Arguments Raised {E A} e.

(** JSON values as far as the sweep looks at them: arrays and objects
    nested in a record only matter through their truth value. *)
Inductive Json : Type :=
  | JNull
  | JBool (b : bool)
  | JNum (q : Q)
  | JStr (s : string)
  | JOther (truthy : bool).

(** A stored record, a JSON object. *)
Definition JsonDict : Type := list (string * Json).

(** [record.get(key, dflt)] *)
Fixpoint dict_get (record : JsonDict) (key : string) (dflt : Json) : Json :=
  match record with
  | [] => dflt
  | (k, v) :: r => if String.eqb key k then v else dict_get r key dflt
  end.

(** Truth value of a JSON value in Python. *)
Definition truthy (v : Json) : bool :=
  match v with
  | JNull => false
  | JBool b => b
  | JNum q => negb (Qeq_bool q 0)
  | JStr s => nonempty s
  | JOther t => t
  end.

(** What [datetime.fromisoformat] returns: an instant in microseconds,
    with a timezone or without. *)
Inductive Datetime : Type :=
  | Aware (t : Z)
  | Naive (t : Z).

(** The [StorageBackend] interface over a store of type [S]:
    [list(prefix, limit)], [get_json(key)] and [delete(key)]. *)
Record StorageBackend (S : Type) : Type := mkBackend {
  st_list : S -> string -> nat -> result unit (list string);
  st_get_json : S -> string -> result unit (option JsonDict);
  st_delete : S -> string -> result S S }.

Arguments st_list {S} _ _ _ _.
Arguments st_get_json {S} _ _ _.
Arguments st_delete {S} _ _ _.

Definition PREFIXES : list string := ["news/raw"; "news/clustered"; "market"; "logs"].

Fixpoint last_char (s : string) : option ascii :=
  match s with
  | EmptyString => None
  | String c EmptyString => Some c
  | String _ r => last_char r
  end.

(** [value[:-1]] *)
Fixpoint drop_last (s : string) : string :=
  match s with
  | EmptyString => EmptyString
  | String _ EmptyString => EmptyString
  | String c r => String c (drop_last r)
  end.

Record CleanupRequest := mkRequest { dry_run : bool }.

Record CleanupResponse := mkResponse { deleted : list string; kept : Z }.

Section Sweep.

Context {S : Type}.
Variable storage : StorageBackend S.

(** [datetime.fromisoformat]; [None] is its [ValueError]. *)
Variable fromisoformat : string -> option Datetime.

Definition _parse_timestamp (value : string) : option Datetime :=
  let value :=
    if match last_char value with Some c => Ascii.eqb c "Z" | None => false end
    then drop_last value ++ "+00:00" else value in
  fromisoformat value.

(** [age_days >= ttl_days]; [None] is the [TypeError] of comparing an
    integer with a value that is not a number. *)
Definition ge_json (age_days : Z) (ttl_days : Json) : option bool :=
  match ttl_days with
  | JNum q => Some (Qle_bool q (inject_Z age_days))
  | JBool b => Some (Qle_bool (if b then 1 else 0) (inject_Z age_days))
  | _ => None
  end.

(** The local variables of [cleanup] that the loops update, and the store. *)
Record SweepState := mkSweep { store : S; sw_deleted : list string; sw_kept : Z }.

Variable request : CleanupRequest.

(** [now] is the reading of [datetime.now(timezone.utc)]. *)
Variable now : Z.

(** The body of [for key in keys]. *)
Definition sweep_key (a : SweepState) (key : string) : result S SweepState :=
  match st_get_json storage (store a) key with
  | Raised _ => Raised (store a)
  | Ok None => Ok a
  | Ok (Some []) => Ok a
  | Ok (Some record) =>
      let created_at := dict_get record "created_at" JNull in
      let ttl_days := dict_get record "ttl_days" (JNum 14) in
      if negb (truthy created_at) then Ok (mkSweep (store a) (sw_deleted a) (sw_kept a + 1))
      else
        match created_at with
        | JStr value =>
            match _parse_timestamp value with
            | Some (Aware created) =>
                let age_days := ((now - created) / 86400000000)%Z in
                match ge_json age_days ttl_days with
                | None => Raised (store a)
                | Some true =>
                    let deleted := (sw_deleted a ++ [key])%list in
                    if negb (dry_run request) then
                      match st_delete storage (store a) key with
                      | Ok store' => Ok (mkSweep store' deleted (sw_kept a))
                      | Raised behind => Raised behind
                      end
                    else Ok (mkSweep (store a) deleted (sw_kept a))
                | Some false => Ok (mkSweep (store a) (sw_deleted a) (sw_kept a + 1))
                end
            | _ => Raised (store a)
            end
        | _ => Raised (store a)
        end
  end.

(** [for key in keys]: the first raise ends the loop. *)
Fixpoint sweep_keys (keys : list string) (a : SweepState) : result S SweepState :=
  match keys with
  | [] => Ok a
  | key :: rest =>
      match sweep_key a key with
      | Ok a' => sweep_keys rest a'
      | Raised behind => Raised behind
      end
  end.

(** The body of [for prefix in PREFIXES]. *)
Definition sweep_prefix (a : SweepState) (prefix : string) : result S SweepState :=
  match st_list storage (store a) prefix 1000 with
  | Raised _ => Raised (store a)
  | Ok keys => sweep_keys keys a
  end.

Fixpoint sweep_prefixes (prefixes : list string) (a : SweepState) : result S SweepState :=
  match prefixes with
  | [] => Ok a
  | prefix :: rest =>
      match sweep_prefix a prefix with
      | Ok a' => sweep_prefixes rest a'
      | Raised behind => Raised behind
      end
  end.

(** [cleanup(payload)] run on the store [s]: the response and the store
    afterwards, or the store left behind by the exception that ended it. *)
Definition cleanup (s : S) : result S (CleanupResponse * S) :=
  match sweep_prefixes PREFIXES (mkSweep s [] 0) with
  | Ok a => Ok (mkResponse (sw_deleted a) (sw_kept a), store a)
  | Raised behind => Raised behind
  end.

End Sweep.

(** An in-memory backend in the shape of [LocalStorage]: the files in the
    order the directory walk yields them, and the keys whose file the
    operating system refuses to read or to unlink. *)
Record MemStore := mkMem {
  files : list (string * JsonDict);
  unreadable : list string;
  undeletable : list string }.

Definition in_keys (k : string) (l : list string) : bool := List.existsb (String.eqb k) l.

Fixpoint endswith (suffix s : string) : bool :=
  String.eqb suffix s ||
  match s with
  | EmptyString => false
  | String _ r => endswith suffix r
  end.

Fixpoint insert_key (x : string) (l : list string) : list string :=
  match l with
  | [] => [x]
  | y :: r => if leb x y then x :: l else y :: insert_key x r
  end.

Definition sorted_keys (l : list string) : list string := List.fold_right insert_key [] l.

Fixpoint lookup_file (k : string) (l : list (string * JsonDict)) : option JsonDict :=
  match l with
  | [] => None
  | (k', v) :: r => if String.eqb k k' then Some v else lookup_file k r
  end.

Definition mem_list (st : MemStore) (prefix : string) (limit : nat) : result unit (list string) :=
  let under := List.filter (fun k => startswith (prefix ++ "/") k && endswith ".json" k)
                           (List.map fst (files st)) in
  Ok (sorted_keys (List.firstn limit under)).

Definition mem_get_json (st : MemStore) (key : string) : result unit (option JsonDict) :=
  if in_keys key (unreadable st) then Raised tt else Ok (lookup_file key (files st)).

Definition mem_delete (st : MemStore) (key : string) : result MemStore MemStore :=
  if in_keys key (undeletable st) then Raised st
  else Ok (mkMem (List.filter (fun kv => negb (String.eqb key (fst kv))) (files st))
                 (unreadable st) (undeletable st)).

Definition mem_backend : StorageBackend MemStore := mkBackend MemStore mem_list mem_get_json mem_delete.

End Cleanup.

(** ** src/dedupe.py: the near-duplicate check *)

Module NearDuplicate.

Section Ratio.

(** [rapidfuzz.fuzz.token_set_ratio] *)
Variable token_set_ratio : string -> string -> Q.

(** [near_duplicate(title, existing_titles, threshold)] *)
Fixpoint near_duplicate (title : string) (existing_titles : list string) (threshold : Q) : bool :=
  match existing_titles with
  | [] => false
  | other :: rest =>
      let score := token_set_ratio (Normalization.normalize_title title)
                                   (Normalization.normalize_title other) in
      if Qle_bool threshold score then true
      else near_duplicate title rest threshold
  end.

End Ratio.

(** The default [threshold]. *)
Definition default_threshold : Q := 90.

End NearDuplicate.

(** ** api/news_fetch.py: the accept gate of [fetch_news] *)

Module NewsFetch.

Import PyStr Confirm.

(** What the loop carries: the dedupe index, the items collected so far
    and the store. *)
Record FetchState (S : Type) : Type := mkFetch {
  f_dedupe : Dedupe.DedupeIndex;
  f_collected : list NewsItem;
  f_store : S }.

Arguments mkFetch {S} _ _ _.
Arguments f_dedupe {S} _.
Arguments f_collected {S} _.
Arguments f_store {S} _.

Section Collect.

Variable bracketed_ok : string -> bool.

(** [rapidfuzz.fuzz.token_set_ratio] *)
Variable token_set_ratio : string -> string -> Q.

Context {S : Type}.

(** [storage.put_json(key, record)] for the record of an item of a source,
    under its key; [None] when it raises. *)
Variable put_raw : S -> string -> NewsItem -> option S.

(** The body of the inner loop from [if not item] on.  [built] is what
    [_build_news_item] returned for the entry; [None] when a call raised. *)
Definition accept_entry (source : string) (st : FetchState S) (built : option NewsItem)
  : option (FetchState S) :=
  match built with
  | None => Some st
  | Some item =>
      match Dedupe.add bracketed_ok (f_dedupe st) (url item)
                       (or_else (default EmptyString (content_text item)) EmptyString)
                       (title item) with
      | None => None
      | Some (accepted, _, dedupe) =>
          if negb accepted then Some (mkFetch dedupe (f_collected st) (f_store st))
          else if NearDuplicate.near_duplicate token_set_ratio (title item)
                    (List.map title (f_collected st)) NearDuplicate.default_threshold
          then Some (mkFetch dedupe (f_collected st) (f_store st))
          else
            match put_raw (f_store st) source item with
            | None => None
            | Some store => Some (mkFetch dedupe (f_collected st ++ [item])%list store)
            end
      end
  end.

(** [for entry in entries], over what [_build_news_item] returned for each
    entry; an entry for which it raised is [None] and ends the run. *)
Fixpoint accept_entries (source : string) (entries : list (option (option NewsItem)))
    (st : FetchState S) : option (FetchState S) :=
  match entries with
  | [] => Some st
  | None :: _ => None
  | Some built :: rest =>
      match accept_entry source st built with
      | None => None
      | Some st' => accept_entries source rest st'
      end
  end.

(** [for source in request.sources], over the sources that have a feed,
    each with what its entries were built to. *)
Fixpoint accept_sources (feeds : list (string * list (option (option NewsItem))))
    (st : FetchState S) : option (FetchState S) :=
  match feeds with
  | [] => Some st
  | (source, entries) :: rest =>
      match accept_entries source entries st with
      | None => None
      | Some st' => accept_sources rest st'
      end
  end.

(** The items [fetch_news] returns and the store it leaves. *)
Definition fetch_news (feeds : list (string * list (option (option NewsItem)))) (store : S)
  : option (list NewsItem * S) :=
  match accept_sources feeds (mkFetch Dedupe.empty_index [] store) with
  | None => None
  | Some st => Some (f_collected st, f_store st)
  end.

End Collect.

End NewsFetch.

(** ** Python floats: IEEE 754 binary64

    The arithmetic is that of [SpecFloat] at precision 53 and maximal
    exponent 1024, rounding to nearest, ties to even. *)

Module Float64.

Definition float : Type := spec_float.

Definition prec : Z := 53.
Definition emax : Z := 1024.

Definition fadd : float -> float -> float := SFadd prec emax.
Definition fsub : float -> float -> float := SFsub prec emax.
Definition fmul : float -> float -> float := SFmul prec emax.
Definition fdiv : float -> float -> float := SFdiv prec emax.

(** [x < y] and [x <= y]; false when one of them is not a number. *)
Definition fltb : float -> float -> bool := SFltb.
Definition fleb : float -> float -> bool := SFleb.

(** [abs(x)] *)
Definition fabs : float -> float := SFabs.

Definition zero : float := S754_zero false.

(** The float nearest to the quotient of two integers: a decimal literal,
    the true division of two [int], and the conversion of a decimal string
    to a float. *)
Definition of_ratio (n : Z) (d : positive) : float :=
  match n with
  | Z0 => zero
  | Zpos p => SFdiv prec emax (S754_finite false p 0) (S754_finite false d 0)
  | Zneg p => SFdiv prec emax (S754_finite true p 0) (S754_finite false d 0)
  end.

(** [float(n)] for an [int], also when an [int] meets a float in an
    arithmetic operation. *)
Definition of_Z (n : Z) : float := of_ratio n 1.

(** The value of a float that is a number and finite. *)
Definition exact (x : float) : option Q :=
  match x with
  | S754_zero _ => Some 0%Q
  | S754_finite s m e =>
      let v := match e with
               | Zneg p => Qmake (Zpos m) (2 ^ p)
               | _ => inject_Z (Zpos m * 2 ^ e)
               end in
      Some (if s then Qopp v else v)
  | _ => None
  end.

(** The sign bit. *)
Definition negative (x : float) : bool :=
  match x with
  | S754_zero s | S754_infinity s | S754_finite s _ _ => s
  | S754_nan => false
  end.

(** [x > n] for a float and an [int]: Python compares the two values
    exactly. *)
Definition gt_int (x : float) (n : Z) : bool :=
  match x with
  | S754_nan => false
  | S754_infinity s => negb s
  | _ => match exact x with
         | Some q => PyNum.Qlt_bool (inject_Z n) q
         | None => false
         end
  end.

(** [max(a, b)] of Python: [a] unless [b > a]. *)
Definition py_max (a b : float) : float := if fltb a b then b else a.

(** [sum(l)] of floats (CPython 3.11): added from left to right, starting
    from the [int] 0. *)
Definition py_sum (l : list float) : float := List.fold_left fadd l zero.

(** [max(l)] for a list that is not empty: the first largest element. *)
Definition max_list (x : float) (r : list float) : float :=
  List.fold_left (fun m y => if fltb m y then y else m) r x.

(** [round(x, 2)]: the value of [x] is rounded to the nearest multiple of
    0.01, a tie going to the even multiple, and the float nearest to that
    multiple is returned, with the sign of [x]; a float that is not finite
    is returned as it is. *)
Definition round2 (x : float) : float :=
  match x with
  | S754_finite s _ _ =>
      match exact (fabs x) with
      | Some q =>
          match PyNum.round_half_even (q * 100) with
          | Zpos k => of_ratio (if s then Zneg k else Zpos k) 100
          | _ => S754_zero s
          end
      | None => x
      end
  | _ => x
  end.

End Float64.

(** ** src/confirm.py, with the floats and the datetimes of Python

    The module [Confirm] above reads a float as the rational it stands for
    and a datetime as an instant.  This module reads [confirm.py] again
    with binary64 floats and with datetimes that carry a timezone or not;
    comparing or subtracting an aware and a naive datetime raises
    [TypeError]. *)

Module ConfirmFloat.

Import PyStr Float64.

Local Abbreviation Datetime := Cleanup.Datetime.
Local Abbreviation Aware := Cleanup.Aware.
Local Abbreviation Naive := Cleanup.Naive.

Definition SIMILARITY_WEIGHT : float := of_ratio 6 10.
Definition SOURCE_WEIGHT : float := of_ratio 3 10.
Definition FRESHNESS_WEIGHT : float := of_ratio 1 10.

Definition SOURCE_SCORES : list (string * float) :=
  [ ("coindesk", of_Z 1); ("theblock", of_Z 1); ("blockworks", of_Z 1);
    ("cryptopanic", of_Z 2); ("messari", of_Z 1) ].

(** [SOURCE_SCORES.get(source, 0.5)] *)
Fixpoint dict_get (d : list (string * float)) (k : string) (dflt : float) : float :=
  match d with
  | [] => dflt
  | (k', v) :: r => if String.eqb k k' then v else dict_get r k dflt
  end.

Record NewsItem := mkItem {
  origin : string;
  id : string;
  source : string;
  url : string;
  title : string;
  summary : option string;
  published_at : Datetime;
  fetched_at : Datetime;
  content_text : option string;
  language : option string;
  hash : string;
  score_hint : option float }.

Record NewsCluster := mkCluster {
  c_origin : string;
  cluster_id : string;
  c_canonical_title : string;
  c_summary : option string;
  score : float;
  source_count : nat;
  entities : list string;
  c_first_seen : Datetime;
  c_last_seen : Datetime;
  sentiment_hint : option string;
  links : list string }.

Record ClusterCandidate := mkCandidate {
  canonical_title : string;
  items : list NewsItem;
  similarities : list float }.

(** [a < b] on datetimes; [None] is the [TypeError] of comparing an aware
    with a naive one. *)
Definition dt_lt (a b : Datetime) : option bool :=
  match a, b with
  | Aware x, Aware y | Naive x, Naive y => Some (x <? y)%Z
  | _, _ => None
  end.

(** [a - b], a [timedelta] in microseconds; [None] is the [TypeError] of
    subtracting an aware and a naive datetime. *)
Definition dt_sub (a b : Datetime) : option Z :=
  match a, b with
  | Aware x, Aware y | Naive x, Naive y => Some (x - y)%Z
  | _, _ => None
  end.

(** [timedelta.total_seconds()]: the microseconds divided by [10**6], a
    true division of two [int]. *)
Definition total_seconds (delta : Z) : float := of_ratio delta 1000000.

(** [ClusterCandidate.add(item, similarity)] *)
Definition add (c : ClusterCandidate) (item : NewsItem) (similarity : float) : ClusterCandidate :=
  let items' := (items c ++ [item])%list in
  let similarities' := (similarities c ++ [similarity])%list in
  let exceeds :=
    match List.removelast similarities' with
    | [] => gt_int similarity 0
    | x :: r => fltb (max_list x r) similarity
    end in
  mkCandidate (if exceeds then title item else canonical_title c) items' similarities'.

(** [min(...)] over datetimes, from the first one on: a later one replaces
    the least so far when it is smaller. *)
Fixpoint min_from (least : Datetime) (l : list Datetime) : option Datetime :=
  match l with
  | [] => Some least
  | t :: r =>
      match dt_lt t least with
      | Some b => min_from (if b then t else least) r
      | None => None
      end
  end.

Fixpoint max_from (greatest : Datetime) (l : list Datetime) : option Datetime :=
  match l with
  | [] => Some greatest
  | t :: r =>
      match dt_lt greatest t with
      | Some b => max_from (if b then t else greatest) r
      | None => None
      end
  end.

(** [first_seen] and [last_seen]; [None] is the [ValueError] of an empty
    sequence or the [TypeError] of a comparison. *)
Definition first_seen (c : ClusterCandidate) : option Datetime :=
  match List.map published_at (items c) with
  | [] => None
  | t :: r => min_from t r
  end.

Definition last_seen (c : ClusterCandidate) : option Datetime :=
  match List.map published_at (items c) with
  | [] => None
  | t :: r => max_from t r
  end.

Definition similarity_score (c : ClusterCandidate) : float :=
  match similarities c with
  | [] => zero
  | _ => fdiv (py_sum (similarities c)) (of_Z (Z.of_nat (List.length (similarities c))))
  end.

Definition source_score (c : ClusterCandidate) : float :=
  py_sum (List.map (fun item => dict_get SOURCE_SCORES (source item) (of_ratio 1 2)) (items c)).

(** [freshness_score]; [now] is the instant [datetime.now(timezone.utc)]
    gives, an aware datetime. *)
Definition freshness_score (now : Z) (c : ClusterCandidate) : option float :=
  fs ← first_seen c;
  delta ← dt_sub (Aware now) fs;
  let age_minutes := fdiv (total_seconds delta) (of_Z 60) in
  let freshness := py_max zero (fsub (of_Z 1) (fdiv age_minutes (of_Z 1440))) in
  Some (fmul freshness (of_Z 100)).

Definition detect_entities (c : ClusterCandidate) : list string :=
  let combined_text := join " " (List.map title (items c)) in
  List.fold_left
    (fun entities lp =>
       if Confirm.pattern_search (snd lp) combined_text
          && negb (List.existsb (String.eqb (fst lp)) entities)
       then (entities ++ [fst lp])%list else entities)
    Confirm.ENTITY_PATTERNS [].

(** One turn of the loop of [_sentiment_hint]. *)
Definition sentiment_step (score : Z) (item : NewsItem) : Z :=
  let title := lower (title item) in
  let score := if Confirm.any_in Confirm.positive_keywords title then (score + 1)%Z else score in
  let score := if Confirm.any_in Confirm.negative_keywords title then (score - 1)%Z else score in
  score.

Definition _sentiment_hint (items : list NewsItem) : option string :=
  let score := List.fold_left sentiment_step items 0%Z in
  if (1 <? score)%Z then Some "positive"
  else if (score <? -1)%Z then Some "negative"
  else None.

(** [len({item.source for item in items})] *)
Definition distinct_sources (l : list NewsItem) : nat :=
  size (list_to_set (List.map source l) : gset string).

(** [ClusterCandidate.to_schema(origin)]; [now] is the clock reading of
    [freshness_score]. *)
Definition to_schema (origin : string) (now : Z) (c : ClusterCandidate) : option NewsCluster :=
  let similarity_component :=
    fmul (fmul (fdiv (similarity_score c) (of_Z 100)) (of_Z 100)) SIMILARITY_WEIGHT in
  let source_component := fmul (fmul (source_score c) (of_Z 10)) SOURCE_WEIGHT in
  fresh ← freshness_score now c;
  let freshness_component := fmul fresh FRESHNESS_WEIGHT in
  let score := fadd (fadd similarity_component source_component) freshness_component in
  let sentiment := _sentiment_hint (items c) in
  first ← List.head (items c);
  fs ← first_seen c;
  ls ← last_seen c;
  Some (mkCluster origin
          ("cluster-" ++ take 12 (hash first))
          (canonical_title c)
          (summary first)
          (round2 score)
          (distinct_sources (items c))
          (detect_entities c)
          fs ls sentiment
          (List.map url (items c))).

(** [sorted(items, key=lambda item: item.published_at)]: a stable sort
    that compares with [<].  A sort of a list that holds an aware and a
    naive datetime has to compare two such, and raises. *)
Fixpoint insert_by_time (x : NewsItem) (l : list NewsItem) : option (list NewsItem) :=
  match l with
  | [] => Some [x]
  | y :: r =>
      match dt_lt (published_at y) (published_at x) with
      | Some true => r' ← insert_by_time x r; Some (y :: r')
      | Some false => Some (x :: l)
      | None => None
      end
  end.

Fixpoint sorted_by_time (l : list NewsItem) : option (list NewsItem) :=
  match l with
  | [] => Some []
  | x :: r => r' ← sorted_by_time r; insert_by_time x r'
  end.

Section Clustering.

(** [rapidfuzz.fuzz.token_set_ratio], a float between 0 and 100 *)
Variable token_set_ratio : string -> string -> float.

Variable window_minutes : Z.
Variable similarity_threshold : float.

(** The inner [for cluster in clusters] loop for one item: [Some (Some cs)]
    when the item was added to a cluster ([matched], then [break]),
    [Some None] when the loop ran to its end, [None] when it raised. *)
Fixpoint scan (item : NewsItem) (item_title : string) (clusters : list ClusterCandidate)
  : option (option (list ClusterCandidate)) :=
  match clusters with
  | [] => Some None
  | cluster :: rest =>
      fs ← first_seen cluster;
      delta ← dt_sub (published_at item) fs;
      if gt_int (fabs (total_seconds delta)) (window_minutes * 60)
      then r ← scan item item_title rest; Some (option_map (cons cluster) r)
      else
        let similarity :=
          token_set_ratio item_title (Normalization.normalize_title (canonical_title cluster)) in
        if fleb similarity_threshold (fdiv similarity (of_Z 100))
        then Some (Some (add cluster item similarity :: rest))
        else r ← scan item item_title rest; Some (option_map (cons cluster) r)
  end.

(** The body of the outer loop. *)
Definition place_item (clusters : list ClusterCandidate) (item : NewsItem)
  : option (list ClusterCandidate) :=
  let item_title := Normalization.normalize_title (title item) in
  r ← scan item item_title clusters;
  match r with
  | Some clusters' => Some clusters'
  | None =>
      let new_cluster := mkCandidate (title item) [] [] in
      let new_cluster := add new_cluster item (of_Z 100) in
      Some (clusters ++ [new_cluster])%list
  end.

(** The clusters after the outer loop. *)
Definition build_clusters (items : list NewsItem) : option (list ClusterCandidate) :=
  sorted_items ← sorted_by_time items;
  List.fold_left (fun acc item => clusters ← acc; place_item clusters item)
                 sorted_items (Some []).

(** [[cluster.to_schema(origin) for cluster in clusters]]; the [i]-th call
    reads the clock as [clock i]. *)
Fixpoint finalize (origin : string) (clock : nat -> Z) (i : nat) (clusters : list ClusterCandidate)
  : option (list NewsCluster) :=
  match clusters with
  | [] => Some []
  | c :: rest =>
      nc ← to_schema origin (clock i) c;
      ncs ← finalize origin clock (S i) rest;
      Some (nc :: ncs)
  end.

Definition cluster_news (items : list NewsItem) (origin : string) (clock : nat -> Z)
  : option (list NewsCluster) :=
  clusters ← build_clusters items;
  finalize origin clock 0 clusters.

End Clustering.

End ConfirmFloat.

(** * Vocabulary of the statements

    Definitions that follow the words of the specification, the predicates
    the statements use, and the data of the examples. *)

Module NormalizationSpec.

Import PyStr.

(** The text digested according to the specification: every part trimmed,
    the empty results dropped, the rest joined with a bar. *)
Definition joined_parts_spec (parts : list string) : string :=
  join "|" (List.filter nonempty (List.map strip parts)).

Definition deterministic_hash_spec (parts : list string) : string :=
  Sha256.hexdigest (joined_parts_spec parts).

(** A part that is empty, or keeps a character when trimmed. *)
Definition not_blank (part : string) : Prop :=
  nonempty part = true -> nonempty (strip part) = true.

End NormalizationSpec.

Module RateLimitSpec.

Import RateLimit.
Local Open Scope Q_scope.

(** The bucket invariant of the data model. *)
Definition within_capacity (b : TokenBucket) : Prop :=
  0 <= tokens b /\ tokens b <= capacity b.

(** The bucket [allow] works on: the stored one, or a full one made on the
    spot. *)
Definition bucket_for (key : string) (created : Q) (rl : RateLimiter) : TokenBucket :=
  match _buckets rl !! key with
  | Some b => b
  | None => mkBucket (burst rl) (burst rl) (qps rl) created
  end.

End RateLimitSpec.

Module ConfirmSpec.

Import PyStr PyNum Confirm.
Local Open Scope Q_scope.

(** The counter according to the specification: one step per keyword that
    occurs in a lower-cased title. *)
Definition keyword_matches (keywords : list string) (title : string) : Z :=
  Z.of_nat (List.length (List.filter (fun word => contains word title) keywords)).

Definition sentiment_counter_spec (items : list NewsItem) : Z :=
  List.fold_left
    (fun score item =>
       (score + keyword_matches positive_keywords (lower (title item))
        - keyword_matches negative_keywords (lower (title item)))%Z)
    items 0%Z.

Definition _sentiment_hint_spec (items : list NewsItem) : option string :=
  let counter := sentiment_counter_spec items in
  if (1 <? counter)%Z then Some "positive"
  else if (counter <? -1)%Z then Some "negative"
  else None.

(** The number of members in whose lower-cased title at least one of the
    keywords occurs. *)
Definition titles_hit (keywords : list string) (items : list NewsItem) : Z :=
  Z.of_nat (List.length (List.filter (fun item => any_in keywords (lower (title item))) items)).

(** The cluster opened for an item that matched none: the item alone, with
    the similarity 100. *)
Definition opened (item : NewsItem) : ClusterCandidate :=
  mkCandidate (title item) [item] [100].

(** A cluster led by the member that opened it. *)
Definition led_by_first (c : ClusterCandidate) : Prop :=
  exists first rest sims,
    items c = first :: rest
    /\ canonical_title c = title first
    /\ similarities c = 100 :: sims.

Section Placement.

Variable token_set_ratio : string -> string -> Q.
Variable window_minutes : Z.
Variable similarity_threshold : Q.

(** The title similarity of an item and a cluster, on the scale 0 to 100. *)
Definition similarity (item : NewsItem) (c : ClusterCandidate) : Q :=
  token_set_ratio (Normalization.normalize_title (title item))
                  (Normalization.normalize_title (canonical_title c)).

(** The window test: the publication time is at most [window_minutes * 60]
    seconds away from the first-seen time of the cluster. *)
Definition within_window (item : NewsItem) (c : ClusterCandidate) : bool :=
  match first_seen c with
  | Some fs =>
      Qle_bool (Qabs (total_seconds (published_at item - fs)))
               (inject_Z (window_minutes * 60))
  | None => false
  end.

(** The two tests a cluster has to pass to take an item. *)
Definition accepts (item : NewsItem) (c : ClusterCandidate) : bool :=
  within_window item c && Qle_bool similarity_threshold (similarity item c / 100).

(** Placement according to the specification: the first cluster, in
    creation order, that accepts the item takes it with its similarity
    ([list_find] gives the least index); when none accepts, a new cluster
    is opened behind the others. *)
Definition place_item_spec (clusters : list ClusterCandidate) (item : NewsItem)
  : list ClusterCandidate :=
  match list_find (fun c => accepts item c = true) clusters with
  | Some (i, c) => <[i := add c item (similarity item c)]> clusters
  | None => (clusters ++ [opened item])%list
  end.

(** The open clusters after every item, taken in order of publication, was
    placed. *)
Definition build_clusters_spec (items : list NewsItem) : list ClusterCandidate :=
  List.fold_left place_item_spec (sorted_by_time items) [].

End Placement.

(** A similarity measure for the examples: 100 for equal titles, 0 for
    different ones. *)
Definition exact_match_ratio (a b : string) : Q :=
  if String.eqb a b then 100 else 0.

Definition report (source t : string) (published : Z) : NewsItem :=
  mkItem "test" "1" source "https://example.com/a" t None published 0 None None "abc" None.

End ConfirmSpec.

Module CleanupSpec.

Import PyStr PyNum Cleanup.

(** A record that the sweep finds expired at [now]: it has a [created_at]
    that parses to an instant, and its age in whole days reaches its
    [ttl_days] (14 when the record has none). *)
Definition expired (fromisoformat : string -> option Datetime) (now : Z)
    (record : JsonDict) : Prop :=
  exists value created,
    record <> []
    /\ dict_get record "created_at" JNull = JStr value
    /\ nonempty value = true
    /\ _parse_timestamp fromisoformat value = Some (Aware created)
    /\ ge_json ((now - created) / 86400000000) (dict_get record "ttl_days" (JNum 14))
       = Some true.

(** A reading of timestamps for the examples: it knows the first instant
    of 2025. *)
Definition new_year_only (value : string) : option Datetime :=
  if String.eqb value "2025-01-01T00:00:00+00:00" then Some (Aware 1735689600000000) else None.

Definition old_record : JsonDict :=
  [ ("created_at", JStr "2025-01-01T00:00:00Z"); ("ttl_days", JNum 14) ].

(** Twenty days later. *)
Definition later : Z := 1737417600000000.

(** Two expired log records; the first cannot be unlinked. *)
Definition stuck_store : MemStore :=
  mkMem [ ("logs/a.json", old_record); ("logs/b.json", old_record) ] [] ["logs/a.json"].

End CleanupSpec.

Module DedupeSpec.

Import Dedupe.

(** The maps of the index double as sets: every entry maps a hash to
    itself. *)
Definition set_like (idx : DedupeIndex) : Prop :=
  (forall h v, url_hashes idx !! h = Some v -> v = h)
  /\ (forall h v, content_hashes idx !! h = Some v -> v = h).

(** Every entry of [idx] is an entry of [idx']. *)
Definition extends (idx idx' : DedupeIndex) : Prop :=
  (forall h v, url_hashes idx !! h = Some v -> url_hashes idx' !! h = Some v)
  /\ (forall h v, content_hashes idx !! h = Some v -> content_hashes idx' !! h = Some v).

(** The index after the first report of the examples was accepted. *)
Definition sample_url_key : string :=
  Normalization.deterministic_hash ["https://example.com/a"].

Definition sample_content_key : string :=
  Normalization.deterministic_hash ["Body"; "Sample"].

Definition sample_index : DedupeIndex :=
  mkIndex {[ sample_url_key := sample_url_key ]} {[ sample_content_key := sample_content_key ]}.

End DedupeSpec.

Module RateLimitMore.

Import RateLimit.
Local Open Scope Q_scope.

(** Calls of [allow] for one key at the clock readings [times], in order:
    the answers and the limiter afterwards. *)
Fixpoint allow_each (key : string) (times : list Q) (rl : RateLimiter)
  : list bool * RateLimiter :=
  match times with
  | [] => ([], rl)
  | t :: rest =>
      let '(ok, rl') := allow key t t rl in
      let '(oks, rl'') := allow_each key rest rl' in
      (ok :: oks, rl'')
  end.

End RateLimitMore.

Module ConfirmMore.

Import PyStr PyNum Confirm.

(** The members of all clusters, cluster after cluster. *)
Definition all_members (clusters : list ClusterCandidate) : list NewsItem :=
  List.concat (List.map items clusters).

(** The members of a cluster are in order of publication. *)
Definition in_publication_order (c : ClusterCandidate) : Prop :=
  StronglySorted Z.le (List.map published_at (items c)).

(** The state the loop keeps while it walks through the sorted items: every
    cluster has a member, its members are in publication order, none is
    later than the item at hand or than an item still to come. *)
Definition settled (x : NewsItem) (rest : list NewsItem) (c : ClusterCandidate) : Prop :=
  items c <> []
  /\ in_publication_order c
  /\ Forall (fun i => (published_at i <= published_at x)%Z) (items c)
  /\ Forall (fun i => Forall (fun y => (published_at i <= published_at y)%Z) rest) (items c).

(** The labels of [ENTITY_PATTERNS], in the order of the table. *)
Definition entity_labels : list string := List.map fst ENTITY_PATTERNS.

End ConfirmMore.

Module NormalizationMore.

Import PyStr.

(** Whitespace is collapsed: every whitespace character is a single space
    with no whitespace before it; [in_run] tells that the text before ends
    in whitespace. *)
Fixpoint collapsed (in_run : bool) (s : string) : bool :=
  match s with
  | EmptyString => true
  | String c r =>
      if is_space c then Ascii.eqb c " " && negb in_run && collapsed true r
      else collapsed false r
  end.

(** The first [>] of [s], if any, is its first character. *)
Definition closes_at_once (s : string) : bool :=
  match find_char ">" s with Some (S _) => false | _ => true end.

(** No markup tag is left: a [<] is followed at once by [>], or by no [>]
    at all. *)
Fixpoint tag_free (s : string) : bool :=
  match s with
  | EmptyString => true
  | String c r => (if Ascii.eqb c "<" then closes_at_once r else true) && tag_free r
  end.

(** The first and the last character are not whitespace. *)
Definition trimmed (s : string) : Prop :=
  lstrip_by is_space s = s /\ rstrip_by is_space s = s.

(** A lower-case hexadecimal digit. *)
Definition is_hex_lower (c : ascii) : bool :=
  is_digit c || ((97 <=? code c) && (code c <=? 102))%N.

(** The steps of [Urllib.urlsplit], named: the scheme and what follows it,
    and the split of what follows the network location. *)
Definition split_scheme (url2 : string) : string * string :=
  match find_char ":" url2 with
  | Some (S i) =>
      if match url2 with String c _ => is_alpha c | EmptyString => false end
         && Urllib.all_chars Urllib.is_scheme_char (take (S i) url2)
      then (lower (take (S i) url2), drop (S (S i)) url2)
      else (EmptyString, url2)
  | _ => (EmptyString, url2)
  end.

Definition after_netloc (sch nl url4 : string) : option Urllib.SplitResult :=
  let '(url5, frag) :=
    match split_first "#" url4 with
    | Some (a, b) => (a, b)
    | None => (url4, EmptyString)
    end in
  let '(url6, qry) :=
    match split_first "?" url5 with
    | Some (a, b) => (a, b)
    | None => (url5, EmptyString)
    end in
  Some (Urllib.mkSplit sch nl url6 qry frag).

(** The text [urlsplit] parses once leading controls, tabs and line breaks
    are gone. *)
Definition cleaned_url (url0 : string) : string :=
  remove_char "010" (remove_char "013" (remove_char "009"
    (lstrip_by Urllib.is_c0_or_space url0))).

(** [r] with another fragment. *)
Definition with_fragment (frag : string) (r : Urllib.SplitResult) : Urllib.SplitResult :=
  Urllib.mkSplit (Urllib.s_scheme r) (Urllib.s_netloc r) (Urllib.s_path r)
                 (Urllib.s_query r) frag.

End NormalizationMore.

Module NewsFetchSpec.

Import PyStr Confirm NewsFetch.

(** The content [fetch_news] hands to the index: [item.content_text or str()]. *)
Definition content_of (item : NewsItem) : string :=
  or_else (default EmptyString (content_text item)) EmptyString.

(** What the index remembers of an item. *)
Definition content_key (item : NewsItem) : string :=
  Normalization.deterministic_hash
    [take 5000 (content_of item); Normalization.normalize_title (title item)].

Section Apart.

Variable bracketed_ok : string -> bool.
Variable token_set_ratio : string -> string -> Q.

(** [y], collected after [x], differs from it in canonical address, in
    content or normalized title, and its title scores below the threshold
    against the title of [x]. *)
Definition told_apart (x y : NewsItem) : Prop :=
  Normalization.canonicalize_url bracketed_ok (url x)
    <> Normalization.canonicalize_url bracketed_ok (url y)
  /\ (take 5000 (content_of x), Normalization.normalize_title (title x))
     <> (take 5000 (content_of y), Normalization.normalize_title (title y))
  /\ (token_set_ratio (Normalization.normalize_title (title y))
                      (Normalization.normalize_title (title x))
      < NearDuplicate.default_threshold)%Q.

(** Every collected item is in the index. *)
Definition remembered (idx : Dedupe.DedupeIndex) (x : NewsItem) : Prop :=
  exists cu,
    Normalization.canonicalize_url bracketed_ok (url x) = Some cu
    /\ is_Some (Dedupe.url_hashes idx !! Normalization.deterministic_hash [cu])
    /\ is_Some (Dedupe.content_hashes idx !! content_key x).

(** What the loop keeps true of its state. *)
Definition gate_ok {S : Type} (st : FetchState S) : Prop :=
  Forall (remembered (f_dedupe st)) (f_collected st)
  /\ ForallOrdPairs told_apart (f_collected st).

End Apart.

(** The items that were built, in the order of the run. *)
Definition built_items (feeds : list (string * list (option (option NewsItem))))
  : list NewsItem :=
  List.concat (List.map (fun feed => omap (fun b => mjoin b) (snd feed)) feeds).

(** A run for the examples: a story, nothing, the same story under an
    address that differs in its fragment, and another story.  The store is
    the list of the sources written for. *)
Definition story (address headline : string) : NewsItem :=
  mkItem "aws-webse" "1" "coindesk" address headline None 0 0 None (Some "en") "1" None.

Definition sample_feeds : list (string * list (option (option NewsItem))) :=
  [ ("coindesk",
     [ Some (Some (story "https://example.com/a" "BTC ETF approved"));
       Some None;
       Some (Some (story "https://example.com/a#comments" "Bitcoin fund gets the nod"));
       Some (Some (story "https://example.com/b" "Exchange hacked")) ]) ].

Definition log_source (store : list string) (source : string) (item : NewsItem)
  : option (list string) :=
  Some (store ++ [source])%list.

End NewsFetchSpec.

Module CleanupMore.

Import PyStr Cleanup.

(** The files of a store without the keys of [gone]. *)
Definition without (gone : list string) (fs : list (string * JsonDict))
  : list (string * JsonDict) :=
  List.filter (fun kv => negb (in_keys (fst kv) gone)) fs.

(** The store of a sweep state is the store [st0] without the keys
    deleted so far. *)
Definition tracks (request : CleanupRequest) (st0 : MemStore) (a : @SweepState MemStore) : Prop :=
  dry_run request = false ->
  store a = mkMem (without (sw_deleted a) (files st0)) (unreadable st0) (undeletable st0).

End CleanupMore.

Module RateLimitRun.

Import RateLimit.
Local Open Scope Q_scope.

(** A call of [allow]: the key and the two clock readings, the one taken
    when a bucket is made and the one taken inside [consume]. *)
Definition call : Type := string * Q * Q.

(** The limiter after the calls, made one after the other. *)
Fixpoint allow_all (calls : list call) (rl : RateLimiter) : RateLimiter :=
  match calls with
  | [] => rl
  | (key, created, now) :: rest => allow_all rest (snd (allow key created now rl))
  end.

(** The clock never goes back: every reading is at least the one before,
    from [last] on. *)
Fixpoint clock_in_order (last : Q) (calls : list call) : Prop :=
  match calls with
  | [] => True
  | (_, created, now) :: rest => last <= created /\ created <= now /\ clock_in_order now rest
  end.

End RateLimitRun.

Module ClusteringSpec.

Import PyStr PyNum Confirm.
Local Open Scope Q_scope.

Section Steps.

Variable token_set_ratio : string -> string -> Q.
Variable window_minutes : Z.
Variable similarity_threshold : Q.

(** [t] is the first-seen time of the cluster: the publication time of one
    of its members, and none of them was published before it. *)
Definition earliest (c : ClusterCandidate) (t : Z) : Prop :=
  In t (List.map published_at (items c))
  /\ Forall (fun u => (t <= u)%Z) (List.map published_at (items c)).

(** The window test: the item was published at most [window_minutes * 60]
    seconds before or after the first-seen time of the cluster (times are
    in microseconds). *)
Definition in_window (item : NewsItem) (c : ClusterCandidate) : Prop :=
  exists t,
    earliest c t /\ (Z.abs (published_at item - t) <= window_minutes * 60 * 1000000)%Z.

(** The similarity of the normalized titles, on the scale 0 to 100. *)
Definition title_similarity (item : NewsItem) (c : ClusterCandidate) : Q :=
  token_set_ratio (Normalization.normalize_title (title item))
                  (Normalization.normalize_title (canonical_title c)).

(** The cluster matches the item: the window test passes and the
    similarity divided by 100 reaches the threshold. *)
Definition matches (item : NewsItem) (c : ClusterCandidate) : Prop :=
  in_window item c /\ similarity_threshold <= title_similarity item c / 100.

(** [c'] is [c] with the item attached: the item is its last member, and
    its similarity to [c] is recorded last. *)
Definition attached (c : ClusterCandidate) (item : NewsItem) (c' : ClusterCandidate) : Prop :=
  items c' = (items c ++ [item])%list
  /\ similarities c' = (similarities c ++ [title_similarity item c])%list.

(** One item is placed: the first cluster, in the order of the list, that
    matches it takes it, and no other cluster changes; when none matches, a
    cluster with the item as sole member and similarity 100 is opened
    behind the others. *)
Inductive placed (clusters : list ClusterCandidate) (item : NewsItem)
  : list ClusterCandidate -> Prop :=
  | placed_first_match (before after : list ClusterCandidate) (c c' : ClusterCandidate) :
      clusters = (before ++ c :: after)%list ->
      Forall (fun d => ~ matches item d) before ->
      matches item c ->
      attached c item c' ->
      placed clusters item (before ++ c' :: after)%list
  | placed_new (c' : ClusterCandidate) :
      Forall (fun d => ~ matches item d) clusters ->
      items c' = [item] ->
      similarities c' = [100] ->
      placed clusters item (clusters ++ [c'])%list.

(** The items are placed one after the other. *)
Inductive placed_all : list NewsItem -> list ClusterCandidate -> list ClusterCandidate -> Prop :=
  | placed_none (clusters : list ClusterCandidate) : placed_all [] clusters clusters
  | placed_next (item : NewsItem) (rest : list NewsItem)
                (clusters clusters' final : list ClusterCandidate) :
      placed clusters item clusters' ->
      placed_all rest clusters' final ->
      placed_all (item :: rest) clusters final.

End Steps.

End ClusteringSpec.

Module ScoreSpec.

Import PyStr Float64 ConfirmFloat.

(** The float nearest to a rational. *)
Definition nearest (q : Q) : float := of_ratio (Qnum q) (Qden q).

(** [r] is [x] rounded to 2 decimals: when [x] is finite, [r] has the value
    of the float nearest to a multiple [k/100] of 0.01 that is at most half
    a hundredth away from the value of [x], the even multiple when two are
    that near; a float that is not finite is kept. *)
Definition rounded_to_2_decimals (x r : float) : Prop :=
  match exact x with
  | Some q =>
      exists k : Z,
        exact r = exact (nearest (k # 100))
        /\ (Qabs (inject_Z k / 100 - q) <= 1 # 200)%Q
        /\ ((Qabs (inject_Z k / 100 - q) == 1 # 200)%Q -> Z.even k = true)
  | None => r = x
  end.

(** The score of the specification, evaluated in binary64 from left to
    right: (similarityScore/100*100)*0.6 + (sourceScore*10)*0.3
    + freshnessScore*0.1. *)
Definition score_formula (similarity_score source_score freshness_score : float) : float :=
  fadd (fadd (fmul (fmul (fdiv similarity_score (of_Z 100)) (of_Z 100)) (of_ratio 6 10))
             (fmul (fmul source_score (of_Z 10)) (of_ratio 3 10)))
       (fmul freshness_score (of_ratio 1 10)).

(** The freshness of the specification for an age in microseconds:
    max(0, 1 - ageMinutes/1440)*100, the minutes being the seconds
    divided by 60. *)
Definition freshness_formula (age : Z) : float :=
  let age_minutes := fdiv (of_ratio age 1000000) (of_Z 60) in
  fmul (py_max zero (fsub (of_Z 1) (fdiv age_minutes (of_Z 1440)))) (of_Z 100).

(** The weight of a source: 0.5 when it is not in the table. *)
Definition source_weight (source : string) : float :=
  dict_get SOURCE_SCORES source (of_ratio 1 2).

(** Items for the examples. *)
Definition dated (source headline : string) (published : Cleanup.Datetime) : NewsItem :=
  mkItem "test" "1" source "https://example.com/a" headline None published (Cleanup.Aware 0)
         None None "abc" None.

(** A similarity measure for the examples: 100.0 for equal titles, 0.0
    for different ones. *)
Definition exact_match (a b : string) : float :=
  if String.eqb a b then of_Z 100 else zero.

(** The publication time of the item carries a timezone. *)
Definition aware (item : NewsItem) : Prop :=
  exists t, published_at item = Cleanup.Aware t.

End ScoreSpec.

(** * Properties *)

(** ** SHA-256 test vectors (FIPS 180-4, appendix B) *)

Example sha_abc :
  Sha256.hexdigest "abc" = "ba7816bf8f01cfea414140de5dae2223b00361a396177a9cb410ff61f20015ad".
Proof. vm_compute. reflexivity. Qed.

Example sha_empty :
  Sha256.hexdigest EmptyString = "e3b0c44298fc1c149afbf4c8996fb92427ae41e4649b934ca495991b7852b855".
Proof. vm_compute. reflexivity. Qed.

Example sha_two_blocks :
  Sha256.hexdigest "abcdbcdecdefdefgefghfghighijhijkijkljklmklmnlmnomnopnopq"
  = "248d6a61d20638b8e5c026930c3e6039a33ce45964ff2167f6ecedd419db06c1".
Proof. vm_compute. reflexivity. Qed.

(** ** Normalizer *)

Module NormalizationProps.

Import PyStr Normalization NormalizationSpec.

Example canonicalize_url_sorts_query (bracketed_ok : string -> bool) :
  canonicalize_url bracketed_ok "HTTP://Example.COM/A/b/?z=1&a=%20x&b=&c#frag"
  = Some "http://example.com/A/b?a=+x&z=1".
Proof. reflexivity. Qed.

Example normalize_title_strips_tags :
  normalize_title "  <b>SEC</b>   sues <i>exchange</i> " = "SEC sues exchange".
Proof. reflexivity. Qed.

(** C4. [canonicalize_url] is not idempotent: a path whose last segment is
    empty hides a [;] from the parameter split of [urlparse]; stripping the
    trailing slash exposes it, and canonicalizing the result a second time
    cuts the path at the [;].  Whatever the host validation. *)
Theorem canonicalize_url_twice_differs (bracketed_ok : string -> bool) :
  canonicalize_url bracketed_ok "http://a/b;x/" = Some "http://a/b;x"
  /\ canonicalize_url bracketed_ok "http://a/b;x" = Some "http://a/b".
Proof. split; reflexivity. Qed.

Lemma strip_empty : strip EmptyString = EmptyString.
Proof. reflexivity. Qed.

Lemma filter_strip_commute (parts : list string) :
  Forall not_blank parts ->
  List.filter nonempty (List.map strip parts) = List.map strip (List.filter nonempty parts).
Proof.
  induction 1 as [|p ps Hp _ IH]; [reflexivity|].
  cbn [List.map List.filter].
  destruct (nonempty p) eqn:E.
  - rewrite (Hp E). cbn [List.map]. now rewrite IH.
  - destruct p; [|discriminate]. rewrite strip_empty. cbn. exact IH.
Qed.

(** The code drops the parts that are empty as given, and trims afterwards. *)
Lemma deterministic_hash_unfold (parts : list string) :
  deterministic_hash parts
  = Sha256.hexdigest (join "|" (List.map strip (List.filter nonempty parts))).
Proof. reflexivity. Qed.

(** C8, as stated, fails: a part made of whitespace only is not dropped, it
    leaves an empty segment and a bar in the digested text. *)
Lemma deterministic_hash_keeps_blank_part :
  joined_parts ["a"; " "] = "a|"
  /\ joined_parts_spec ["a"; " "] = "a"
  /\ deterministic_hash ["a"; " "] <> deterministic_hash_spec ["a"; " "].
Proof. repeat split; vm_compute; congruence. Qed.

(** C8, amended: the hash is the SHA-256 hex digest of the parts that are
    not empty as given, each trimmed, joined with a bar; when no part
    consists of whitespace only, that is the trimmed, non-empty parts joined
    with a bar. *)
Theorem deterministic_hash_trimmed_nonempty (parts : list string) :
  deterministic_hash parts
  = Sha256.hexdigest (join "|" (List.map strip (List.filter nonempty parts)))
  /\ (Forall not_blank parts -> deterministic_hash parts = deterministic_hash_spec parts).
Proof.
  split; [apply deterministic_hash_unfold|].
  intros H. unfold deterministic_hash, deterministic_hash_spec, joined_parts, joined_parts_spec.
  now rewrite (filter_strip_commute parts H).
Qed.

Lemma deterministic_hash_trimmed_nonempty_witness :
  deterministic_hash [" coindesk "; EmptyString; "https://a/b"]
  = deterministic_hash_spec [" coindesk "; EmptyString; "https://a/b"].
Proof.
  apply (proj2 (deterministic_hash_trimmed_nonempty [" coindesk "; EmptyString; "https://a/b"])).
  repeat constructor; unfold not_blank; vm_compute; congruence.
Defined.

End NormalizationProps.

(** ** Dedupe Index *)

Module DedupeProps.

Import PyStr Dedupe.

Section AddProps.

Variable bracketed_ok : string -> bool.

(** C10. A call of [add] that returns [accepted=False] leaves both maps as
    they were, and one of its two keys was already present; a call that
    returns [accepted=True] found neither key and puts each into its map. *)
Theorem add_atomic_on_rejection
    (idx idx' : DedupeIndex) (url content title key : string) (accepted : bool) :
  add bracketed_ok idx url content title = Some (accepted, key, idx') ->
  exists canonical_url,
    Normalization.canonicalize_url bracketed_ok url = Some canonical_url /\
    let url_key := Normalization.deterministic_hash [canonical_url] in
    let content_key :=
      Normalization.deterministic_hash
        [take 5000 content; Normalization.normalize_title title] in
    if accepted
    then url_hashes idx !! url_key = None
         /\ content_hashes idx !! content_key = None
         /\ url_hashes idx' = <[url_key := url_key]> (url_hashes idx)
         /\ content_hashes idx' = <[content_key := content_key]> (content_hashes idx)
    else idx' = idx
         /\ (is_Some (url_hashes idx !! url_key)
             \/ is_Some (content_hashes idx !! content_key)).
Proof.
  unfold add. intros H.
  destruct (Normalization.canonicalize_url bracketed_ok url) as [cu|]; [|discriminate].
  exists cu. split; [reflexivity|]. cbv zeta. revert H.
  generalize (Normalization.deterministic_hash [cu]).
  generalize (Normalization.deterministic_hash
                [take 5000 content; Normalization.normalize_title title]).
  intros ck uk H.
  destruct (url_hashes idx !! uk) as [u|] eqn:Hu.
  - injection H as <- <- <-. split; [reflexivity|]. left. eauto.
  - destruct (content_hashes idx !! ck) as [c|] eqn:Hc.
    + injection H as <- <- <-. split; [reflexivity|]. right. eauto.
    + injection H as <- <- <-. repeat split; reflexivity.
Qed.

(** [add] raises only when [canonicalize_url] does. *)
Lemma add_returns (idx : DedupeIndex) (url content title : string) :
  is_Some (Normalization.canonicalize_url bracketed_ok url) ->
  is_Some (add bracketed_ok idx url content title).
Proof.
  intros [cu Hcu]. unfold add. rewrite Hcu.
  generalize (Normalization.deterministic_hash [cu]).
  generalize (Normalization.deterministic_hash
                [take 5000 content; Normalization.normalize_title title]).
  intros ck uk.
  destruct (url_hashes idx !! uk); [eauto|].
  destruct (content_hashes idx !! ck); eauto.
Qed.

End AddProps.

(** The same address with another body, against an index that holds the
    address already: rejected with the stored key, and the index is
    untouched. *)
Lemma add_atomic_on_rejection_witness :
  let seen := Normalization.deterministic_hash ["https://example.com/a"] in
  let idx := mkIndex {[ seen := seen ]} ∅ in
  exists canonical_url,
    Normalization.canonicalize_url (fun _ => true) "https://Example.com/a/"
    = Some canonical_url
    /\ idx = idx
    /\ (is_Some (url_hashes idx !! Normalization.deterministic_hash [canonical_url])
        \/ is_Some (content_hashes idx !!
                      Normalization.deterministic_hash
                        [take 5000 "Other body"; Normalization.normalize_title "Other title"])).
Proof.
  intros seen idx.
  apply (add_atomic_on_rejection (fun _ => true) idx idx
           "https://Example.com/a/" "Other body" "Other title" seen false).
  vm_compute. reflexivity.
Defined.

End DedupeProps.

(** ** Arithmetic of the idealised floats *)

Module PyNumProps.

Import PyNum.
Local Open Scope Q_scope.

Lemma Qle_bool_false (a b : Q) : Qle_bool a b = false -> b < a.
Proof.
  intros H. apply Qnot_le_lt. intros Hle.
  apply Qle_bool_iff in Hle. congruence.
Qed.

Lemma py_min_le_l (a b : Q) : py_min a b <= a.
Proof.
  unfold py_min. destruct (Qle_bool a b) eqn:E; [lra|].
  apply Qle_bool_false in E. lra.
Qed.

Lemma py_min_glb (a b c : Q) : c <= a -> c <= b -> c <= py_min a b.
Proof. unfold py_min. destruct (Qle_bool a b); auto. Qed.

Lemma max_fold_ge (r : list Q) (x : Q) :
  x <= List.fold_left (fun m y => if Qlt_bool m y then y else m) r x.
Proof.
  revert x. induction r as [|y r IH]; intros x; cbn [List.fold_left]; [lra|].
  unfold Qlt_bool at 2. destruct (Qle_bool y x) eqn:E; cbn [negb].
  - apply IH.
  - apply Qle_bool_false in E.
    eapply Qle_trans; [|apply IH]. lra.
Qed.

Lemma round_half_even_comp (x y : Q) : x == y -> round_half_even x = round_half_even y.
Proof.
  intros H. unfold round_half_even, Qlt_bool.
  rewrite (Qfloor_comp x y H).
  assert (Hd : x - inject_Z (Qfloor y) == y - inject_Z (Qfloor y)) by (rewrite H; reflexivity).
  rewrite (Qleb_comp _ _ (Qeq_refl (1 # 2)) _ _ Hd).
  rewrite (Qleb_comp _ _ Hd _ _ (Qeq_refl (1 # 2))).
  reflexivity.
Qed.

Lemma round2_comp (x y : Q) : x == y -> round2 x = round2 y.
Proof.
  intros H. unfold round2. f_equal. apply round_half_even_comp. now rewrite H.
Qed.

Example round2_half_even : round2 (1 # 8) = (12 # 100) /\ round2 (3 # 8) = (38 # 100).
Proof. split; reflexivity. Qed.

End PyNumProps.

(** ** Rate Limiter *)

Module RateLimitProps.

Import PyNum PyNumProps RateLimit RateLimitSpec.
Local Open Scope Q_scope.

(** One refill-then-consume step of [allow] keeps the invariant when the
    refill rate and the elapsed time are not negative. *)
Lemma consume_within_capacity (now : Q) (b : TokenBucket) :
  within_capacity b -> 0 <= refill_rate b -> updated_at b <= now ->
  within_capacity (snd (consume now 1 b)).
Proof.
  intros [Hlo Hhi] Hrate Hnow. unfold consume, within_capacity.
  set (refilled := py_min (capacity b) (tokens b + (now - updated_at b) * refill_rate b)).
  assert (Hcap : refilled <= capacity b) by apply py_min_le_l.
  assert (Hpos : 0 <= refilled).
  { apply py_min_glb; [lra|].
    assert (0 <= (now - updated_at b) * refill_rate b) by (apply Qmult_le_0_compat; lra).
    lra. }
  destruct (Qle_bool 1 refilled) eqn:E; cbn.
  - apply Qle_bool_iff in E. lra.
  - lra.
Qed.

Lemma consume_static (now amount : Q) (b : TokenBucket) :
  capacity (snd (consume now amount b)) = capacity b
  /\ refill_rate (snd (consume now amount b)) = refill_rate b
  /\ updated_at (snd (consume now amount b)) = now.
Proof. unfold consume. destruct (Qle_bool _ _); cbn; auto. Qed.

Lemma allow_unfold (key : string) (created now : Q) (rl : RateLimiter) :
  allow key created now rl
  = (fst (consume now 1 (bucket_for key created rl)),
     mkLimiter (qps rl) (burst rl)
       (<[key := snd (consume now 1 (bucket_for key created rl))]> (_buckets rl))).
Proof.
  unfold allow, bucket_for.
  destruct (_buckets rl !! key); destruct (consume now 1 _); reflexivity.
Qed.

Lemma bucket_for_fresh (key : string) (created q b : Q) :
  bucket_for key created (new_limiter q b) = mkBucket b b q created.
Proof. unfold bucket_for, new_limiter. cbn [_buckets burst qps]. now rewrite lookup_empty. Qed.

Lemma bucket_for_stored (key : string) (created q b : Q) (x : TokenBucket)
    (m : gmap string TokenBucket) :
  bucket_for key created (mkLimiter q b (<[key := x]> m)) = x.
Proof. unfold bucket_for. cbn [_buckets]. now rewrite lookup_insert_eq. Qed.

(** C5. With capacity 1.0 and refill 0.5 per second, the first call for a
    key is allowed (the bucket is made at [c1] and consumed at [t1], not
    earlier), a second call less than 2 seconds after it is denied, and a
    call at least 2 seconds after the allowed one is allowed again; this
    covers a call 2 seconds or more after the denied one.  [c2] and [c3]
    are the clock readings that [allow] does not take, the bucket being
    there. *)
Theorem fresh_bucket_allow_deny_allow (key : string) (c1 t1 c2 t2 c3 t3 : Q) :
  c1 <= t1 -> t1 <= t2 -> t2 < t1 + 2 -> t1 + 2 <= t3 ->
  let first := allow key c1 t1 (new_limiter (1 # 2) 1) in
  let second := allow key c2 t2 (snd first) in
  let third := allow key c3 t3 (snd second) in
  fst first = true /\ fst second = false /\ fst third = true.
Proof.
  intros H01 H12 H2 H3. cbv zeta.
  rewrite !allow_unfold. cbn [fst snd].
  rewrite !bucket_for_stored, bucket_for_fresh.
  set (b0 := mkBucket 1 1 (1 # 2) c1).
  assert (E1 : consume t1 1 b0 = (true, mkBucket 1 (py_min 1 (1 + (t1 - c1) * (1 # 2)) - 1) (1 # 2) t1)).
  { unfold consume, b0. cbn [capacity tokens refill_rate updated_at].
    replace (Qle_bool 1 (py_min 1 (1 + (t1 - c1) * (1 # 2)))) with true; [reflexivity|].
    symmetry. apply Qle_bool_iff. apply py_min_glb; lra. }
  rewrite E1. cbn [fst snd].
  set (k1 := py_min 1 (1 + (t1 - c1) * (1 # 2)) - 1).
  assert (Hk1 : k1 == 0).
  { unfold k1, py_min. destruct (Qle_bool 1 _) eqn:E; [lra|].
    apply Qle_bool_false in E. lra. }
  set (r2 := py_min 1 (k1 + (t2 - t1) * (1 # 2))).
  assert (Hr2 : r2 == (t2 - t1) * (1 # 2)).
  { unfold r2, py_min. destruct (Qle_bool 1 _) eqn:E; [|lra].
    apply Qle_bool_iff in E. lra. }
  assert (E2 : consume t2 1 (mkBucket 1 k1 (1 # 2) t1) = (false, mkBucket 1 r2 (1 # 2) t2)).
  { unfold consume. cbn [capacity tokens refill_rate updated_at]. fold r2.
    replace (Qle_bool 1 r2) with false; [reflexivity|].
    symmetry. apply not_true_is_false. intros E. apply Qle_bool_iff in E. lra. }
  rewrite E2. cbn [fst snd].
  repeat split.
  unfold consume. cbn [capacity tokens refill_rate updated_at].
  replace (Qle_bool 1 (py_min 1 (r2 + (t3 - t2) * (1 # 2)))) with true; [reflexivity|].
  symmetry. apply Qle_bool_iff. apply py_min_glb; lra.
Qed.

Lemma fresh_bucket_allow_deny_allow_witness :
  let first := allow "example.com" 0 0 default_limiter in
  let second := allow "example.com" (1 # 10) (1 # 10) (snd first) in
  let third := allow "example.com" (21 # 10) (21 # 10) (snd second) in
  fst first = true /\ fst second = false /\ fst third = true.
Proof.
  apply (fresh_bucket_allow_deny_allow "example.com" 0 0 (1 # 10) (1 # 10) (21 # 10) (21 # 10));
    vm_compute; congruence.
Defined.

End RateLimitProps.

(** ** Clustering Engine *)

Module ConfirmProps.

Import PyStr PyNum Confirm ConfirmSpec.
Local Open Scope Q_scope.

(** *** Sentiment hint *)

Lemma sentiment_fold (items : list NewsItem) (z : Z) :
  List.fold_left sentiment_step items z
  = (z + titles_hit positive_keywords items - titles_hit negative_keywords items)%Z.
Proof.
  revert z. induction items as [|item items IH]; intros z.
  - unfold titles_hit. cbn. lia.
  - cbn [List.fold_left]. rewrite IH. unfold titles_hit, sentiment_step.
    cbn [List.filter].
    destruct (any_in positive_keywords (lower (title item)));
      destruct (any_in negative_keywords (lower (title item)));
      cbn [List.length]; lia.
Qed.

(** C7, as stated, fails: a title with two positive keywords moves the
    counter of the code by one, not by two. *)
Lemma sentiment_counts_titles_not_keywords :
  _sentiment_hint [report "coindesk" "Token launch sees surge" 0] = None
  /\ _sentiment_hint_spec [report "coindesk" "Token launch sees surge" 0] = Some "positive".
Proof. split; vm_compute; reflexivity. Qed.

(** C7, amended: the counter goes up by one for every member whose
    lower-cased title contains at least one positive keyword and down by one
    for every member whose title contains at least one negative keyword;
    the hint is positive above 1, negative below -1, absent otherwise. *)
Theorem sentiment_hint_counts_titles (items : list NewsItem) :
  _sentiment_hint items
  = let counter :=
      (titles_hit positive_keywords items - titles_hit negative_keywords items)%Z in
    if (1 <? counter)%Z then Some "positive"
    else if (counter <? -1)%Z then Some "negative"
    else None.
Proof.
  unfold _sentiment_hint. rewrite sentiment_fold. cbv zeta.
  replace (0 + titles_hit positive_keywords items - titles_hit negative_keywords items)%Z
    with (titles_hit positive_keywords items - titles_hit negative_keywords items)%Z by lia.
  reflexivity.
Qed.

(** *** Placement of an item *)

Lemma first_seen_nonempty (c : ClusterCandidate) :
  items c <> [] -> is_Some (first_seen c).
Proof. unfold first_seen. destruct (items c); [congruence|]. cbn. eauto. Qed.

Lemma last_seen_nonempty (c : ClusterCandidate) :
  items c <> [] -> is_Some (last_seen c).
Proof. unfold last_seen. destruct (items c); [congruence|]. cbn. eauto. Qed.

Lemma add_to_new (item : NewsItem) :
  add (mkCandidate (title item) [] []) item 100 = opened item.
Proof. reflexivity. Qed.

Lemma add_nonempty (c : ClusterCandidate) (item : NewsItem) (q : Q) :
  items (add c item q) <> [].
Proof. unfold add. cbn [items]. destruct (items c); discriminate. Qed.

Section ClusteringProps.

Variable token_set_ratio : string -> string -> Q.
Variable window_minutes : Z.
Variable similarity_threshold : Q.

Local Abbreviation similarity := (ConfirmSpec.similarity token_set_ratio).
Local Abbreviation accepts :=
  (ConfirmSpec.accepts token_set_ratio window_minutes similarity_threshold).
Local Abbreviation place_item_spec :=
  (ConfirmSpec.place_item_spec token_set_ratio window_minutes similarity_threshold).
Local Abbreviation place_item :=
  (Confirm.place_item token_set_ratio window_minutes similarity_threshold).
Local Abbreviation build_clusters :=
  (Confirm.build_clusters token_set_ratio window_minutes similarity_threshold).

Lemma scan_first_match (item : NewsItem) (clusters : list ClusterCandidate) :
  Forall (fun c => items c <> []) clusters ->
  scan token_set_ratio window_minutes similarity_threshold item
       (Normalization.normalize_title (title item)) clusters
  = Some match list_find (fun c => accepts item c = true) clusters with
         | Some (i, c) => Some (<[i := add c item (similarity item c)]> clusters)
         | None => None
         end.
Proof.
  induction 1 as [|c cs Hc _ IH]; [reflexivity|].
  cbn [scan list_find].
  destruct (first_seen_nonempty c Hc) as [fs Hfs].
  assert (Hacc : accepts item c
                 = Qle_bool (Qabs (total_seconds (published_at item - fs)))
                            (inject_Z (window_minutes * 60))
                   && Qle_bool similarity_threshold (similarity item c / 100)).
  { unfold ConfirmSpec.accepts, within_window. now rewrite Hfs. }
  rewrite Hfs. cbn [mbind option_bind]. rewrite IH. cbn [mbind option_bind].
  fold (similarity item c). unfold Qlt_bool.
  destruct (decide (accepts item c = true)) as [Ha|Ha]; rewrite Hacc in Ha.
  - apply andb_true_iff in Ha as [-> ->]. reflexivity.
  - apply not_true_is_false, andb_false_iff in Ha.
    destruct (Qle_bool (Qabs _) _); cbn [negb].
    + destruct Ha as [Ha| ->]; [discriminate|].
      destruct (list_find _ cs) as [[i x]|]; reflexivity.
    + destruct (list_find _ cs) as [[i x]|]; reflexivity.
Qed.

(** One turn of the outer loop, on clusters that all have a member. *)
Lemma place_item_first_match (item : NewsItem) (clusters : list ClusterCandidate) :
  Forall (fun c => items c <> []) clusters ->
  place_item clusters item = Some (place_item_spec clusters item).
Proof.
  intros H. unfold Confirm.place_item, ConfirmSpec.place_item_spec.
  rewrite (scan_first_match item clusters H). cbn [mbind option_bind].
  destruct (list_find _ clusters) as [[i c]|]; [reflexivity|].
  now rewrite add_to_new.
Qed.

(** What a property of the open clusters needs to survive one item. *)
Lemma place_item_spec_invariant (P : ClusterCandidate -> Prop)
    (item : NewsItem) (clusters : list ClusterCandidate) :
  (forall c, P c -> P (add c item (similarity item c))) ->
  P (opened item) ->
  Forall P clusters -> Forall P (place_item_spec clusters item).
Proof.
  intros Hadd Hnew HP. unfold ConfirmSpec.place_item_spec.
  destruct (list_find _ clusters) as [[i c]|] eqn:E.
  - apply list_find_Some in E as (Hi & _ & _).
    apply Forall_insert; [exact HP|]. apply Hadd.
    eapply (proj1 (Forall_lookup _ _) HP); exact Hi.
  - apply Forall_app. split; [exact HP|]. now constructor.
Qed.

Lemma fold_place_item (P : ClusterCandidate -> Prop) (l : list NewsItem) :
  (forall c, P c -> items c <> []) ->
  (forall c item, P c -> P (add c item (similarity item c))) ->
  (forall item, P (opened item)) ->
  forall acc, Forall P acc ->
    List.fold_left (fun acc item => clusters ← acc; place_item clusters item) l (Some acc)
    = Some (List.fold_left place_item_spec l acc)
    /\ Forall P (List.fold_left place_item_spec l acc).
Proof.
  intros Hne Hadd Hnew. induction l as [|item l IH]; intros acc Hacc.
  - split; [reflexivity|exact Hacc].
  - cbn [List.fold_left mbind option_bind].
    rewrite place_item_first_match by (eapply Forall_impl; [exact Hacc|exact Hne]).
    apply IH. apply place_item_spec_invariant; auto.
Qed.

(** *** Finalization *)

Lemma to_schema_fields (origin : string) (now : Z) (c : ClusterCandidate) (nc : NewsCluster) :
  to_schema origin now c = Some nc ->
  c_canonical_title nc = canonical_title c
  /\ links nc = List.map url (items c)
  /\ source_count nc = distinct_sources (items c).
Proof.
  unfold to_schema.
  destruct (freshness_score now c); [|discriminate].
  destruct (List.head (items c)); [|discriminate].
  destruct (first_seen c); [|discriminate].
  destruct (last_seen c); [|discriminate].
  cbn [mbind option_bind]. intros [= <-]. cbn. auto.
Qed.

Lemma to_schema_returns (origin : string) (now : Z) (c : ClusterCandidate) :
  items c <> [] -> is_Some (to_schema origin now c).
Proof.
  intros H. unfold to_schema, freshness_score.
  destruct (first_seen_nonempty c H) as [fs ->].
  destruct (last_seen_nonempty c H) as [ls ->].
  destruct (items c) as [|first rest]; [congruence|].
  cbn [mbind option_bind List.head]. eauto.
Qed.

Lemma finalize_fields (origin : string) (clock : nat -> Z) (clusters : list ClusterCandidate) :
  Forall (fun c => items c <> []) clusters ->
  forall i, exists out,
    finalize origin clock i clusters = Some out
    /\ Forall2 (fun c nc => c_canonical_title nc = canonical_title c
                            /\ links nc = List.map url (items c)
                            /\ source_count nc = distinct_sources (items c))
               clusters out.
Proof.
  induction 1 as [|c cs Hc _ IH]; intros i.
  - exists []. split; [reflexivity|constructor].
  - cbn [finalize].
    destruct (to_schema_returns origin (clock i) c Hc) as [nc Hnc]. rewrite Hnc.
    destruct (IH (S i)) as (out & -> & Hout).
    exists (nc :: out). split; [reflexivity|].
    constructor; [|exact Hout]. now apply (to_schema_fields origin (clock i)).
Qed.

(** *** The representative title *)

Lemma led_by_first_nonempty (c : ClusterCandidate) : led_by_first c -> items c <> [].
Proof. intros (f & r & sims & H & _). rewrite H. discriminate. Qed.

Lemma led_by_first_opened (item : NewsItem) : led_by_first (opened item).
Proof. exists item, [], []. repeat split. Qed.

Lemma led_by_first_add (c : ClusterCandidate) (item : NewsItem) (q : Q) :
  q <= 100 -> led_by_first c -> led_by_first (add c item q).
Proof.
  intros Hq (f & r & sims & Hi & Ht & Hs).
  exists f, (r ++ [item])%list, (sims ++ [q])%list. unfold add.
  cbn [items canonical_title similarities]. rewrite Hi, Hs.
  split; [reflexivity|]. split; [|reflexivity].
  rewrite List.removelast_last. cbn [max_default].
  replace (Qlt_bool _ q) with false; [exact Ht|].
  symmetry. unfold Qlt_bool. apply negb_false_iff, Qle_bool_iff.
  eapply Qle_trans; [exact Hq|]. apply PyNumProps.max_fold_ge.
Qed.

(** C9. When the fuzzy similarity never exceeds 100, [cluster_news] returns,
    and the canonical title of every cluster it returns is the title of the
    first member of the cluster, the item that opened it. *)
Theorem canonical_title_is_first_member
    (news : list NewsItem) (origin : string) (clock : nat -> Z) :
  (forall a b, token_set_ratio a b <= 100) ->
  exists clusters out,
    build_clusters news = Some clusters
    /\ cluster_news token_set_ratio window_minutes similarity_threshold news origin clock
       = Some out
    /\ Forall2 (fun c nc =>
                  exists first rest,
                    items c = first :: rest
                    /\ links nc = List.map url (first :: rest)
                    /\ c_canonical_title nc = title first)
               clusters out.
Proof.
  intros Hle.
  destruct (fold_place_item led_by_first (sorted_by_time news) led_by_first_nonempty)
    with (acc := @nil ClusterCandidate) as (Hb & Hled).
  { intros c item. apply led_by_first_add, Hle. }
  { apply led_by_first_opened. }
  { constructor. }
  set (clusters := List.fold_left place_item_spec (sorted_by_time news) []) in *.
  assert (Hne : Forall (fun c => items c <> []) clusters).
  { eapply Forall_impl; [exact Hled|apply led_by_first_nonempty]. }
  destruct (finalize_fields origin clock clusters Hne 0%nat) as (out & Hf & Hout).
  exists clusters, out. unfold cluster_news, Confirm.build_clusters. rewrite Hb.
  cbn [mbind option_bind].
  split; [reflexivity|]. split; [exact Hf|].
  clear Hb Hf Hne. induction Hout as [|c nc cs ncs (Ht & Hl & _) _ IH]; [constructor|].
  apply Forall_cons in Hled as [(f & r & sims & Hi & Hc & _) Hled].
  constructor; [|now apply IH].
  exists f, r. rewrite Hl, Ht, Hi, Hc. auto.
Qed.

(** *** A single item *)

Lemma distinct_sources_single (item : NewsItem) : distinct_sources [item] = 1%nat.
Proof.
  unfold distinct_sources.
  change (list_to_set (List.map source [item]) : gset string)
    with ({[ source item ]} ∪ (∅ : gset string)).
  rewrite (right_id_L ∅ (∪)). apply size_singleton.
Qed.

Lemma build_clusters_single (item : NewsItem) : build_clusters [item] = Some [opened item].
Proof. reflexivity. Qed.

End ClusteringProps.

Example single_item_score :
  let item := report "coindesk" "Example Title" 0 in
  option_map (List.map score)
    (cluster_news exact_match_ratio 60 (1 # 2) [item] "aws-webse" (fun _ => 43200000000%Z))
  = Some [6800 # 100].
Proof. vm_compute. reflexivity. Qed.

Example two_reports_one_cluster :
  let news := [ report "theblock" "BTC ETF approved by SEC" 180000000;
                report "coindesk" "BTC ETF approved by SEC" 0 ] in
  option_map (List.map (fun nc => (source_count nc, entities nc)))
    (cluster_news exact_match_ratio 180 (1 # 2) news "aws-webse" (fun _ => 200000000%Z))
  = Some [(2%nat, ["BTC"; "ETF"; "SEC"])].
Proof. vm_compute. reflexivity. Qed.

Lemma canonical_title_is_first_member_witness :
  let news := [ report "theblock" "BTC ETF approved" 60000000;
                report "coindesk" "SEC sues exchange" 0;
                report "messari" "BTC ETF approved" 180000000 ] in
  exists clusters out,
    build_clusters exact_match_ratio 180 (1 # 2) news = Some clusters
    /\ cluster_news exact_match_ratio 180 (1 # 2) news "test" (fun _ => 200000000%Z)
       = Some out
    /\ Forall2 (fun c nc =>
                  exists first rest,
                    items c = first :: rest
                    /\ links nc = List.map url (first :: rest)
                    /\ c_canonical_title nc = title first)
               clusters out.
Proof.
  intros news.
  apply (canonical_title_is_first_member exact_match_ratio 180 (1 # 2) news "test"
           (fun _ => 200000000%Z)).
  intros a b. unfold exact_match_ratio. destruct (String.eqb a b); vm_compute; congruence.
Defined.

End ConfirmProps.

(** ** Retention Sweeper *)

Module CleanupProps.

Import PyStr PyNum Cleanup CleanupSpec.

Section SweepProps.

Context {S : Type}.
Variable storage : StorageBackend S.
Variable fromisoformat : string -> option Datetime.
Variable request : CleanupRequest.
Variable now : Z.

Local Abbreviation sweep_key := (Cleanup.sweep_key storage fromisoformat request now).
Local Abbreviation sweep_keys := (Cleanup.sweep_keys storage fromisoformat request now).
Local Abbreviation sweep_prefix := (Cleanup.sweep_prefix storage fromisoformat request now).
Local Abbreviation sweep_prefixes := (Cleanup.sweep_prefixes storage fromisoformat request now).
Local Abbreviation expired := (CleanupSpec.expired fromisoformat now).

Lemma sweep_keys_app (before after : list string) (a : SweepState) :
  sweep_keys (before ++ after) a
  = match sweep_keys before a with
    | Ok a' => sweep_keys after a'
    | Raised behind => Raised behind
    end.
Proof.
  revert a. induction before as [|k ks IH]; intros a; [reflexivity|].
  cbn [app Cleanup.sweep_keys]. destruct (sweep_key a k); [apply IH|reflexivity].
Qed.

Lemma sweep_key_absent (a : SweepState) (key : string) :
  st_get_json storage (store a) key = Ok None -> sweep_key a key = Ok a.
Proof. intros H. unfold Cleanup.sweep_key. now rewrite H. Qed.

Lemma sweep_key_read_raises (a : SweepState) (key : string) (e : unit) :
  st_get_json storage (store a) key = Raised e -> sweep_key a key = Raised (store a).
Proof. intros H. unfold Cleanup.sweep_key. now rewrite H. Qed.

Lemma sweep_key_delete_raises (a : SweepState) (key : string) (record : JsonDict) (behind : S) :
  st_get_json storage (store a) key = Ok (Some record) ->
  expired record ->
  dry_run request = false ->
  st_delete storage (store a) key = Raised behind ->
  sweep_key a key = Raised behind.
Proof.
  intros Hget (value & created & Hne & Hc & Hv & Hp & Hge) Hdry Hdel.
  unfold Cleanup.sweep_key. rewrite Hget.
  destruct record as [|kv record']; [congruence|].
  rewrite Hc. cbn [truthy]. rewrite Hv. cbn [negb].
  rewrite Hp, Hge, Hdry. cbn [negb]. now rewrite Hdel.
Qed.

(** C2, amended: a key whose read gives no record is skipped and the sweep
    goes on; when [get_json] or [delete] raises for a key, the sweep ends
    there with the store as that call left it, the keys behind it are not
    looked at, the prefixes behind it are not listed, and [cleanup] returns
    nothing. *)
Theorem sweep_stops_at_first_raise
    (before after : list string) (key : string) (a a' : SweepState) :
  sweep_keys before a = Ok a' ->
  (st_get_json storage (store a') key = Ok None ->
   sweep_keys (before ++ key :: after) a = sweep_keys after a')
  /\ (forall e, st_get_json storage (store a') key = Raised e ->
      sweep_keys (before ++ key :: after) a = Raised (store a'))
  /\ (forall record behind,
      st_get_json storage (store a') key = Ok (Some record) ->
      expired record -> dry_run request = false ->
      st_delete storage (store a') key = Raised behind ->
      sweep_keys (before ++ key :: after) a = Raised behind)
  /\ (forall prefix prefixes behind,
      sweep_prefix a prefix = Raised behind ->
      sweep_prefixes (prefix :: prefixes) a = Raised behind)
  /\ (forall s behind,
      sweep_prefixes PREFIXES (mkSweep s [] 0) = Raised behind ->
      cleanup storage fromisoformat request now s = Raised behind).
Proof.
  intros Hbefore. rewrite sweep_keys_app, Hbefore. cbn [Cleanup.sweep_keys].
  split; [|split; [|split; [|split]]].
  - intros H. now rewrite (sweep_key_absent a' key H).
  - intros e H. now rewrite (sweep_key_read_raises a' key e H).
  - intros record behind Hget Hexp Hdry Hdel.
    now rewrite (sweep_key_delete_raises a' key record behind Hget Hexp Hdry Hdel).
  - intros prefix prefixes behind H. cbn [Cleanup.sweep_prefixes]. now rewrite H.
  - intros s behind H. unfold cleanup. now rewrite H.
Qed.

End SweepProps.

(** The sweep on a store without faults: both expired records go. *)
Example cleanup_deletes_expired :
  cleanup mem_backend new_year_only (mkRequest false) later (mkMem (files stuck_store) [] [])
  = Ok (mkResponse ["logs/a.json"; "logs/b.json"] 0, mkMem [] [] []).
Proof. vm_compute. reflexivity. Qed.

(** A dry run reports them and leaves them. *)
Example cleanup_dry_run :
  cleanup mem_backend new_year_only (mkRequest true) later stuck_store
  = Ok (mkResponse ["logs/a.json"; "logs/b.json"] 0, stuck_store).
Proof. vm_compute. reflexivity. Qed.

(** C2, as stated, fails: the failure deleting [logs/a.json] ends the sweep;
    [cleanup] returns nothing and [logs/b.json], expired as well, stays. *)
Lemma delete_failure_aborts_sweep :
  cleanup mem_backend new_year_only (mkRequest false) later stuck_store = Raised stuck_store
  /\ lookup_file "logs/b.json" (files stuck_store) = Some old_record
  /\ CleanupSpec.expired new_year_only later old_record.
Proof.
  split; [vm_compute; reflexivity|]. split; [reflexivity|].
  exists "2025-01-01T00:00:00Z", 1735689600000000%Z.
  repeat split; try discriminate; vm_compute; reflexivity.
Qed.

Lemma sweep_stops_at_first_raise_witness :
  Cleanup.sweep_keys mem_backend new_year_only (mkRequest false) later
    ([] ++ "logs/a.json" :: ["logs/b.json"]) (mkSweep stuck_store [] 0)
  = Raised stuck_store.
Proof.
  apply (proj1 (proj2 (proj2
           (sweep_stops_at_first_raise mem_backend new_year_only (mkRequest false) later
              [] ["logs/b.json"] "logs/a.json"
              (mkSweep stuck_store [] 0) (mkSweep stuck_store [] 0)
              eq_refl))) old_record stuck_store).
  - reflexivity.
  - exists "2025-01-01T00:00:00Z", 1735689600000000%Z.
    repeat split; try discriminate; vm_compute; reflexivity.
  - reflexivity.
  - reflexivity.
Defined.

End CleanupProps.

(** ** More on the Dedupe Index *)

Module DedupeLaws.

Import PyStr Dedupe DedupeSpec NearDuplicate.

Section AddLaws.

Variable bracketed_ok : string -> bool.

Local Abbreviation add := (Dedupe.add bracketed_ok).
Local Abbreviation canonicalize_url := (Normalization.canonicalize_url bracketed_ok).

(** The three ways [add] ends, with the hashes named. *)
Lemma add_cases (idx : DedupeIndex) (url content title : string) (cu : string) :
  canonicalize_url url = Some cu ->
  exists uk ck,
    uk = Normalization.deterministic_hash [cu]
    /\ ck = Normalization.deterministic_hash
              [take 5000 content; Normalization.normalize_title title]
    /\ add idx url content title
       = match url_hashes idx !! uk with
         | Some existing => Some (false, existing, idx)
         | None =>
             match content_hashes idx !! ck with
             | Some existing => Some (false, existing, idx)
             | None => Some (true, uk, mkIndex (<[uk := uk]> (url_hashes idx))
                                               (<[ck := ck]> (content_hashes idx)))
             end
         end.
Proof.
  intros Hcu. eexists _, _. split; [reflexivity|]. split; [reflexivity|].
  unfold Dedupe.add. rewrite Hcu. reflexivity.
Qed.

(** X1. Repeating a call: the second one is rejected with the key the first
    one returned, and changes nothing. *)
Theorem add_again_rejected
    (idx idx' : DedupeIndex) (url content title key : string) (accepted : bool) :
  add idx url content title = Some (accepted, key, idx') ->
  add idx' url content title = Some (false, key, idx').
Proof.
  intros H.
  destruct (canonicalize_url url) as [cu|] eqn:Hcu;
    [|unfold Dedupe.add in H; rewrite Hcu in H; discriminate].
  destruct (add_cases idx' url content title cu Hcu) as (uk' & ck' & Huk' & Hck' & E').
  destruct (add_cases idx url content title cu Hcu) as (uk & ck & Huk & Hck & E).
  rewrite E in H. rewrite E'. subst uk' ck'. rewrite <- Huk, <- Hck.
  clear E' E Huk Hck Hcu.
  destruct (url_hashes idx !! uk) as [v|] eqn:Hu.
  - injection H as <- <- <-. now rewrite Hu.
  - destruct (content_hashes idx !! ck) as [v|] eqn:Hc.
    + injection H as <- <- <-. now rewrite Hu, Hc.
    + injection H as <- <- <-. cbn [url_hashes]. now rewrite lookup_insert_eq.
Qed.

(** X2. After an accepted call, every address with the same canonical form is
    rejected with the same key, whatever its content and title. *)
Theorem add_same_address_rejected
    (idx idx' : DedupeIndex) (url content title key url2 content2 title2 : string) :
  add idx url content title = Some (true, key, idx') ->
  canonicalize_url url2 = canonicalize_url url ->
  add idx' url2 content2 title2 = Some (false, key, idx').
Proof.
  intros H Hsame.
  destruct (canonicalize_url url) as [cu|] eqn:Hcu;
    [|unfold Dedupe.add in H; rewrite Hcu in H; discriminate].
  destruct (add_cases idx' url2 content2 title2 cu Hsame) as (uk' & ck' & Huk' & _ & E').
  destruct (add_cases idx url content title cu Hcu) as (uk & ck & Huk & _ & E).
  rewrite E in H. rewrite E'. subst uk'. rewrite <- Huk.
  clear E' E Huk Hcu Hsame.
  destruct (url_hashes idx !! uk) as [v|]; [discriminate|].
  destruct (content_hashes idx !! ck) as [v|]; [discriminate|].
  injection H as <- <-. cbn [url_hashes]. now rewrite lookup_insert_eq.
Qed.

(** X3. After an accepted call, an item with the same first 5000 characters of
    content and the same normalized title is rejected at whatever address
    it comes from. *)
Theorem add_same_content_rejected
    (idx idx' : DedupeIndex) (url content title key url2 content2 title2 : string) :
  add idx url content title = Some (true, key, idx') ->
  is_Some (canonicalize_url url2) ->
  take 5000 content2 = take 5000 content ->
  Normalization.normalize_title title2 = Normalization.normalize_title title ->
  exists key2, add idx' url2 content2 title2 = Some (false, key2, idx').
Proof.
  intros H [cu2 Hcu2] Hc Ht.
  destruct (canonicalize_url url) as [cu|] eqn:Hcu;
    [|unfold Dedupe.add in H; rewrite Hcu in H; discriminate].
  destruct (add_cases idx' url2 content2 title2 cu2 Hcu2) as (uk' & ck' & _ & Hck' & E').
  destruct (add_cases idx url content title cu Hcu) as (uk & ck & _ & Hck & E).
  rewrite E in H. rewrite E'. rewrite Hc, Ht, <- Hck in Hck'. subst ck'.
  clear E' E Hck Hcu Hcu2.
  destruct (url_hashes idx !! uk) as [v|]; [discriminate|].
  destruct (content_hashes idx !! ck) as [v|]; [discriminate|].
  injection H as <- <-. cbn [url_hashes content_hashes].
  destruct (<[uk:=uk]> (url_hashes idx) !! uk'); [eauto|].
  rewrite lookup_insert_eq. eauto.
Qed.

(** X4. [add] never removes or changes an entry; on an index whose maps are
    set-like it keeps them so, and the key it returns is an entry of the
    index afterwards. *)
Theorem add_extends_index
    (idx idx' : DedupeIndex) (url content title key : string) (accepted : bool) :
  add idx url content title = Some (accepted, key, idx') ->
  extends idx idx'
  /\ (set_like idx ->
      set_like idx'
      /\ (url_hashes idx' !! key = Some key \/ content_hashes idx' !! key = Some key)).
Proof.
  intros H.
  destruct (canonicalize_url url) as [cu|] eqn:Hcu;
    [|unfold Dedupe.add in H; rewrite Hcu in H; discriminate].
  destruct (add_cases idx url content title cu Hcu) as (uk & ck & _ & _ & E).
  rewrite E in H. clear E Hcu.
  destruct (url_hashes idx !! uk) as [v|] eqn:Hu.
  { injection H as <- <- <-. split; [split; auto|]. intros Hs. split; [exact Hs|].
    left. destruct Hs as [Hs _]. pose proof (Hs _ _ Hu) as ->. exact Hu. }
  destruct (content_hashes idx !! ck) as [v|] eqn:Hc.
  { injection H as <- <- <-. split; [split; auto|]. intros Hs. split; [exact Hs|].
    right. destruct Hs as [_ Hs]. pose proof (Hs _ _ Hc) as ->. exact Hc. }
  injection H as <- <- <-. cbn [url_hashes content_hashes].
  split.
  - split; intros h v Hh; cbn [url_hashes content_hashes].
    + rewrite lookup_insert_ne; [exact Hh|]. intros <-. congruence.
    + rewrite lookup_insert_ne; [exact Hh|]. intros <-. congruence.
  - intros [Hs1 Hs2]. split; [|left; apply lookup_insert_eq].
    split; intros h v; cbn [url_hashes content_hashes];
      rewrite lookup_insert; case_decide; intros Hh.
    + congruence.
    + now apply Hs1.
    + congruence.
    + now apply Hs2.
Qed.

End AddLaws.

Lemma add_again_rejected_witness :
  add (fun _ => true) sample_index "https://Example.com/a/" "Body" "Sample"
  = Some (false, sample_url_key, sample_index).
Proof.
  apply (add_again_rejected (fun _ => true) empty_index sample_index
           "https://Example.com/a/" "Body" "Sample" sample_url_key true).
  vm_compute. reflexivity.
Defined.

Lemma add_same_address_rejected_witness :
  add (fun _ => true) sample_index "https://example.com/a#comments" "Other" "Other title"
  = Some (false, sample_url_key, sample_index).
Proof.
  apply (add_same_address_rejected (fun _ => true) empty_index sample_index
           "https://Example.com/a/" "Body" "Sample" sample_url_key).
  - vm_compute. reflexivity.
  - reflexivity.
Defined.

Lemma add_same_content_rejected_witness :
  exists key2,
    add (fun _ => true) sample_index "https://mirror.example.org/copy" "Body" " <b>Sample</b> "
    = Some (false, key2, sample_index).
Proof.
  apply (add_same_content_rejected (fun _ => true) empty_index sample_index
           "https://Example.com/a/" "Body" "Sample" sample_url_key).
  - vm_compute. reflexivity.
  - vm_compute. eauto.
  - reflexivity.
  - reflexivity.
Defined.

Lemma add_extends_index_witness :
  extends empty_index sample_index
  /\ (set_like empty_index ->
      set_like sample_index
      /\ (url_hashes sample_index !! sample_url_key = Some sample_url_key
          \/ content_hashes sample_index !! sample_url_key = Some sample_url_key)).
Proof.
  apply (add_extends_index (fun _ => true) empty_index sample_index
           "https://Example.com/a/" "Body" "Sample" sample_url_key true).
  vm_compute. reflexivity.
Defined.

Section NearDuplicateLaws.

Variable token_set_ratio : string -> string -> Q.

(** X5. [near_duplicate] says yes exactly when some title of the list scores
    at least the threshold against the candidate, both normalized; on an
    empty list it says no. *)
Theorem near_duplicate_iff (title : string) (existing_titles : list string) (threshold : Q) :
  near_duplicate token_set_ratio title existing_titles threshold = true
  <-> exists other,
        In other existing_titles
        /\ (threshold <= token_set_ratio (Normalization.normalize_title title)
                                         (Normalization.normalize_title other))%Q.
Proof.
  induction existing_titles as [|o r IH]; cbn [near_duplicate].
  - split; [discriminate|]. intros (x & [] & _).
  - destruct (Qle_bool threshold _) eqn:E.
    + split; [|reflexivity]. intros _. exists o. split; [now left|].
      now apply Qle_bool_iff.
    + rewrite IH. split.
      * intros (x & Hx & Hle). exists x. split; [now right|exact Hle].
      * intros (x & [<-|Hx] & Hle).
        -- apply Qle_bool_iff in Hle. congruence.
        -- exists x. auto.
Qed.

End NearDuplicateLaws.

End DedupeLaws.

(** ** More on the Rate Limiter *)

Module RateLimitLaws.

Import PyNum PyNumProps RateLimit RateLimitSpec RateLimitMore.
Local Open Scope Q_scope.

Lemma py_min_le_r (a b : Q) : py_min a b <= b.
Proof.
  unfold py_min. destruct (Qle_bool a b) eqn:E; [|lra].
  now apply Qle_bool_iff in E.
Qed.

(** A bucket that holds less than one token after its refill denies. *)
Lemma consume_denied (now : Q) (b : TokenBucket) (bound : Q) :
  tokens b <= bound + (updated_at b) * refill_rate b ->
  bound + now * refill_rate b < 1 ->
  fst (consume now 1 b) = false
  /\ tokens (snd (consume now 1 b)) <= bound + now * refill_rate b.
Proof.
  intros Htok Hlt. unfold consume.
  set (refilled := py_min (capacity b) (tokens b + (now - updated_at b) * refill_rate b)).
  assert (Hr : refilled <= bound + now * refill_rate b).
  { eapply Qle_trans; [apply py_min_le_r|]. lra. }
  destruct (Qle_bool 1 refilled) eqn:E.
  - apply Qle_bool_iff in E. lra.
  - cbn. split; [reflexivity|exact Hr].
Qed.

Lemma allow_each_denied (key : string) (bound rate : Q) (times : list Q) :
  Forall (fun t => bound + t * rate < 1) times ->
  forall rl bk,
    _buckets rl !! key = Some bk ->
    refill_rate bk = rate ->
    tokens bk <= bound + updated_at bk * rate ->
    Forall (fun ok => ok = false) (fst (allow_each key times rl)).
Proof.
  induction 1 as [|t r Ht _ IH]; intros rl bk Hk Hrate Htok; [constructor|].
  cbn [allow_each]. rewrite RateLimitProps.allow_unfold.
  unfold bucket_for. rewrite Hk.
  destruct (allow_each key r _) as [oks rl''] eqn:E. cbn [fst].
  subst rate. destruct (consume_denied t bk bound Htok Ht) as [Hden Htok'].
  constructor; [exact Hden|].
  change oks with (fst (oks, rl'')). rewrite <- E.
  apply (IH _ (snd (consume t 1 bk))).
  - cbn [_buckets]. apply lookup_insert_eq.
  - apply RateLimitProps.consume_static.
  - destruct (RateLimitProps.consume_static t 1 bk) as (_ & _ & ->). exact Htok'.
Qed.

(** X6. Politeness: once a call for a key was allowed at [t1], every further
    call for that key is denied, however many are made, as long as the
    tokens left plus the refill since [t1] stay below one; with the default
    capacity 1.0 and rate 0.5 that is for the next 2 seconds. *)
Theorem no_second_call_too_soon (key : string) (created t1 : Q) (rl : RateLimiter)
    (times : list Q) :
  tokens (bucket_for key created rl) <= capacity (bucket_for key created rl) ->
  fst (allow key created t1 rl) = true ->
  Forall (fun t => capacity (bucket_for key created rl) - 1
                   + (t - t1) * refill_rate (bucket_for key created rl) < 1) times ->
  Forall (fun ok => ok = false) (fst (allow_each key times (snd (allow key created t1 rl)))).
Proof.
  intros Hinv Hok Htimes. rewrite RateLimitProps.allow_unfold in *. cbn [fst snd] in *.
  set (b := bucket_for key created rl) in *.
  set (b1 := snd (consume t1 1 b)).
  destruct (RateLimitProps.consume_static t1 1 b) as (Hcap & Hrate & Hupd).
  fold b1 in Hcap, Hrate, Hupd.
  assert (Htok : tokens b1 <= capacity b - 1).
  { unfold b1, consume in *.
    destruct (Qle_bool 1 _) eqn:E; [|discriminate]. cbn [snd tokens].
    pose proof (py_min_le_l (capacity b) (tokens b + (t1 - updated_at b) * refill_rate b)).
    lra. }
  apply (allow_each_denied key (capacity b - 1 - t1 * refill_rate b) (refill_rate b) times)
    with (bk := b1).
  - eapply Forall_impl; [exact Htimes|]. intros t Ht. cbn beta in *. lra.
  - cbn [_buckets]. apply lookup_insert_eq.
  - exact Hrate.
  - rewrite Hupd. lra.
Qed.

Lemma no_second_call_too_soon_witness :
  Forall (fun ok => ok = false)
    (fst (allow_each "example.com" [1 # 2; 1; 3 # 2; 19 # 10]
            (snd (allow "example.com" 0 0 default_limiter)))).
Proof.
  apply (no_second_call_too_soon "example.com" 0 0 default_limiter [1 # 2; 1; 3 # 2; 19 # 10]).
  - vm_compute. congruence.
  - vm_compute. reflexivity.
  - repeat constructor; vm_compute; reflexivity.
Defined.

(** X7. Hosts do not interfere: calls for two different keys give the same
    answers and the same limiter in either order. *)
Theorem allow_other_key_commutes (k1 k2 : string) (c1 n1 c2 n2 : Q) (rl : RateLimiter) :
  k1 <> k2 ->
  let first := allow k1 c1 n1 rl in
  let then_second := allow k2 c2 n2 (snd first) in
  let second := allow k2 c2 n2 rl in
  let then_first := allow k1 c1 n1 (snd second) in
  fst first = fst then_first
  /\ fst then_second = fst second
  /\ snd then_second = snd then_first.
Proof.
  intros Hne. cbv zeta. rewrite !RateLimitProps.allow_unfold. cbn [fst snd qps burst].
  assert (E1 : bucket_for k1 c1 (mkLimiter (qps rl) (burst rl)
                 (<[k2 := snd (consume n2 1 (bucket_for k2 c2 rl))]> (_buckets rl)))
               = bucket_for k1 c1 rl).
  { unfold bucket_for. cbn [_buckets burst qps]. now rewrite lookup_insert_ne by congruence. }
  assert (E2 : bucket_for k2 c2 (mkLimiter (qps rl) (burst rl)
                 (<[k1 := snd (consume n1 1 (bucket_for k1 c1 rl))]> (_buckets rl)))
               = bucket_for k2 c2 rl).
  { unfold bucket_for. cbn [_buckets burst qps]. now rewrite lookup_insert_ne by congruence. }
  rewrite E1, E2. cbn [_buckets]. repeat split.
  f_equal. apply insert_insert_ne. congruence.
Qed.

Lemma allow_other_key_commutes_witness :
  let first := allow "a.example" 0 0 default_limiter in
  let then_second := allow "b.example" 1 1 (snd first) in
  let second := allow "b.example" 1 1 default_limiter in
  let then_first := allow "a.example" 0 0 (snd second) in
  fst first = fst then_first
  /\ fst then_second = fst second
  /\ snd then_second = snd then_first.
Proof.
  apply (allow_other_key_commutes "a.example" "b.example" 0 0 1 1 default_limiter).
  discriminate.
Defined.

End RateLimitLaws.

(** ** More on the Clustering Engine *)

Module ConfirmLaws.

Import PyStr PyNum PyNumProps Confirm ConfirmSpec ConfirmMore.
Local Open Scope Q_scope.

(** *** The sort *)

Lemma insert_by_time_perm (x : NewsItem) (l : list NewsItem) :
  Permutation (insert_by_time x l) (x :: l).
Proof.
  induction l as [|y r IH]; cbn [insert_by_time]; [reflexivity|].
  destruct (published_at x <=? published_at y)%Z; [reflexivity|].
  rewrite IH. apply perm_swap.
Qed.

Lemma insert_by_time_sorted (x : NewsItem) (l : list NewsItem) :
  StronglySorted Z.le (List.map published_at l) ->
  StronglySorted Z.le (List.map published_at (insert_by_time x l)).
Proof.
  induction l as [|y r IH]; cbn [insert_by_time List.map]; intros Hs.
  - repeat constructor.
  - apply StronglySorted_inv in Hs as [Hr Hy].
    destruct (published_at x <=? published_at y)%Z eqn:E.
    + apply Z.leb_le in E. cbn [List.map]. constructor; [now constructor|].
      constructor; [exact E|]. eapply Forall_impl; [exact Hy|]. intros z Hz. cbn beta in *. lia.
    + apply Z.leb_gt in E. cbn [List.map]. constructor; [now apply IH|].
      rewrite (Permutation_map published_at (insert_by_time_perm x r)).
      cbn [List.map]. constructor; [lia|exact Hy].
Qed.

(** [sorted(items, key=published_at)] is its input in another order, by
    ascending publication time. *)
Lemma sorted_by_time_sorts (news : list NewsItem) :
  Permutation (sorted_by_time news) news
  /\ StronglySorted Z.le (List.map published_at (sorted_by_time news)).
Proof.
  unfold sorted_by_time. induction news as [|x l [IHp IHs]]; cbn [List.fold_right].
  - split; [reflexivity|constructor].
  - split.
    + rewrite insert_by_time_perm. now constructor.
    + now apply insert_by_time_sorted.
Qed.

(** *** What a returned cluster looks like *)

Lemma to_schema_times (origin : string) (now : Z) (c : ClusterCandidate) (nc : NewsCluster) :
  to_schema origin now c = Some nc ->
  first_seen c = Some (c_first_seen nc) /\ last_seen c = Some (c_last_seen nc).
Proof.
  unfold to_schema.
  destruct (freshness_score now c); [|discriminate].
  destruct (List.head (items c)); [|discriminate].
  destruct (first_seen c); [|discriminate].
  destruct (last_seen c); [|discriminate].
  cbn [mbind option_bind]. intros [= <-]. cbn. auto.
Qed.

Lemma finalize_each (origin : string) (clock : nat -> Z) (clusters : list ClusterCandidate) :
  forall i out,
    finalize origin clock i clusters = Some out ->
    Forall2 (fun c nc => exists now, to_schema origin now c = Some nc) clusters out.
Proof.
  induction clusters as [|c cs IH]; intros i out; cbn [finalize].
  - intros [= <-]. constructor.
  - destruct (to_schema origin (clock i) c) as [nc|] eqn:E; [|discriminate].
    cbn [mbind option_bind].
    destruct (finalize origin clock (S i) cs) as [ncs|] eqn:F; [|discriminate].
    cbn [mbind option_bind]. intros [= <-].
    constructor; [eauto|]. now apply (IH (S i)).
Qed.

Lemma fold_min_le (r : list Z) (t : Z) : (List.fold_left Z.min r t <= t)%Z.
Proof.
  revert t. induction r as [|y r IH]; intros t; cbn [List.fold_left]; [lia|].
  specialize (IH (Z.min t y)). lia.
Qed.

Lemma fold_max_ge (r : list Z) (t : Z) : (t <= List.fold_left Z.max r t)%Z.
Proof.
  revert t. induction r as [|y r IH]; intros t; cbn [List.fold_left]; [lia|].
  specialize (IH (Z.max t y)). lia.
Qed.

Lemma distinct_sources_le (l : list NewsItem) : (distinct_sources l <= List.length l)%nat.
Proof.
  unfold distinct_sources. induction l as [|x l IH]; [reflexivity|].
  change (list_to_set (List.map source (x :: l)) : gset string)
    with ({[ source x ]} ∪ (list_to_set (List.map source l) : gset string)).
  rewrite size_union_alt, size_singleton. cbn [List.length].
  assert (Hsub : (list_to_set (List.map source l) ∖ {[ source x ]} : gset string)
                 ⊆ list_to_set (List.map source l)).
  { intros y Hy. now apply elem_of_difference in Hy as [Hy _]. }
  apply subseteq_size in Hsub. lia.
Qed.

Lemma distinct_sources_pos (x : NewsItem) (l : list NewsItem) :
  (1 <= distinct_sources (x :: l))%nat.
Proof.
  unfold distinct_sources.
  change (list_to_set (List.map source (x :: l)) : gset string)
    with ({[ source x ]} ∪ (list_to_set (List.map source l) : gset string)).
  rewrite size_union_alt, size_singleton. lia.
Qed.

Lemma to_schema_empty (origin : string) (now : Z) (c : ClusterCandidate) :
  items c = [] -> to_schema origin now c = None.
Proof. intros H. unfold to_schema, freshness_score, first_seen. now rewrite H. Qed.

(** X9. A returned cluster has one link per member, at least one source and no
    more sources than links, and was first seen no later than last seen. *)
Theorem to_schema_counts (origin : string) (now : Z) (c : ClusterCandidate) (nc : NewsCluster) :
  to_schema origin now c = Some nc ->
  List.length (links nc) = List.length (items c)
  /\ (1 <= source_count nc)%nat
  /\ (source_count nc <= List.length (links nc))%nat
  /\ (c_first_seen nc <= c_last_seen nc)%Z.
Proof.
  intros H.
  destruct (ConfirmProps.to_schema_fields _ _ _ _ H) as (_ & Hl & Hc).
  destruct (to_schema_times _ _ _ _ H) as [Hfs Hls].
  rewrite Hl, Hc, length_map.
  destruct (items c) as [|x l] eqn:E.
  { rewrite (to_schema_empty origin now c E) in H. discriminate. }
  split; [reflexivity|]. split; [apply distinct_sources_pos|].
  split; [apply distinct_sources_le|].
  unfold first_seen in Hfs. unfold last_seen in Hls. rewrite E in Hfs, Hls.
  cbn [List.map] in *. injection Hfs as <-. injection Hls as <-.
  pose proof (fold_min_le (List.map published_at l) (published_at x)).
  pose proof (fold_max_ge (List.map published_at l) (published_at x)). lia.
Qed.

Lemma to_schema_counts_witness :
  let c := add (opened (report "coindesk" "BTC ETF approved" 0))
               (report "coindesk" "BTC ETF approved" 60000000) 100 in
  exists nc,
    to_schema "test" 0 c = Some nc
    /\ List.length (links nc) = List.length (items c)
    /\ (1 <= source_count nc)%nat
    /\ (source_count nc <= List.length (links nc))%nat
    /\ (c_first_seen nc <= c_last_seen nc)%Z.
Proof.
  intros c.
  destruct (to_schema "test" 0 c) as [nc|] eqn:E; [|vm_compute in E; discriminate].
  exists nc. split; [reflexivity|]. exact (to_schema_counts "test" 0%Z c nc E).
Defined.

(** *** Entities *)

Lemma existsb_eqb_absent (x : string) (l : list string) :
  x ∉ l -> List.existsb (String.eqb x) l = false.
Proof.
  induction l as [|y l IH]; intros H; [reflexivity|]. cbn [List.existsb].
  apply not_elem_of_cons in H as [Hne Hl]. rewrite (IH Hl).
  destruct (String.eqb_spec x y); [congruence|reflexivity].
Qed.

Lemma entity_fold (text : string) (pats : list (string * list string)) :
  forall acc,
    NoDup (acc ++ List.map fst pats) ->
    List.fold_left
      (fun entities lp =>
         if pattern_search (snd lp) text && negb (List.existsb (String.eqb (fst lp)) entities)
         then (entities ++ [fst lp])%list else entities)
      pats acc
    = (acc ++ List.map fst (List.filter (fun lp => pattern_search (snd lp) text) pats))%list.
Proof.
  induction pats as [|[l alts] r IH]; intros acc Hnd; cbn [List.fold_left List.filter List.map].
  - now rewrite app_nil_r.
  - cbn [List.map fst snd] in *.
    assert (Hl : l ∉ acc).
    { apply NoDup_app in Hnd as (_ & Hd & _). intros Hin. apply (Hd l Hin). now left. }
    rewrite (existsb_eqb_absent l acc Hl). cbn [negb]. rewrite andb_true_r.
    destruct (pattern_search alts text); cbn [List.map fst].
    + rewrite IH; [now rewrite <- app_assoc|]. now rewrite <- app_assoc.
    + apply IH. rewrite <- Permutation_middle in Hnd. now apply NoDup_cons in Hnd as [_ ?].
Qed.

(** X10. The entities of a cluster are the labels whose pattern occurs in the
    joined titles, in the order of the table, each once. *)
Theorem detect_entities_in_table_order (c : ClusterCandidate) :
  detect_entities c
  = List.map fst
      (List.filter (fun lp => pattern_search (snd lp) (join " " (List.map title (items c))))
                   ENTITY_PATTERNS)
  /\ NoDup (detect_entities c)
  /\ sublist (detect_entities c) entity_labels.
Proof.
  assert (Hnd : NoDup entity_labels).
  { apply (bool_decide_unpack _). vm_compute. exact I. }
  assert (E : detect_entities c
              = List.map fst
                  (List.filter
                     (fun lp => pattern_search (snd lp) (join " " (List.map title (items c))))
                     ENTITY_PATTERNS)).
  { unfold detect_entities. cbv zeta. now rewrite (entity_fold _ ENTITY_PATTERNS []). }
  assert (Hsub : sublist (detect_entities c) entity_labels).
  { rewrite E. unfold entity_labels. generalize ENTITY_PATTERNS. intros pats.
    induction pats as [|lp r IH]; cbn [List.filter List.map]; [constructor|].
    destruct (pattern_search _ _); cbn [List.map]; [now apply sublist_skip|now apply sublist_cons]. }
  split; [exact E|]. split; [|exact Hsub].
  exact (sublist_NoDup _ _ Hnd Hsub).
Qed.

(** *** Freshness *)

(** X11. The freshness score is never negative; it is at most 100 for a cluster
    first seen in the past, 100 for one first seen right now, and 0 from 24
    hours on. *)
Theorem freshness_score_bounds (now fs : Z) (c : ClusterCandidate) :
  first_seen c = Some fs ->
  exists f,
    freshness_score now c = Some f
    /\ 0 <= f
    /\ ((fs <= now)%Z -> f <= 100)
    /\ (now = fs -> f == 100)
    /\ ((fs + 86400000000 <= now)%Z -> f == 0).
Proof.
  intros Hfs. unfold freshness_score. rewrite Hfs. cbn [mbind option_bind].
  eexists. split; [reflexivity|].
  set (age := total_seconds (now - fs)).
  assert (Hpast : (fs <= now)%Z -> 0 <= age).
  { intros H. unfold age, total_seconds, Qle. cbn. lia. }
  assert (Hday : (fs + 86400000000 <= now)%Z -> 86400 <= age).
  { intros H. unfold age, total_seconds, Qle. cbn. lia. }
  assert (Hnow : now = fs -> age == 0).
  { intros ->. unfold age, total_seconds, Qeq. cbn. lia. }
  unfold py_max.
  destruct (Qle_bool (1 - age / 60 / 1440) 0) eqn:E.
  - apply Qle_bool_iff in E. split; [lra|]. split; [lra|]. split; [|lra].
    intros H. specialize (Hnow H).
    assert (1 - age / 60 / 1440 == 1) by (rewrite Hnow; reflexivity). lra.
  - apply Qle_bool_false in E. split; [lra|]. split; [|split].
    + intros H. specialize (Hpast H).
      assert (0 <= age / 60 / 1440) by (apply Qle_shift_div_l; [lra|]; apply Qle_shift_div_l; lra).
      lra.
    + intros H. specialize (Hnow H).
      assert (1 - age / 60 / 1440 == 1) by (rewrite Hnow; reflexivity). lra.
    + intros H. specialize (Hday H).
      assert (1 <= age / 60 / 1440) by (apply Qle_shift_div_l; [lra|]; apply Qle_shift_div_l; lra).
      lra.
Qed.

Lemma freshness_score_bounds_witness :
  let c := opened (report "coindesk" "BTC ETF approved" 0) in
  exists f,
    freshness_score 43200000000 c = Some f
    /\ 0 <= f
    /\ ((0 <= 43200000000)%Z -> f <= 100)
    /\ (43200000000%Z = 0%Z -> f == 100)
    /\ ((0 + 86400000000 <= 43200000000)%Z -> f == 0).
Proof.
  intros c. apply (freshness_score_bounds 43200000000 0 c). reflexivity.
Defined.

(** *** Sentiment *)

Lemma titles_hit_bounds (keywords : list string) (l : list NewsItem) :
  (0 <= titles_hit keywords l <= Z.of_nat (List.length l))%Z.
Proof.
  unfold titles_hit. split; [lia|]. apply inj_le.
  induction l as [|x l IH]; [reflexivity|]. cbn [List.filter List.length].
  destruct (any_in _ _); cbn [List.length]; lia.
Qed.

(** X12. A sentiment hint takes at least two members: a cluster with fewer never
    has one. *)
Theorem sentiment_hint_needs_two (l : list NewsItem) :
  (List.length l < 2)%nat -> _sentiment_hint l = None.
Proof.
  intros H. unfold _sentiment_hint. rewrite ConfirmProps.sentiment_fold.
  pose proof (titles_hit_bounds positive_keywords l).
  pose proof (titles_hit_bounds negative_keywords l).
  destruct (1 <? _)%Z eqn:E1; [apply Z.ltb_lt in E1; lia|].
  destruct (_ <? -1)%Z eqn:E2; [apply Z.ltb_lt in E2; lia|].
  reflexivity.
Qed.

Lemma sentiment_hint_needs_two_witness :
  _sentiment_hint [report "coindesk" "Exchange hack, lawsuit and layoff follow bankrupt fund" 0]
  = None.
Proof.
  apply (sentiment_hint_needs_two
           [report "coindesk" "Exchange hack, lawsuit and layoff follow bankrupt fund" 0]).
  cbn. lia.
Defined.

(** *** Every item lands in one cluster *)

Section Partition.

Variable token_set_ratio : string -> string -> Q.
Variable window_minutes : Z.
Variable similarity_threshold : Q.

Local Abbreviation place_item_spec :=
  (ConfirmSpec.place_item_spec token_set_ratio window_minutes similarity_threshold).
Local Abbreviation build_clusters :=
  (Confirm.build_clusters token_set_ratio window_minutes similarity_threshold).
Local Abbreviation cluster_news :=
  (Confirm.cluster_news token_set_ratio window_minutes similarity_threshold).

(** The loop written as a plain fold. *)
Lemma build_clusters_fold (news : list NewsItem) :
  build_clusters news = Some (List.fold_left place_item_spec (sorted_by_time news) []).
Proof.
  unfold Confirm.build_clusters.
  apply (ConfirmProps.fold_place_item token_set_ratio window_minutes similarity_threshold
           (fun c => items c <> []) (sorted_by_time news)).
  - auto.
  - intros c item _. apply ConfirmProps.add_nonempty.
  - intros item. discriminate.
  - constructor.
Qed.

Lemma all_members_insert (clusters : list ClusterCandidate) (i : nat)
    (c : ClusterCandidate) (item : NewsItem) (q : Q) :
  clusters !! i = Some c ->
  Permutation (all_members (<[i := add c item q]> clusters)) (item :: all_members clusters).
Proof.
  intros Hi. unfold all_members.
  rewrite <- (take_drop_middle clusters i c Hi) at 2.
  rewrite (insert_take_drop clusters i) by (eapply lookup_lt_Some; exact Hi).
  rewrite !List.map_app, !List.concat_app. cbn [List.map List.concat add items].
  rewrite <- !app_assoc. cbn [app].
  rewrite (Permutation_middle (List.concat (List.map items (List.firstn i clusters)))).
  apply Permutation_app_head.
  rewrite <- (Permutation_middle (items c)). cbn [app]. reflexivity.
Qed.

Lemma place_item_spec_members (clusters : list ClusterCandidate) (item : NewsItem) :
  Permutation (all_members (place_item_spec clusters item)) (item :: all_members clusters).
Proof.
  unfold ConfirmSpec.place_item_spec.
  destruct (list_find _ clusters) as [[i c]|] eqn:E.
  - apply list_find_Some in E as (Hi & _ & _). now apply all_members_insert.
  - unfold all_members. rewrite List.map_app, List.concat_app.
    cbn [List.map List.concat opened items app].
    symmetry. apply Permutation_cons_append.
Qed.

Lemma fold_members (l : list NewsItem) (acc : list ClusterCandidate) :
  Permutation (all_members (List.fold_left place_item_spec l acc)) (l ++ all_members acc).
Proof.
  revert acc. induction l as [|x l IH]; intros acc; cbn [List.fold_left app]; [reflexivity|].
  rewrite IH, place_item_spec_members. symmetry. apply Permutation_middle.
Qed.

Lemma place_item_spec_parallel (clusters : list ClusterCandidate) (item : NewsItem) :
  Forall (fun c => List.length (items c) = List.length (similarities c)) clusters ->
  Forall (fun c => List.length (items c) = List.length (similarities c))
         (place_item_spec clusters item).
Proof.
  apply (ConfirmProps.place_item_spec_invariant token_set_ratio window_minutes
           similarity_threshold).
  - intros c H. unfold add. cbn [items similarities]. rewrite !length_app. cbn. lia.
  - reflexivity.
Qed.

(** X13. When the loop of [cluster_news] returns, it has put every input
    item into exactly one cluster: the members of the open clusters, taken
    together, are the input items in another order.  In every cluster the
    recorded similarities are as many as the members. *)
Theorem build_clusters_partitions (news : list NewsItem) (clusters : list ClusterCandidate) :
  build_clusters news = Some clusters ->
  Permutation (all_members clusters) news
  /\ Forall (fun c => List.length (items c) = List.length (similarities c)) clusters.
Proof.
  intros H. rewrite build_clusters_fold in H. injection H as <-. split.
  - rewrite fold_members. unfold all_members. cbn [List.map List.concat].
    rewrite app_nil_r. apply sorted_by_time_sorts.
  - generalize (sorted_by_time news). intros l.
    assert (G : forall acc,
              Forall (fun c => List.length (items c) = List.length (similarities c)) acc ->
              Forall (fun c => List.length (items c) = List.length (similarities c))
                     (List.fold_left place_item_spec l acc)).
    { induction l as [|x l IH]; intros acc Hacc; cbn [List.fold_left]; [exact Hacc|].
      apply IH. now apply place_item_spec_parallel. }
    apply G. constructor.
Qed.

(** *** Publication order inside a cluster *)

Lemma sorted_snoc (l : list Z) (x : Z) :
  StronglySorted Z.le l -> Forall (fun y => (y <= x)%Z) l -> StronglySorted Z.le (l ++ [x]).
Proof.
  induction 1 as [|y r Hr IH Hy]; intros Hx; cbn [app].
  - repeat constructor.
  - apply Forall_cons in Hx as [Hyx Hx]. constructor; [now apply IH|].
    apply Forall_app. split; [exact Hy|]. now repeat constructor.
Qed.

Lemma fold_min_head (r : list Z) (t : Z) :
  Forall (fun y => (t <= y)%Z) r -> List.fold_left Z.min r t = t.
Proof.
  revert t. induction r as [|y r IH]; intros t Ht; cbn [List.fold_left]; [reflexivity|].
  apply Forall_cons in Ht as [Hy Ht]. rewrite Z.min_l by exact Hy. now apply IH.
Qed.

Lemma last_cons_default {A : Type} (l : list A) (a d d' : A) :
  List.last (a :: l) d = List.last (a :: l) d'.
Proof.
  revert a. induction l as [|b l IH]; intros a; [reflexivity|].
  change (List.last (b :: l) d = List.last (b :: l) d'). apply IH.
Qed.

Lemma last_map_published (l : list NewsItem) (d : NewsItem) :
  List.last (List.map published_at l) (published_at d) = published_at (List.last l d).
Proof.
  induction l as [|y r IH]; [reflexivity|].
  destruct r as [|z r']; [reflexivity|].
  change (List.last (List.map published_at (z :: r')) (published_at d)
          = published_at (List.last (z :: r') d)).
  exact IH.
Qed.

Lemma fold_max_last (r : list Z) (t : Z) :
  StronglySorted Z.le (t :: r) -> List.fold_left Z.max r t = List.last r t.
Proof.
  revert t. induction r as [|y r IH]; intros t Hs; cbn [List.fold_left]; [reflexivity|].
  apply StronglySorted_inv in Hs as [Hr Ht].
  apply Forall_cons in Ht as [Hy Ht]. rewrite Z.max_r by exact Hy.
  rewrite (IH y Hr). destruct r as [|z r']; [reflexivity|].
  change (List.last (z :: r') y = List.last (z :: r') t). apply last_cons_default.
Qed.

Lemma settled_add (x : NewsItem) (rest : list NewsItem) (c : ClusterCandidate) (q : Q) :
  Forall (fun y => (published_at x <= published_at y)%Z) rest ->
  settled x rest c -> settled x rest (add c x q).
Proof.
  intros Hx (Hne & Hs & Hle & Hrest). unfold settled, in_publication_order, add.
  cbn [items]. split; [destruct (items c); discriminate|]. split; [|split].
  - rewrite List.map_app. cbn [List.map]. apply sorted_snoc; [exact Hs|].
    apply Forall_map. exact Hle.
  - apply Forall_app. split; [exact Hle|]. repeat constructor. lia.
  - apply Forall_app. split; [exact Hrest|]. now repeat constructor.
Qed.

Lemma settled_opened (x : NewsItem) (rest : list NewsItem) :
  Forall (fun y => (published_at x <= published_at y)%Z) rest ->
  settled x rest (opened x).
Proof.
  intros Hx. unfold settled, in_publication_order, opened. cbn [items List.map].
  split; [discriminate|]. split; [repeat constructor|]. split; repeat constructor; [lia|exact Hx].
Qed.

Lemma le_all_published (t : Z) (l : list NewsItem) :
  Forall (Z.le t) (List.map published_at l) ->
  Forall (fun y => (t <= published_at y)%Z) l.
Proof.
  induction l as [|y l IH]; cbn [List.map]; intros H; [constructor|].
  apply Forall_cons in H as [Hy H]. constructor; auto.
Qed.

Lemma fold_in_publication_order (l : list NewsItem) :
  StronglySorted Z.le (List.map published_at l) ->
  forall acc,
    Forall (fun c => items c <> [] /\ in_publication_order c
                     /\ Forall (fun i => Forall (fun y => (published_at i <= published_at y)%Z) l)
                               (items c)) acc ->
    Forall (fun c => items c <> [] /\ in_publication_order c)
           (List.fold_left place_item_spec l acc).
Proof.
  induction l as [|x l IH]; intros Hs acc Hacc; cbn [List.fold_left].
  - eapply Forall_impl; [exact Hacc|]. intros c (? & ? & _). auto.
  - cbn [List.map] in Hs. apply StronglySorted_inv in Hs as [Hl Hx].
    assert (Hx' : Forall (fun y => (published_at x <= published_at y)%Z) l).
    { now apply le_all_published. }
    apply IH; [exact Hl|].
    assert (Hst : Forall (settled x l) (place_item_spec acc x)).
    { apply (ConfirmProps.place_item_spec_invariant token_set_ratio window_minutes
               similarity_threshold).
      - intros c Hc. now apply settled_add.
      - now apply settled_opened.
      - eapply Forall_impl; [exact Hacc|]. intros c (Hne & Hso & Hb).
        split; [exact Hne|]. split; [exact Hso|]. split.
        + eapply Forall_impl; [exact Hb|]. intros i Hi. now apply Forall_cons in Hi as [? _].
        + eapply Forall_impl; [exact Hb|]. intros i Hi. now apply Forall_cons in Hi as [_ ?]. }
    eapply Forall_impl; [exact Hst|]. intros c (Hne & Hso & _ & Hb). auto.
Qed.

(** X14. When [cluster_news] returns, the members of every cluster are in
    order of publication, so the first-seen time of a returned cluster is
    the publication time of the item that opened it (the anchor of the
    window test), and its last-seen time that of the member attached
    last. *)
Theorem clusters_in_publication_order
    (news : list NewsItem) (origin : string) (clock : nat -> Z)
    (clusters : list ClusterCandidate) (out : list NewsCluster) :
  build_clusters news = Some clusters ->
  cluster_news news origin clock = Some out ->
  Forall2 (fun c nc =>
             in_publication_order c
             /\ exists first rest,
                  items c = first :: rest
                  /\ c_first_seen nc = published_at first
                  /\ c_last_seen nc = published_at (List.last rest first))
          clusters out.
Proof.
  intros Hb Hf.
  unfold Confirm.cluster_news in Hf. fold (build_clusters news) in Hf. rewrite Hb in Hf.
  cbn [mbind option_bind] in Hf.
  rewrite build_clusters_fold in Hb. injection Hb as Hb.
  assert (Hord : Forall (fun c => items c <> [] /\ in_publication_order c) clusters).
  { rewrite <- Hb. apply fold_in_publication_order; [apply sorted_by_time_sorts|constructor]. }
  clear Hb.
  apply finalize_each in Hf.
  induction Hf as [|c nc cs ncs (now & Hnc) _ IH]; [constructor|].
  apply Forall_cons in Hord as [[Hne Hso] Hord].
  constructor; [|now apply IH].
  split; [exact Hso|].
  destruct (to_schema_times _ _ _ _ Hnc) as [Hfs Hls].
  unfold in_publication_order in Hso. unfold first_seen in Hfs. unfold last_seen in Hls.
  destruct (items c) as [|first rest]; [congruence|]. exists first, rest.
  split; [reflexivity|]. cbn [List.map] in *.
  pose proof (StronglySorted_inv Hso) as [_ Hmin].
  rewrite (fold_min_head _ _ Hmin) in Hfs. rewrite (fold_max_last _ _ Hso) in Hls.
  injection Hfs as <-. injection Hls as <-. split; [reflexivity|].
  apply last_map_published.
Qed.

End Partition.

Lemma build_clusters_partitions_witness :
  let news := [ report "theblock" "BTC ETF approved" 60000000;
                report "coindesk" "SEC sues exchange" 0;
                report "messari" "BTC ETF approved" 180000000 ] in
  exists clusters,
    build_clusters exact_match_ratio 180 (1 # 2) news = Some clusters
    /\ Permutation (all_members clusters) news
    /\ Forall (fun c => List.length (items c) = List.length (similarities c)) clusters.
Proof.
  intros news.
  destruct (build_clusters exact_match_ratio 180 (1 # 2) news) as [clusters|] eqn:E;
    [|vm_compute in E; discriminate].
  exists clusters. split; [reflexivity|].
  exact (build_clusters_partitions exact_match_ratio 180 (1 # 2) news clusters E).
Defined.

Lemma clusters_in_publication_order_witness :
  let news := [ report "theblock" "BTC ETF approved" 60000000;
                report "coindesk" "SEC sues exchange" 0;
                report "messari" "BTC ETF approved" 180000000 ] in
  exists clusters out,
    build_clusters exact_match_ratio 180 (1 # 2) news = Some clusters
    /\ cluster_news exact_match_ratio 180 (1 # 2) news "test" (fun _ => 200000000%Z) = Some out
    /\ Forall2 (fun c nc =>
                  in_publication_order c
                  /\ exists first rest,
                       items c = first :: rest
                       /\ c_first_seen nc = published_at first
                       /\ c_last_seen nc = published_at (List.last rest first))
               clusters out.
Proof.
  intros news.
  destruct (build_clusters exact_match_ratio 180 (1 # 2) news) as [clusters|] eqn:E;
    [|vm_compute in E; discriminate].
  destruct (cluster_news exact_match_ratio 180 (1 # 2) news "test" (fun _ => 200000000%Z))
    as [out|] eqn:F; [|vm_compute in F; discriminate].
  exists clusters, out. split; [reflexivity|]. split; [reflexivity|].
  exact (clusters_in_publication_order exact_match_ratio 180 (1 # 2) news "test"
           (fun _ => 200000000%Z) clusters out E F).
Defined.

End ConfirmLaws.

(** ** More on the Retention Sweeper *)

Module CleanupLaws.

Import PyStr PyNum Cleanup CleanupSpec CleanupMore.

Section DryRun.

Context {S : Type}.
Variable storage : StorageBackend S.
Variable fromisoformat : string -> option Datetime.
Variable request : CleanupRequest.
Variable now : Z.

Local Abbreviation sweep_key := (Cleanup.sweep_key storage fromisoformat request now).
Local Abbreviation sweep_keys := (Cleanup.sweep_keys storage fromisoformat request now).
Local Abbreviation sweep_prefix := (Cleanup.sweep_prefix storage fromisoformat request now).
Local Abbreviation sweep_prefixes := (Cleanup.sweep_prefixes storage fromisoformat request now).
Local Abbreviation expired := (CleanupSpec.expired fromisoformat now).

(** What one key can do to the sweep. *)
Lemma sweep_key_cases (a : SweepState) (key : string) :
  match sweep_key a key with
  | Raised behind => dry_run request = true -> behind = store a
  | Ok a' =>
      (dry_run request = true -> store a' = store a)
      /\ (sw_deleted a' = sw_deleted a
          \/ (sw_deleted a' = (sw_deleted a ++ [key])%list
              /\ exists record,
                   st_get_json storage (store a) key = Ok (Some record) /\ expired record))
  end.
Proof.
  unfold Cleanup.sweep_key.
  destruct (st_get_json storage (store a) key) as [[record|]|e] eqn:Hget; [|now auto..].
  destruct record as [|kv record']; [now auto|].
  set (record := kv :: record') in *.
  destruct (truthy (dict_get record "created_at" JNull)) eqn:Ht; cbn [negb]; [|now auto].
  destruct (dict_get record "created_at" JNull) as [| | |value|] eqn:Hc; try now auto.
  destruct (_parse_timestamp fromisoformat value) as [[created|]|] eqn:Hp; try now auto.
  destruct (ge_json _ _) as [[]|] eqn:Hge; try now auto.
  assert (Hex : expired record).
  { exists value, created. repeat split; try assumption. discriminate. }
  destruct (dry_run request) eqn:Hd; cbn [negb].
  - cbn. split; [reflexivity|]. right. split; [reflexivity|]. eauto.
  - destruct (st_delete storage (store a) key); [|discriminate].
    cbn. split; [discriminate|]. right. split; [reflexivity|]. eauto.
Qed.

Lemma sweep_keys_dry (keys : list string) (a : SweepState) :
  dry_run request = true ->
  match sweep_keys keys a with
  | Raised behind => behind = store a
  | Ok a' =>
      store a' = store a
      /\ forall k, In k (sw_deleted a') ->
           In k (sw_deleted a)
           \/ exists record,
                st_get_json storage (store a) k = Ok (Some record) /\ expired record
  end.
Proof.
  intros Hd. revert a. induction keys as [|key keys IH]; intros a; cbn [Cleanup.sweep_keys].
  - auto.
  - pose proof (sweep_key_cases a key) as Hk.
    destruct (sweep_key a key) as [a1|behind]; [|auto].
    destruct Hk as [Hst Hdel]. specialize (Hst Hd). specialize (IH a1).
    destruct (sweep_keys keys a1) as [a2|behind]; [|congruence].
    destruct IH as [Hst2 Hin]. split; [congruence|].
    intros k Hk. destruct (Hin k Hk) as [Hk1|Hk1].
    + destruct Hdel as [E|[E Hex]].
      * left. congruence.
      * rewrite E in Hk1. apply in_app_or in Hk1 as [?|[<-|[]]]; [now left|]. now right.
    + right. now rewrite <- Hst.
Qed.

Lemma sweep_prefixes_dry (prefixes : list string) (a : SweepState) :
  dry_run request = true ->
  match sweep_prefixes prefixes a with
  | Raised behind => behind = store a
  | Ok a' =>
      store a' = store a
      /\ forall k, In k (sw_deleted a') ->
           In k (sw_deleted a)
           \/ exists record,
                st_get_json storage (store a) k = Ok (Some record) /\ expired record
  end.
Proof.
  intros Hd. revert a. induction prefixes as [|p ps IH]; intros a; cbn [Cleanup.sweep_prefixes].
  - auto.
  - unfold Cleanup.sweep_prefix.
    destruct (st_list storage (store a) p 1000) as [keys|e]; [|reflexivity].
    pose proof (sweep_keys_dry keys a Hd) as Hk.
    destruct (sweep_keys keys a) as [a1|behind]; [|exact Hk].
    destruct Hk as [Hst Hin1]. specialize (IH a1).
    destruct (sweep_prefixes ps a1) as [a2|behind]; [|congruence].
    destruct IH as [Hst2 Hin2]. split; [congruence|].
    intros k Hk. destruct (Hin2 k Hk) as [Hk1|Hk1].
    + apply Hin1. exact Hk1.
    + right. now rewrite <- Hst.
Qed.

(** X15. A dry run never changes the store, whether it returns or raises, and
    every key it reports has, in that store, a record that is expired: a
    record without [created_at] is never reported. *)
Theorem dry_run_reports_only_expired (s : S) :
  dry_run request = true ->
  match cleanup storage fromisoformat request now s with
  | Raised behind => behind = s
  | Ok (response, s') =>
      s' = s
      /\ forall k, In k (deleted response) ->
           exists record, st_get_json storage s k = Ok (Some record) /\ expired record
  end.
Proof.
  intros Hd. unfold cleanup.
  pose proof (sweep_prefixes_dry PREFIXES (mkSweep s [] 0) Hd) as H.
  destruct (sweep_prefixes PREFIXES (mkSweep s [] 0)) as [a|behind]; [|exact H].
  destruct H as [Hst Hin]. split; [exact Hst|].
  intros k Hk. destruct (Hin k Hk) as [[]|Hr]. exact Hr.
Qed.

End DryRun.

Lemma dry_run_reports_only_expired_witness :
  match cleanup mem_backend new_year_only (mkRequest true) later stuck_store with
  | Raised behind => behind = stuck_store
  | Ok (response, s') =>
      s' = stuck_store
      /\ forall k, In k (deleted response) ->
           exists record,
             st_get_json mem_backend stuck_store k = Ok (Some record)
             /\ expired new_year_only later record
  end.
Proof.
  apply (dry_run_reports_only_expired mem_backend new_year_only (mkRequest true) later stuck_store).
  reflexivity.
Defined.

(** *** The sweep on the in-memory store *)

Lemma without_nil (fs : list (string * JsonDict)) : without [] fs = fs.
Proof.
  unfold without. induction fs as [|kv fs IH]; [reflexivity|].
  cbn in *. now f_equal.
Qed.

Lemma in_keys_snoc (k key : string) (gone : list string) :
  in_keys k (gone ++ [key]) = in_keys k gone || String.eqb key k.
Proof.
  unfold in_keys. rewrite List.existsb_app. cbn [List.existsb].
  rewrite orb_false_r. now rewrite (String.eqb_sym k key).
Qed.

Lemma without_snoc (gone : list string) (key : string) (fs : list (string * JsonDict)) :
  List.filter (fun kv => negb (String.eqb key (fst kv))) (without gone fs)
  = without (gone ++ [key]) fs.
Proof.
  unfold without. induction fs as [|kv fs IH]; [reflexivity|].
  cbn [List.filter]. rewrite in_keys_snoc, negb_orb.
  destruct (in_keys (fst kv) gone); cbn [negb andb]; [exact IH|].
  cbn [List.filter]. destruct (String.eqb key (fst kv)); cbn [negb]; [exact IH|].
  now rewrite IH.
Qed.

Lemma lookup_without (k : string) (gone : list string) (fs : list (string * JsonDict)) :
  In k gone -> lookup_file k (without gone fs) = None.
Proof.
  intros Hk. unfold without. induction fs as [|[k' v] fs IH]; [reflexivity|].
  cbn [List.filter fst]. destruct (in_keys k' gone) eqn:E; cbn [negb]; [exact IH|].
  cbn [lookup_file]. destruct (String.eqb_spec k k') as [->|_]; [|exact IH].
  exfalso. unfold in_keys in E.
  assert (List.existsb (String.eqb k') gone = true); [|congruence].
  apply List.existsb_exists. exists k'. split; [exact Hk|apply String.eqb_refl].
Qed.

Section MemSweep.

Variable fromisoformat : string -> option Datetime.
Variable request : CleanupRequest.
Variable now : Z.

Local Abbreviation tracks := (CleanupMore.tracks request).

Lemma mem_sweep_key_tracks (st0 : MemStore) (a a' : SweepState) (key : string) :
  tracks st0 a ->
  Cleanup.sweep_key mem_backend fromisoformat request now a key = Ok a' ->
  tracks st0 a'.
Proof.
  intros Ht. unfold Cleanup.sweep_key, tracks in *.
  destruct (st_get_json mem_backend (store a) key) as [[record|]|e]; [| |discriminate].
  2:{ intros [= <-]. exact Ht. }
  destruct record as [|kv record']; [intros [= <-]; exact Ht|].
  set (record := kv :: record') in *.
  destruct (truthy (dict_get record "created_at" JNull)); cbn [negb];
    [|intros [= <-]; exact Ht].
  destruct (dict_get record "created_at" JNull) as [| | |value|]; try discriminate.
  destruct (_parse_timestamp fromisoformat value) as [[created|]|]; try discriminate.
  destruct (ge_json _ _) as [[]|]; try discriminate; [|intros [= <-]; exact Ht].
  destruct (dry_run request) eqn:Hd; cbn [negb]; [intros [= <-]; discriminate|].
  cbn [st_delete mem_backend]. unfold mem_delete.
  destruct (in_keys key (undeletable (store a))); [discriminate|].
  intros [= <-] _. cbn [store sw_deleted]. rewrite (Ht eq_refl).
  cbn [files unreadable undeletable]. now rewrite without_snoc.
Qed.

Lemma mem_sweep_keys_tracks (st0 : MemStore) (keys : list string) :
  forall a a',
    tracks st0 a ->
    Cleanup.sweep_keys mem_backend fromisoformat request now keys a = Ok a' ->
    tracks st0 a'.
Proof.
  induction keys as [|key keys IH]; intros a a' Ht; cbn [Cleanup.sweep_keys].
  - now intros [= <-].
  - destruct (Cleanup.sweep_key mem_backend fromisoformat request now a key) as [a1|] eqn:E;
      [|discriminate].
    apply IH. exact (mem_sweep_key_tracks st0 a a1 key Ht E).
Qed.

Lemma mem_sweep_prefixes_tracks (st0 : MemStore) (prefixes : list string) :
  forall a a',
    tracks st0 a ->
    Cleanup.sweep_prefixes mem_backend fromisoformat request now prefixes a = Ok a' ->
    tracks st0 a'.
Proof.
  induction prefixes as [|p ps IH]; intros a a' Ht; cbn [Cleanup.sweep_prefixes].
  - now intros [= <-].
  - unfold Cleanup.sweep_prefix.
    destruct (st_list mem_backend (store a) p 1000) as [keys|]; [|discriminate].
    destruct (Cleanup.sweep_keys mem_backend fromisoformat request now keys a) as [a1|] eqn:E;
      [|discriminate].
    apply IH. exact (mem_sweep_keys_tracks st0 keys a a1 Ht E).
Qed.

(** X16. A sweep that is no dry run and returns leaves the store it found
    without the keys it reports, and touches nothing else: every reported
    key is gone. *)
Theorem cleanup_removes_what_it_reports (st st' : MemStore) (response : CleanupResponse) :
  dry_run request = false ->
  cleanup mem_backend fromisoformat request now st = Ok (response, st') ->
  st' = mkMem (without (deleted response) (files st)) (unreadable st) (undeletable st)
  /\ forall k, In k (deleted response) -> lookup_file k (files st') = None.
Proof.
  intros Hd. unfold cleanup.
  destruct (Cleanup.sweep_prefixes mem_backend fromisoformat request now PREFIXES
              (mkSweep st [] 0)) as [a|] eqn:E; [|discriminate].
  intros [= <- <-]. cbn [deleted].
  assert (Ht : tracks st a).
  { apply (mem_sweep_prefixes_tracks st PREFIXES (mkSweep st [] 0) a); [|exact E].
    intros _. cbn [store sw_deleted]. rewrite without_nil. now destruct st. }
  specialize (Ht Hd). split; [exact Ht|].
  intros k Hk. rewrite Ht. cbn [files]. now apply lookup_without.
Qed.

End MemSweep.

Lemma cleanup_removes_what_it_reports_witness :
  let st := mkMem (files stuck_store) [] [] in
  mkMem [] [] [] = mkMem (without ["logs/a.json"; "logs/b.json"] (files st)) [] []
  /\ forall k, In k ["logs/a.json"; "logs/b.json"] ->
       lookup_file k (files (mkMem [] [] [])) = None.
Proof.
  intros st.
  apply (cleanup_removes_what_it_reports new_year_only (mkRequest false) later st
           (mkMem [] [] []) (mkResponse ["logs/a.json"; "logs/b.json"] 0)).
  - reflexivity.
  - vm_compute. reflexivity.
Defined.

End CleanupLaws.

(** ** More on the Normalizer *)

Module NormalizationLaws.

Import PyStr Normalization NormalizationMore.

(** *** Whitespace *)

Lemma rstrip_by_cons (p : ascii -> bool) (c : ascii) (r : string) :
  rstrip_by p (String c r)
  = match rstrip_by p r with
    | EmptyString => if p c then EmptyString else String c EmptyString
    | String d r' => String c (String d r')
    end.
Proof. cbn [rstrip_by]. now destruct (rstrip_by p r). Qed.

Lemma rstrip_by_idem (p : ascii -> bool) (s : string) :
  rstrip_by p (rstrip_by p s) = rstrip_by p s.
Proof.
  induction s as [|c r IH]; [reflexivity|]. rewrite rstrip_by_cons.
  destruct (rstrip_by p r) as [|d r'] eqn:E.
  - destruct (p c) eqn:Ec; [reflexivity|]. rewrite rstrip_by_cons. cbn [rstrip_by]. now rewrite Ec.
  - rewrite rstrip_by_cons, IH. reflexivity.
Qed.

Lemma lstrip_by_idem (p : ascii -> bool) (s : string) :
  lstrip_by p (lstrip_by p s) = lstrip_by p s.
Proof.
  induction s as [|c r IH]; [reflexivity|]. cbn [lstrip_by].
  destruct (p c) eqn:Ec; [exact IH|]. cbn [lstrip_by]. now rewrite Ec.
Qed.

(** Stripping on the right keeps a first character that is not stripped. *)
Lemma lstrip_rstrip (p : ascii -> bool) (s : string) :
  lstrip_by p s = s -> lstrip_by p (rstrip_by p s) = rstrip_by p s.
Proof.
  destruct s as [|c r]; [reflexivity|]. cbn [lstrip_by rstrip_by].
  destruct (p c) eqn:Ec.
  - intros H. exfalso.
    assert (Hlen : forall t, String.length (lstrip_by p t) <= String.length t).
    { induction t as [|d t IHt]; cbn [lstrip_by]; [lia|].
      destruct (p d); cbn [String.length]; lia. }
    specialize (Hlen r). rewrite H in Hlen. cbn [String.length] in Hlen. lia.
  - intros _. fold (rstrip_by p r). destruct (rstrip_by p r); cbn [lstrip_by]; now rewrite Ec.
Qed.

Lemma strip_idem (s : string) : strip (strip s) = strip s.
Proof.
  unfold strip.
  rewrite (lstrip_rstrip is_space (lstrip_by is_space s)) by apply lstrip_by_idem.
  apply rstrip_by_idem.
Qed.

Lemma strip_trimmed (s : string) : trimmed (strip s).
Proof.
  unfold trimmed, strip. split.
  - apply lstrip_rstrip, lstrip_by_idem.
  - apply rstrip_by_idem.
Qed.

Lemma collapsed_weaken (s : string) : collapsed true s = true -> collapsed false s = true.
Proof.
  destruct s as [|c r]; [reflexivity|]. cbn [collapsed].
  destruct (is_space c); [|auto]. rewrite andb_false_r. discriminate.
Qed.

Lemma sub_whitespace_collapsed (b : bool) (s : string) :
  collapsed b (sub_whitespace b s) = true.
Proof.
  revert b. induction s as [|c r IH]; intros b; [reflexivity|]. cbn [sub_whitespace].
  destruct (is_space c) eqn:Ec.
  - destruct b; [apply IH|]. cbn [collapsed]. change (is_space " ") with true.
    cbn. apply IH.
  - cbn [collapsed]. rewrite Ec. apply IH.
Qed.

Lemma sub_whitespace_fixed (b : bool) (s : string) :
  collapsed b s = true -> sub_whitespace b s = s.
Proof.
  revert b. induction s as [|c r IH]; intros b; [reflexivity|]. cbn [collapsed sub_whitespace].
  destruct (is_space c) eqn:Ec.
  - intros H. apply andb_true_iff in H as [H Hr]. apply andb_true_iff in H as [Hc Hb].
    apply negb_true_iff in Hb. subst b. apply Ascii.eqb_eq in Hc. subst c.
    now rewrite (IH true Hr).
  - intros H. now rewrite (IH false H).
Qed.

Lemma lstrip_collapsed (b : bool) (s : string) :
  collapsed b s = true -> collapsed false (lstrip_by is_space s) = true.
Proof.
  revert b. induction s as [|c r IH]; intros b; [reflexivity|]. cbn [collapsed lstrip_by].
  destruct (is_space c) eqn:Ec.
  - intros H. apply andb_true_iff in H as [_ Hr]. now apply (IH true).
  - intros H. cbn [collapsed]. now rewrite Ec.
Qed.

Lemma rstrip_collapsed (b : bool) (s : string) :
  collapsed b s = true -> collapsed b (rstrip_by is_space s) = true.
Proof.
  revert b. induction s as [|c r IH]; intros b; [reflexivity|].
  rewrite rstrip_by_cons. cbn [collapsed].
  destruct (is_space c) eqn:Ec.
  - intros H. apply andb_true_iff in H as [H Hr]. specialize (IH true Hr).
    destruct (rstrip_by is_space r) as [|d r'] eqn:E; [reflexivity|].
    cbn [collapsed] in *. rewrite Ec, H. exact IH.
  - intros H. specialize (IH false H).
    destruct (rstrip_by is_space r) as [|d r'] eqn:E.
    + cbn [collapsed]. now rewrite Ec.
    + cbn [collapsed] in *. rewrite Ec. exact IH.
Qed.

Lemma normalize_whitespace_collapsed (value : string) :
  collapsed false (normalize_whitespace value) = true.
Proof.
  unfold normalize_whitespace, strip.
  apply rstrip_collapsed, (lstrip_collapsed false), sub_whitespace_collapsed.
Qed.

Lemma normalize_whitespace_again (value : string) :
  normalize_whitespace (normalize_whitespace value) = normalize_whitespace value.
Proof.
  unfold normalize_whitespace at 1.
  rewrite (sub_whitespace_fixed false _ (normalize_whitespace_collapsed value)).
  unfold normalize_whitespace. apply strip_idem.
Qed.

(** X17. [normalize_whitespace] leaves single spaces only, none at either end,
    and does nothing to a text it has produced. *)
Theorem normalize_whitespace_idempotent (value : string) :
  collapsed false (normalize_whitespace value) = true
  /\ trimmed (normalize_whitespace value)
  /\ normalize_whitespace (normalize_whitespace value) = normalize_whitespace value.
Proof.
  split; [apply normalize_whitespace_collapsed|].
  split; [apply strip_trimmed|apply normalize_whitespace_again].
Qed.

(** *** Markup *)

Lemma find_char_cons (c d : ascii) (r : string) :
  find_char c (String d r)
  = if Ascii.eqb c d then Some 0%nat
    else match find_char c r with Some i => Some (S i) | None => None end.
Proof. reflexivity. Qed.

Lemma find_char_none_cons (c d : ascii) (r : string) :
  find_char c (String d r) = None <-> Ascii.eqb c d = false /\ find_char c r = None.
Proof.
  rewrite find_char_cons. destruct (Ascii.eqb c d); [split; [discriminate|intros [? _]; discriminate]|].
  destruct (find_char c r); split; try discriminate; auto. intros [_ ?]. discriminate.
Qed.

Lemma closes_at_once_cons (d : ascii) (r : string) :
  closes_at_once (String d r) = true
  <-> d = ">"%char \/ (Ascii.eqb ">" d = false /\ find_char ">" r = None).
Proof.
  unfold closes_at_once. rewrite find_char_cons.
  destruct (Ascii.eqb ">" d) eqn:E.
  - apply Ascii.eqb_eq in E. subst d. split; auto.
  - destruct (find_char ">" r); split; try discriminate; auto.
    + intros [->|[_ ?]]; [rewrite Ascii.eqb_refl in E|]; discriminate.
  Qed.

Lemma closes_at_once_none (s : string) : find_char ">" s = None -> closes_at_once s = true.
Proof. unfold closes_at_once. now intros ->. Qed.

Lemma drop_length_le (n : nat) (s : string) : (String.length (drop n s) <= String.length s)%nat.
Proof.
  revert s. induction n as [|n IH]; intros [|c r]; cbn [drop String.length]; try lia.
  specialize (IH r). lia.
Qed.

Lemma strip_html_no_close (n : nat) (s : string) :
  find_char ">" s = None -> strip_html_fuel n s = s.
Proof.
  revert s. induction n as [|n IH]; intros [|c r] H; try reflexivity.
  apply find_char_none_cons in H as [Hc Hr]. cbn [strip_html_fuel].
  rewrite Hr, (IH r Hr). now destruct (Ascii.eqb c "<").
Qed.

Lemma strip_html_closes_at_once (n : nat) (s : string) :
  closes_at_once s = true -> closes_at_once (strip_html_fuel n s) = true.
Proof.
  destruct s as [|c r]; [now destruct n|]. intros H.
  apply closes_at_once_cons in H as [->|[Hc Hr]].
  - destruct n; reflexivity.
  - rewrite strip_html_no_close; [|now apply find_char_none_cons].
    apply closes_at_once_cons. now right.
Qed.

Lemma tag_free_fixed (n : nat) (s : string) :
  tag_free s = true -> strip_html_fuel n s = s.
Proof.
  revert s. induction n as [|n IH]; intros [|c r] H; try reflexivity.
  cbn [tag_free] in H. apply andb_true_iff in H as [Hc Hr].
  cbn [strip_html_fuel]. rewrite (IH r Hr).
  destruct (Ascii.eqb c "<"); [|reflexivity].
  unfold closes_at_once in Hc. now destruct (find_char ">" r) as [[|i]|].
Qed.

Lemma strip_html_fuel_tag_free (n : nat) (s : string) :
  (String.length s <= n)%nat -> tag_free (strip_html_fuel n s) = true.
Proof.
  revert s. induction n as [|n IH]; intros [|c r] H; try reflexivity.
  - cbn [String.length] in H. lia.
  - cbn [String.length] in H. cbn [strip_html_fuel].
    assert (Hr : tag_free (strip_html_fuel n r) = true) by (apply IH; lia).
    destruct (Ascii.eqb c "<") eqn:Ec.
    + destruct (find_char ">" r) as [[|i]|] eqn:Ef.
      * cbn [tag_free]. rewrite Ec, Hr, andb_true_r.
        apply strip_html_closes_at_once. unfold closes_at_once. now rewrite Ef.
      * apply IH. pose proof (drop_length_le (S (S i)) r). lia.
      * cbn [tag_free]. rewrite Ec, Hr, andb_true_r.
        apply strip_html_closes_at_once. unfold closes_at_once. now rewrite Ef.
    + cbn [tag_free]. now rewrite Ec, Hr.
Qed.

Lemma strip_html_tag_free (value : string) : tag_free (strip_html value) = true.
Proof. apply strip_html_fuel_tag_free. lia. Qed.

Lemma space_is_not_close (c : ascii) : is_space c = true -> Ascii.eqb ">" c = false.
Proof.
  destruct (Ascii.eqb ">" c) eqn:E; [|reflexivity].
  apply Ascii.eqb_eq in E. subst c. discriminate.
Qed.

Lemma space_is_not_open (c : ascii) : is_space c = true -> Ascii.eqb c "<" = false.
Proof.
  destruct (Ascii.eqb c "<") eqn:E; [|reflexivity].
  apply Ascii.eqb_eq in E. subst c. discriminate.
Qed.

Lemma sub_whitespace_no_close (b : bool) (s : string) :
  find_char ">" s = None -> find_char ">" (sub_whitespace b s) = None.
Proof.
  revert b. induction s as [|c r IH]; intros b H; [reflexivity|].
  apply find_char_none_cons in H as [Hc Hr]. cbn [sub_whitespace].
  destruct (is_space c), b; try apply IH; try assumption;
    apply find_char_none_cons; split; auto.
Qed.

Lemma lstrip_no_close (s : string) :
  find_char ">" s = None -> find_char ">" (lstrip_by is_space s) = None.
Proof.
  induction s as [|c r IH]; intros H; [reflexivity|]. cbn [lstrip_by].
  destruct (is_space c); [|exact H]. apply IH. now apply find_char_none_cons in H.
Qed.

Lemma rstrip_no_close (s : string) :
  find_char ">" s = None -> find_char ">" (rstrip_by is_space s) = None.
Proof.
  induction s as [|c r IH]; intros H; [reflexivity|].
  apply find_char_none_cons in H as [Hc Hr]. specialize (IH Hr).
  rewrite rstrip_by_cons. destruct (rstrip_by is_space r) as [|d r'].
  - destruct (is_space c); [reflexivity|]. now apply find_char_none_cons.
  - now apply find_char_none_cons.
Qed.

Lemma sub_whitespace_closes_at_once (b : bool) (s : string) :
  closes_at_once s = true -> closes_at_once (sub_whitespace b s) = true.
Proof.
  destruct s as [|c r]; [reflexivity|]. intros H.
  apply closes_at_once_cons in H as [->|[Hc Hr]].
  - reflexivity.
  - apply closes_at_once_none, sub_whitespace_no_close. now apply find_char_none_cons.
Qed.

Lemma lstrip_closes_at_once (s : string) :
  closes_at_once s = true -> closes_at_once (lstrip_by is_space s) = true.
Proof.
  destruct s as [|c r]; [reflexivity|]. intros H.
  apply closes_at_once_cons in H as [->|[Hc Hr]].
  - reflexivity.
  - apply closes_at_once_none, lstrip_no_close. now apply find_char_none_cons.
Qed.

Lemma rstrip_closes_at_once (s : string) :
  closes_at_once s = true -> closes_at_once (rstrip_by is_space s) = true.
Proof.
  destruct s as [|c r]; [reflexivity|]. intros H.
  apply closes_at_once_cons in H as [->|[Hc Hr]].
  - rewrite rstrip_by_cons. now destruct (rstrip_by is_space r).
  - apply closes_at_once_none, rstrip_no_close. now apply find_char_none_cons.
Qed.

Lemma sub_whitespace_tag_free (b : bool) (s : string) :
  tag_free s = true -> tag_free (sub_whitespace b s) = true.
Proof.
  revert b. induction s as [|c r IH]; intros b H; [reflexivity|].
  cbn [tag_free] in H. apply andb_true_iff in H as [Hc Hr]. cbn [sub_whitespace].
  destruct (is_space c) eqn:Es.
  - destruct b; [now apply IH|]. cbn [tag_free]. cbn. now apply IH.
  - cbn [tag_free]. rewrite (IH false Hr), andb_true_r.
    destruct (Ascii.eqb c "<"); [|reflexivity]. now apply sub_whitespace_closes_at_once.
Qed.

Lemma lstrip_tag_free (s : string) :
  tag_free s = true -> tag_free (lstrip_by is_space s) = true.
Proof.
  induction s as [|c r IH]; intros H; [reflexivity|]. cbn [lstrip_by].
  destruct (is_space c); [|exact H]. apply IH.
  cbn [tag_free] in H. now apply andb_true_iff in H as [_ Hr].
Qed.

Lemma rstrip_tag_free (s : string) :
  tag_free s = true -> tag_free (rstrip_by is_space s) = true.
Proof.
  induction s as [|c r IH]; intros H; [reflexivity|].
  cbn [tag_free] in H. apply andb_true_iff in H as [Hc Hr]. specialize (IH Hr).
  rewrite rstrip_by_cons.
  pose proof (rstrip_closes_at_once r) as Hk.
  destruct (rstrip_by is_space r) as [|d r'].
  - destruct (is_space c); [reflexivity|]. cbn [tag_free].
    now destruct (Ascii.eqb c "<").
  - cbn [tag_free] in *. rewrite IH, andb_true_r.
    destruct (Ascii.eqb c "<"); [|reflexivity]. now apply Hk.
Qed.

Lemma normalize_whitespace_tag_free (s : string) :
  tag_free s = true -> tag_free (normalize_whitespace s) = true.
Proof.
  intros H. unfold normalize_whitespace, strip.
  now apply rstrip_tag_free, lstrip_tag_free, sub_whitespace_tag_free.
Qed.

(** X18. [strip_html] leaves no tag behind, so a second pass removes nothing. *)
Theorem strip_html_idempotent (value : string) :
  strip_html (strip_html value) = strip_html value.
Proof. apply tag_free_fixed, strip_html_tag_free. Qed.

(** X19. A normalized title holds no tag, single spaces only and none at either
    end; normalizing it again returns it unchanged. *)
Theorem normalize_title_idempotent (value : string) :
  tag_free (normalize_title value) = true
  /\ collapsed false (normalize_title value) = true
  /\ trimmed (normalize_title value)
  /\ normalize_title (normalize_title value) = normalize_title value.
Proof.
  unfold normalize_title. cbv zeta.
  assert (Ht : tag_free (normalize_whitespace (strip_html value)) = true)
    by apply normalize_whitespace_tag_free, strip_html_tag_free.
  split; [exact Ht|]. split; [apply normalize_whitespace_collapsed|].
  split; [apply strip_trimmed|].
  unfold strip_html at 1. rewrite (tag_free_fixed _ _ Ht).
  apply normalize_whitespace_again.
Qed.

(** *** Digests *)

Lemma string_length_app (a b : string) :
  String.length (a ++ b) = (String.length a + String.length b)%nat.
Proof.
  induction a as [|c a IH]; [reflexivity|].
  change (S (String.length (a ++ b)) = S (String.length a + String.length b)).
  now rewrite IH.
Qed.

Lemma all_chars_app (p : ascii -> bool) (a b : string) :
  Urllib.all_chars p (a ++ b) = Urllib.all_chars p a && Urllib.all_chars p b.
Proof.
  induction a as [|c a IH]; [reflexivity|].
  change (p c && Urllib.all_chars p (a ++ b)
          = p c && Urllib.all_chars p a && Urllib.all_chars p b).
  now rewrite IH, andb_assoc.
Qed.

Lemma compress_length (h block : list N) :
  List.length h = 8%nat -> List.length (Sha256.compress h block) = 8%nat.
Proof.
  intros H. unfold Sha256.compress. cbv zeta.
  generalize (List.fold_left Sha256.round (List.combine Sha256.K (Sha256.schedule block))
                (Sha256.regs_of h)).
  intros s. rewrite List.length_map, List.length_combine, H. reflexivity.
Qed.

Lemma fold_compress_length (blocks : list (list N)) (h : list N) :
  List.length h = 8%nat -> List.length (List.fold_left Sha256.compress blocks h) = 8%nat.
Proof.
  revert h. induction blocks as [|b bs IH]; intros h H; [exact H|].
  cbn [List.fold_left]. apply IH, compress_length, H.
Qed.

Lemma digest_words_length (msg : list N) : List.length (Sha256.digest_words msg) = 8%nat.
Proof. unfold Sha256.digest_words. cbv zeta. now apply fold_compress_length. Qed.

Lemma hex_digit_lower (n : N) : (n < 16)%N -> is_hex_lower (Sha256.hex_digit n) = true.
Proof.
  intros H.
  assert (Hn : In n (List.map N.of_nat (List.seq 0 16))).
  { apply List.in_map_iff. exists (N.to_nat n). split; [lia|]. apply List.in_seq. lia. }
  cbn in Hn. repeat (destruct Hn as [<-|Hn]; [reflexivity|]). destruct Hn.
Qed.

Lemma hex_of_word_shape (n : nat) (x : N) :
  String.length (Sha256.hex_of_word n x) = n
  /\ Urllib.all_chars is_hex_lower (Sha256.hex_of_word n x) = true.
Proof.
  induction n as [|n [IHl IHc]]; [now split|]. cbn [Sha256.hex_of_word String.length Urllib.all_chars].
  rewrite IHl, IHc, andb_true_r. split; [reflexivity|].
  apply hex_digit_lower, N.mod_upper_bound. discriminate.
Qed.

Lemma concat_hex_shape (ws : list N) :
  String.length (String.concat EmptyString (List.map (Sha256.hex_of_word 8) ws))
  = (8 * List.length ws)%nat
  /\ Urllib.all_chars is_hex_lower
       (String.concat EmptyString (List.map (Sha256.hex_of_word 8) ws)) = true.
Proof.
  induction ws as [|w ws [IHl IHc]]; [now split|].
  destruct (hex_of_word_shape 8 w) as [Hl Hc].
  cbn [List.map String.concat List.length].
  destruct (List.map (Sha256.hex_of_word 8) ws) as [|y ys] eqn:E.
  - destruct ws; [|discriminate]. split; [exact Hl|exact Hc].
  - change (EmptyString ++ String.concat EmptyString (y :: ys))
      with (String.concat EmptyString (y :: ys)).
    rewrite string_length_app, all_chars_app, Hl, Hc, IHl, IHc. split; [lia|reflexivity].
Qed.

(** X20. Whatever the parts, [deterministic_hash] returns 64 lower-case
    hexadecimal digits. *)
Theorem deterministic_hash_shape (parts : list string) :
  String.length (deterministic_hash parts) = 64%nat
  /\ Urllib.all_chars is_hex_lower (deterministic_hash parts) = true.
Proof.
  unfold deterministic_hash. cbv zeta. unfold Sha256.hexdigest.
  generalize (digest_words_length (Sha256.bytes_of_string (joined_parts parts))).
  generalize (Sha256.digest_words (Sha256.bytes_of_string (joined_parts parts))).
  intros ws Hws. destruct (concat_hex_shape ws) as [Hl Hc].
  rewrite Hl, Hws. split; [reflexivity|exact Hc].
Qed.

(** *** Fragments *)

Lemma append_cons (c : ascii) (a b : string) : String c a ++ b = String c (a ++ b).
Proof. reflexivity. Qed.

Lemma append_nil (b : string) : EmptyString ++ b = b.
Proof. reflexivity. Qed.

Lemma append_assoc (a b c : string) : (a ++ b) ++ c = a ++ (b ++ c).
Proof.
  induction a as [|d a IH]; [reflexivity|]. rewrite !append_cons. now rewrite IH.
Qed.

Lemma take_app_le (n : nat) (u v : string) :
  (n <= String.length u)%nat -> take n (u ++ v) = take n u.
Proof.
  revert n. induction u as [|c u IH]; intros [|n] H; cbn [String.length] in H;
    try lia; rewrite ?append_cons, ?append_nil.
  - now destruct v.
  - reflexivity.
  - cbn [take]. rewrite IH by lia. reflexivity.
Qed.

Lemma drop_app_le (n : nat) (u v : string) :
  (n <= String.length u)%nat -> drop n (u ++ v) = drop n u ++ v.
Proof.
  revert n. induction u as [|c u IH]; intros [|n] H; cbn [String.length] in H;
    try lia; rewrite ?append_cons, ?append_nil.
  - now destruct v.
  - reflexivity.
  - cbn [drop]. apply IH. lia.
Qed.

Lemma take_all (u : string) : take (String.length u) u = u.
Proof. induction u as [|c u IH]; [reflexivity|]. cbn [String.length take]. now rewrite IH. Qed.

Lemma drop_all (u : string) : drop (String.length u) u = EmptyString.
Proof. induction u as [|c u IH]; [reflexivity|]. exact IH. Qed.

Lemma find_char_lt (c : ascii) (u : string) (k : nat) :
  find_char c u = Some k -> (k < String.length u)%nat.
Proof.
  revert k. induction u as [|d u IH]; intros k; [discriminate|].
  rewrite find_char_cons. cbn [String.length].
  destruct (Ascii.eqb c d); [intros [= <-]; lia|].
  destruct (find_char c u) as [j|]; [|discriminate].
  intros [= <-]. specialize (IH j eq_refl). lia.
Qed.

Lemma find_char_app_some (c : ascii) (u v : string) (k : nat) :
  find_char c u = Some k -> find_char c (u ++ v) = Some k.
Proof.
  revert k. induction u as [|d u IH]; intros k; [discriminate|].
  rewrite append_cons, !find_char_cons.
  destruct (Ascii.eqb c d); [auto|].
  destruct (find_char c u) as [j|]; [|discriminate].
  intros [= <-]. now rewrite (IH j eq_refl).
Qed.

Lemma find_char_mem (c : ascii) (u : string) :
  mem_char c u = false <-> find_char c u = None.
Proof.
  induction u as [|d u IH]; [split; reflexivity|].
  rewrite find_char_cons. cbn [mem_char].
  destruct (Ascii.eqb c d); cbn [orb]; [split; discriminate|].
  rewrite IH. destruct (find_char c u); split; auto; discriminate.
Qed.

Lemma find_char_app_here (c : ascii) (u f : string) :
  mem_char c u = false -> find_char c (u ++ String c f) = Some (String.length u).
Proof.
  induction u as [|d u IH]; intros H.
  - rewrite append_nil, find_char_cons, Ascii.eqb_refl. reflexivity.
  - cbn [mem_char] in H. apply orb_false_iff in H as [Hd Hu].
    rewrite append_cons, find_char_cons, Hd, (IH Hu). reflexivity.
Qed.

Lemma mem_char_drop (c : ascii) (n : nat) (u : string) :
  mem_char c u = false -> mem_char c (drop n u) = false.
Proof.
  revert u. induction n as [|n IH]; intros [|d u] H; try exact H.
  cbn [drop]. apply IH. cbn [mem_char] in H. now apply orb_false_iff in H as [_ H].
Qed.

Lemma mem_char_lstrip (c : ascii) (p : ascii -> bool) (u : string) :
  mem_char c u = false -> mem_char c (lstrip_by p u) = false.
Proof.
  induction u as [|d u IH]; intros H; [exact H|]. cbn [lstrip_by].
  destruct (p d); [|exact H]. apply IH.
  cbn [mem_char] in H. now apply orb_false_iff in H as [_ H].
Qed.

Lemma mem_char_remove (c x : ascii) (u : string) :
  mem_char c u = false -> mem_char c (remove_char x u) = false.
Proof.
  induction u as [|d u IH]; intros H; [exact H|].
  cbn [mem_char] in H. apply orb_false_iff in H as [Hd Hu]. cbn [remove_char].
  destruct (Ascii.eqb x d); [auto|]. cbn [mem_char]. now rewrite Hd, IH.
Qed.

Lemma lstrip_app (p : ascii -> bool) (u : string) (c : ascii) (f : string) :
  p c = false -> lstrip_by p (u ++ String c f) = lstrip_by p u ++ String c f.
Proof.
  intros Hc. induction u as [|d u IH].
  - rewrite append_nil. cbn [lstrip_by]. now rewrite Hc.
  - rewrite append_cons. cbn [lstrip_by]. destruct (p d); [exact IH|reflexivity].
Qed.

Lemma remove_char_app (x : ascii) (u v : string) :
  remove_char x (u ++ v) = remove_char x u ++ remove_char x v.
Proof.
  induction u as [|d u IH]; [reflexivity|]. rewrite append_cons. cbn [remove_char].
  destruct (Ascii.eqb x d); [exact IH|]. now rewrite append_cons, IH.
Qed.

(** Cleaning commutes with appending a fragment. *)
Lemma cleaned_url_app (u f : string) :
  mem_char "#" u = false ->
  exists f', cleaned_url (u ++ String "#" f) = cleaned_url u ++ String "#" f'
             /\ mem_char "#" (cleaned_url u) = false.
Proof.
  intros H. exists (remove_char "010" (remove_char "013" (remove_char "009" f))).
  unfold cleaned_url. split.
  - rewrite lstrip_app by reflexivity. now rewrite !remove_char_app.
  - now apply mem_char_remove, mem_char_remove, mem_char_remove, mem_char_lstrip.
Qed.

Lemma scheme_stops_at_hash (u f : string) (k : nat) :
  find_char ":" u = None ->
  find_char ":" (u ++ String "#" f) = Some k ->
  Urllib.all_chars Urllib.is_scheme_char (take k (u ++ String "#" f)) = false.
Proof.
  revert k. induction u as [|c u IH]; intros k Hn Hk.
  - rewrite append_nil in *. rewrite find_char_cons in Hk.
    change (Ascii.eqb ":" "#") with false in Hk.
    destruct (find_char ":" f); [|discriminate]. injection Hk as <-. reflexivity.
  - apply find_char_none_cons in Hn as [Hc Hu]. rewrite append_cons in *.
    rewrite find_char_cons, Hc in Hk.
    destruct (find_char ":" (u ++ String "#" f)) as [j|] eqn:E; [|discriminate].
    injection Hk as <-. cbn [take Urllib.all_chars].
    rewrite (IH j Hu eq_refl). apply andb_false_r.
Qed.

Lemma split_scheme_app (u f : string) :
  mem_char "#" u = false ->
  split_scheme (u ++ String "#" f)
  = (fst (split_scheme u), snd (split_scheme u) ++ String "#" f)
  /\ mem_char "#" (snd (split_scheme u)) = false.
Proof.
  intros H. unfold split_scheme.
  destruct (find_char ":" u) as [k|] eqn:E.
  - rewrite (find_char_app_some _ _ (String "#" f) _ E).
    pose proof (find_char_lt _ _ _ E) as Hlt.
    destruct k as [|i]; [now split|].
    rewrite (take_app_le (S i)) by lia.
    rewrite (drop_app_le (S (S i))) by lia.
    destruct u as [|c u']; [discriminate|]. rewrite append_cons.
    destruct (is_alpha c && Urllib.all_chars Urllib.is_scheme_char (take (S i) (String c u')));
      cbn [fst snd]; split; try reflexivity; try assumption.
    now apply mem_char_drop.
  - cbn [fst snd]. split; [|exact H].
    destruct (find_char ":" (u ++ String "#" f)) as [[|i]|] eqn:E'; try reflexivity.
    rewrite (scheme_stops_at_hash _ _ _ E E'). now rewrite andb_false_r.
Qed.

Lemma startswith_slashes_app (r f : string) :
  startswith "//" (r ++ String "#" f) = startswith "//" r.
Proof.
  destruct r as [|a [|b r]]; rewrite ?append_cons, ?append_nil; cbn [startswith].
  - reflexivity.
  - change (Ascii.eqb "/" "#") with false. now rewrite !andb_false_r.
  - reflexivity.
Qed.

Lemma first_delim_app (r f : string) :
  Urllib.first_delim (r ++ String "#" f) = Urllib.first_delim r
  /\ (Urllib.first_delim r <= String.length r)%nat.
Proof.
  induction r as [|c r [IH1 IH2]]; [split; [reflexivity|cbn; lia]|].
  rewrite append_cons. cbn [Urllib.first_delim String.length].
  destruct (mem_char c "/?#"); [split; [reflexivity|lia]|]. rewrite IH1. split; [reflexivity|lia].
Qed.

Lemma splitnetloc_app (r f : string) :
  startswith "//" r = true ->
  mem_char "#" r = false ->
  Urllib._splitnetloc (r ++ String "#" f)
  = (fst (Urllib._splitnetloc r), snd (Urllib._splitnetloc r) ++ String "#" f)
  /\ mem_char "#" (snd (Urllib._splitnetloc r)) = false.
Proof.
  intros Hs Hm. unfold Urllib._splitnetloc. cbv zeta. cbn [fst snd].
  assert (H2 : (2 <= String.length r)%nat).
  { destruct r as [|a [|b r]]; cbn in Hs; try discriminate.
    - now rewrite andb_false_r in Hs.
    - cbn [String.length]. lia. }
  rewrite (drop_app_le 2) by exact H2.
  destruct (first_delim_app (drop 2 r) f) as [-> Hle].
  rewrite take_app_le, drop_app_le by exact Hle.
  split; [reflexivity|]. now apply mem_char_drop, mem_char_drop.
Qed.

Lemma after_netloc_app (sch nl r f : string) :
  mem_char "#" r = false ->
  after_netloc sch nl (r ++ String "#" f)
  = option_map (with_fragment f) (after_netloc sch nl r).
Proof.
  intros Hm. unfold after_netloc, split_first.
  rewrite (find_char_app_here _ _ f Hm).
  rewrite (take_app_le (String.length r)) by lia. rewrite take_all.
  change (S (String.length r)) with (String.length (String "#" r)).
  replace (drop (String.length (String "#" r)) (r ++ String "#" f)) with f.
  2:{ clear Hm. induction r as [|c r IH]; [reflexivity|]. rewrite append_cons. exact IH. }
  apply find_char_mem in Hm. rewrite Hm.
  destruct (find_char "?" r); reflexivity.
Qed.

Section Fragment.

Variable bracketed_ok : string -> bool.

Local Abbreviation urlsplit := (Urllib.urlsplit bracketed_ok).
Local Abbreviation urlparse := (Urllib.urlparse bracketed_ok).
Local Abbreviation canonicalize_url := (Normalization.canonicalize_url bracketed_ok).

(** [urlsplit] through its named steps. *)
Lemma urlsplit_steps (url0 : string) :
  urlsplit url0
  = let '(sch, url3) := split_scheme (cleaned_url url0) in
    if startswith "//" url3 then
      let '(nl, rest) := Urllib._splitnetloc url3 in
      let ob := mem_char "[" nl in
      let cb := mem_char "]" nl in
      if xorb ob cb then None
      else if ob && cb && negb (bracketed_ok nl) then None
      else after_netloc sch nl rest
    else after_netloc sch EmptyString url3.
Proof. reflexivity. Qed.

Lemma urlsplit_fragment (u f : string) :
  mem_char "#" u = false ->
  exists f', urlsplit (u ++ String "#" f) = option_map (with_fragment f') (urlsplit u).
Proof.
  intros Hm. destruct (cleaned_url_app u f Hm) as (f' & Hc & Hm1).
  exists f'. rewrite !urlsplit_steps, Hc.
  destruct (split_scheme_app (cleaned_url u) f' Hm1) as [-> Hm2].
  destruct (split_scheme (cleaned_url u)) as [sch url3]. cbn [fst snd] in *.
  rewrite startswith_slashes_app.
  destruct (startswith "//" url3) eqn:Es.
  - destruct (splitnetloc_app url3 f' Es Hm2) as [-> Hm3].
    destruct (Urllib._splitnetloc url3) as [nl rest]. cbn [fst snd] in *. cbv zeta.
    destruct (xorb (mem_char "[" nl) (mem_char "]" nl)); [reflexivity|].
    destruct (mem_char "[" nl && mem_char "]" nl && negb (bracketed_ok nl)); [reflexivity|].
    now apply after_netloc_app.
  - now apply after_netloc_app.
Qed.

Lemma canonicalize_url_drops_fragment (u f : string) :
  mem_char "#" u = false -> canonicalize_url (u ++ String "#" f) = canonicalize_url u.
Proof.
  intros Hm. destruct (urlsplit_fragment u f Hm) as (f' & H).
  unfold Normalization.canonicalize_url, Urllib.urlparse. rewrite H.
  destruct (urlsplit u) as [r|]; [|reflexivity]. cbn [option_map].
  unfold with_fragment. cbn [Urllib.s_scheme Urllib.s_path Urllib.s_netloc Urllib.s_query Urllib.s_fragment].
  destruct (Urllib.in_list (Urllib.s_scheme r) Urllib.uses_params && mem_char ";" (Urllib.s_path r));
    [destruct (Urllib._splitparams (Urllib.s_path r))|]; reflexivity.
Qed.

Lemma first_hash (url : string) :
  mem_char "#" url = true ->
  exists u g, url = u ++ String "#" g /\ mem_char "#" u = false.
Proof.
  induction url as [|c url IH]; [discriminate|]. cbn [mem_char].
  destruct (Ascii.eqb "#" c) eqn:E.
  - intros _. apply Ascii.eqb_eq in E. subst c. now exists EmptyString, url.
  - cbn [orb]. intros H. destruct (IH H) as (u & g & -> & Hu).
    exists (String c u), g. split; [reflexivity|]. cbn [mem_char]. now rewrite E.
Qed.

(** X21. Whatever follows a [#] is dropped: a link and the same link with a
    fragment appended have the same canonical form (and fail alike). *)
Theorem canonicalize_url_ignores_fragment (url frag : string) :
  canonicalize_url (url ++ "#" ++ frag) = canonicalize_url url.
Proof.
  change ("#" ++ frag) with (String "#" frag).
  destruct (mem_char "#" url) eqn:E.
  - destruct (first_hash url E) as (u & g & -> & Hu).
    rewrite append_assoc, append_cons.
    now rewrite !canonicalize_url_drops_fragment.
  - now apply canonicalize_url_drops_fragment.
Qed.

End Fragment.

End NormalizationLaws.

(** ** The accept gate of the news fetch *)

Module NewsFetchLaws.

Import PyStr Confirm Dedupe NearDuplicate NewsFetch NewsFetchSpec.

Lemma ordered_pairs_snoc {A : Type} (R : A -> A -> Prop) (l : list A) (y : A) :
  ForallOrdPairs R l -> Forall (fun x => R x y) l -> ForallOrdPairs R (l ++ [y]).
Proof.
  induction 1 as [|a l Ha Hl IH]; intros Hy; cbn [app].
  - constructor; constructor.
  - apply Forall_cons in Hy as [Hay Hy]. constructor; [|now apply IH].
    apply Forall_app. split; [exact Ha|]. now constructor.
Qed.

Section Gate.

Variable bracketed_ok : string -> bool.
Variable token_set_ratio : string -> string -> Q.
Context {S : Type}.
Variable put_raw : S -> string -> NewsItem -> option S.

Local Abbreviation accept_entry := (NewsFetch.accept_entry bracketed_ok token_set_ratio put_raw).
Local Abbreviation accept_entries := (NewsFetch.accept_entries bracketed_ok token_set_ratio put_raw).
Local Abbreviation accept_sources := (NewsFetch.accept_sources bracketed_ok token_set_ratio put_raw).
Local Abbreviation told_apart := (NewsFetchSpec.told_apart bracketed_ok token_set_ratio).
Local Abbreviation remembered := (NewsFetchSpec.remembered bracketed_ok).
Local Abbreviation gate_ok := (NewsFetchSpec.gate_ok bracketed_ok token_set_ratio).

Lemma near_duplicate_none (t : string) (l : list string) (threshold : Q) :
  near_duplicate token_set_ratio t l threshold = false ->
  Forall (fun other =>
            (token_set_ratio (Normalization.normalize_title t)
                             (Normalization.normalize_title other) < threshold)%Q) l.
Proof.
  induction l as [|o r IH]; cbn [near_duplicate]; [constructor|].
  destruct (Qle_bool threshold _) eqn:E; [discriminate|].
  intros H. constructor; [|now apply IH].
  apply Qnot_le_lt. intros Hle. apply Qle_bool_iff in Hle. congruence.
Qed.

Lemma remembered_insert (idx : DedupeIndex) (uk ck : string) (x : NewsItem) :
  remembered idx x ->
  remembered (mkIndex (<[uk := uk]> (url_hashes idx)) (<[ck := ck]> (content_hashes idx))) x.
Proof.
  intros (cu & Hcu & Hu & Hc). exists cu. split; [exact Hcu|].
  cbn [url_hashes content_hashes]. split.
  - generalize dependent (Normalization.deterministic_hash [cu]). intros h Hh.
    rewrite lookup_insert. case_decide; [eauto|exact Hh].
  - generalize dependent (content_key x). intros h Hh.
    rewrite lookup_insert. case_decide; [eauto|exact Hh].
Qed.

Lemma accept_entry_ok (source : string) (st st' : FetchState S) (built : option NewsItem) :
  gate_ok st ->
  accept_entry source st built = Some st' ->
  gate_ok st'
  /\ exists l, f_collected st' = (f_collected st ++ l)%list
               /\ sublist l (option_list built).
Proof.
  unfold NewsFetchSpec.gate_ok.
  intros [Hrem Hap] H. destruct built as [item|]; cbn [NewsFetch.accept_entry] in H.
  2:{ injection H as <-. split; [now split|]. exists []. now rewrite app_nil_r. }
  fold (content_of item) in H.
  destruct (Normalization.canonicalize_url bracketed_ok (url item)) as [cu|] eqn:Hcu.
  2:{ unfold Dedupe.add in H. rewrite Hcu in H. discriminate. }
  destruct (DedupeLaws.add_cases bracketed_ok (f_dedupe st) (url item) (content_of item)
              (title item) cu Hcu) as (uk & ck & Huk & Hck & E).
  rewrite E in H. clear E.
  assert (Hck' : ck = content_key item) by (rewrite Hck; unfold content_key; reflexivity).
  clear Hck. rename Hck' into Hck.
  destruct (url_hashes (f_dedupe st) !! uk) as [v|] eqn:Hu.
  { cbn [negb] in H. injection H as <-. cbn [f_dedupe f_collected f_store]. split; [now split|].
    exists []. rewrite app_nil_r. split; [reflexivity|apply sublist_nil_l]. }
  destruct (content_hashes (f_dedupe st) !! ck) as [v|] eqn:Hc.
  { cbn [negb] in H. injection H as <-. cbn [f_dedupe f_collected f_store]. split; [now split|].
    exists []. rewrite app_nil_r. split; [reflexivity|apply sublist_nil_l]. }
  cbn [negb] in H.
  assert (Hrem' : Forall (remembered (mkIndex (<[uk := uk]> (url_hashes (f_dedupe st)))
                                              (<[ck := ck]> (content_hashes (f_dedupe st)))))
                         (f_collected st)).
  { eapply Forall_impl; [exact Hrem|]. intros x. apply remembered_insert. }
  destruct (near_duplicate token_set_ratio (title item) (List.map title (f_collected st))
              default_threshold) eqn:Hnd.
  { injection H as <-. cbn [f_dedupe f_collected f_store]. split; [now split|].
    exists []. rewrite app_nil_r. split; [reflexivity|apply sublist_nil_l]. }
  destruct (put_raw (f_store st) source item) as [store|]; [|discriminate].
  injection H as <-. cbn [f_dedupe f_collected f_store]. split.
  - split.
    + apply Forall_app. split; [exact Hrem'|]. constructor; [|constructor].
      exists cu. split; [exact Hcu|]. rewrite <- Huk, <- Hck.
      cbn [url_hashes content_hashes]. rewrite !lookup_insert_eq. eauto.
    + apply ordered_pairs_snoc; [exact Hap|].
      apply near_duplicate_none in Hnd. rewrite Forall_map in Hnd.
      rewrite Forall_forall in Hrem, Hnd. apply Forall_forall. intros x Hx.
      destruct (Hrem x Hx) as (cux & Hcux & [vu Hvu] & [vc Hvc]).
      split; [|split].
      * rewrite Hcux, Hcu. intros [= ->]. rewrite <- Huk in Hvu. congruence.
      * intros Heq.
        pose proof (f_equal fst Heq) as E1. pose proof (f_equal snd Heq) as E2.
        cbn [fst snd] in E1, E2.
        assert (content_key x = ck) as Hk.
        { rewrite Hck. unfold content_key. rewrite E1, E2. reflexivity. }
        rewrite Hk in Hvc. congruence.
      * now apply Hnd.
  - exists [item]. split; [reflexivity|]. reflexivity.
Qed.

Lemma accept_entries_ok (source : string) (entries : list (option (option NewsItem)))
    (st st' : FetchState S) :
  gate_ok st ->
  accept_entries source entries st = Some st' ->
  gate_ok st'
  /\ exists l, f_collected st' = (f_collected st ++ l)%list
               /\ sublist l (omap (fun b => mjoin b) entries).
Proof.
  revert st. induction entries as [|[built|] rest IH]; intros st Hok H;
    cbn [NewsFetch.accept_entries] in H; [| |discriminate].
  - injection H as <-. split; [exact Hok|]. exists []. now rewrite app_nil_r.
  - destruct (accept_entry source st built) as [st1|] eqn:E; [|discriminate].
    destruct (accept_entry_ok source st st1 built Hok E) as (Hok1 & l1 & Hl1 & Hs1).
    destruct (IH st1 Hok1 H) as (Hok' & l2 & Hl2 & Hs2).
    split; [exact Hok'|]. exists (l1 ++ l2)%list. split.
    + rewrite Hl2, Hl1. now rewrite app_assoc.
    + cbn [omap list_omap]. destruct built as [item|]; cbn [mjoin option_join option_list] in *.
      * exact (sublist_app _ _ _ _ Hs1 Hs2).
      * apply sublist_nil_r in Hs1. subst l1. exact Hs2.
Qed.

Lemma accept_sources_ok (feeds : list (string * list (option (option NewsItem))))
    (st st' : FetchState S) :
  gate_ok st ->
  accept_sources feeds st = Some st' ->
  gate_ok st'
  /\ exists l, f_collected st' = (f_collected st ++ l)%list
               /\ sublist l (built_items feeds).
Proof.
  revert st. induction feeds as [|[source entries] rest IH]; intros st Hok H;
    cbn [NewsFetch.accept_sources] in H.
  - injection H as <-. split; [exact Hok|]. exists []. now rewrite app_nil_r.
  - destruct (accept_entries source entries st) as [st1|] eqn:E; [|discriminate].
    destruct (accept_entries_ok source entries st st1 Hok E) as (Hok1 & l1 & Hl1 & Hs1).
    destruct (IH st1 Hok1 H) as (Hok' & l2 & Hl2 & Hs2).
    split; [exact Hok'|]. exists (l1 ++ l2)%list. split.
    + rewrite Hl2, Hl1. now rewrite app_assoc.
    + unfold built_items. cbn [List.map List.concat snd]. now apply sublist_app.
Qed.

(** X22. The items [fetch_news] returns are built items in the order they were
    built, and any two of them differ in canonical address, differ in
    content or normalized title, and have titles that score below the
    near-duplicate threshold. *)
Theorem fetch_news_tells_items_apart
    (feeds : list (string * list (option (option NewsItem)))) (store store' : S)
    (items : list NewsItem) :
  NewsFetch.fetch_news bracketed_ok token_set_ratio put_raw feeds store = Some (items, store') ->
  sublist items (built_items feeds) /\ ForallOrdPairs told_apart items.
Proof.
  unfold NewsFetch.fetch_news. intros H.
  destruct (accept_sources feeds (mkFetch empty_index [] store)) as [st|] eqn:E; [|discriminate].
  injection H as <- <-.
  assert (Hok : gate_ok (mkFetch empty_index [] store)).
  { split; cbn [f_dedupe f_collected]; constructor. }
  unfold NewsFetchSpec.gate_ok in *.
  destruct (accept_sources_ok feeds _ st Hok E) as ([_ Hap] & l & Hl & Hs).
  cbn [f_collected app] in Hl. subst l. now split.
Qed.

End Gate.

Lemma fetch_news_tells_items_apart_witness :
  let kept := [ story "https://example.com/a" "BTC ETF approved";
                story "https://example.com/b" "Exchange hacked" ] in
  sublist kept (built_items sample_feeds)
  /\ ForallOrdPairs (told_apart (fun _ => true) ConfirmSpec.exact_match_ratio) kept.
Proof.
  apply (fetch_news_tells_items_apart (fun _ => true) ConfirmSpec.exact_match_ratio
           log_source sample_feeds [] ["coindesk"; "coindesk"]).
  vm_compute. reflexivity.
Defined.

End NewsFetchLaws.

(** ** The buckets the limiter makes *)

Module RateLimitRunProps.

Import PyNum PyNumProps RateLimit RateLimitSpec RateLimitRun.
Local Open Scope Q_scope.

(** What holds of a limiter whose buckets were all made and updated by
    [allow] up to the clock reading [last]. *)
Lemma allow_keeps_made_buckets (key : string) (created now last : Q) (rl : RateLimiter) :
  0 <= qps rl -> 0 <= burst rl -> last <= created -> created <= now ->
  (forall k b, _buckets rl !! k = Some b ->
     within_capacity b /\ capacity b = burst rl /\ refill_rate b = qps rl /\ updated_at b <= last) ->
  forall k b, _buckets (snd (allow key created now rl)) !! k = Some b ->
    within_capacity b /\ capacity b = burst rl /\ refill_rate b = qps rl /\ updated_at b <= now.
Proof.
  intros Hq Hb Hlc Hcn Hinv k b. rewrite RateLimitProps.allow_unfold. cbn [snd _buckets].
  destruct (decide (key = k)) as [<-|Hne].
  - rewrite lookup_insert_eq. intros [= <-].
    assert (Hfor : within_capacity (bucket_for key created rl)
                   /\ capacity (bucket_for key created rl) = burst rl
                   /\ refill_rate (bucket_for key created rl) = qps rl
                   /\ updated_at (bucket_for key created rl) <= now).
    { unfold bucket_for. destruct (_buckets rl !! key) as [b0|] eqn:E.
      - destruct (Hinv _ _ E) as (? & ? & ? & ?).
        split; [assumption|]. split; [assumption|]. split; [assumption|]. lra.
      - unfold within_capacity. cbn [tokens capacity refill_rate updated_at].
        repeat split; try reflexivity; lra. }
    destruct Hfor as (Hw & Hc & Hr & Hu).
    destruct (RateLimitProps.consume_static now 1 (bucket_for key created rl)) as (Ec & Er & Eu).
    rewrite Ec, Er, Eu. split; [|split; [exact Hc|split; [exact Hr|lra]]].
    apply RateLimitProps.consume_within_capacity; auto. rewrite Hr. exact Hq.
  - rewrite lookup_insert_ne by exact Hne. intros Hk.
    destruct (Hinv _ _ Hk) as (? & ? & ? & ?).
    split; [assumption|]. split; [assumption|]. split; [assumption|]. lra.
Qed.

Lemma allow_all_keeps_made_buckets (calls : list call) (last : Q) (rl : RateLimiter) :
  0 <= qps rl -> 0 <= burst rl -> clock_in_order last calls ->
  (forall k b, _buckets rl !! k = Some b ->
     within_capacity b /\ capacity b = burst rl /\ refill_rate b = qps rl /\ updated_at b <= last) ->
  forall k b, _buckets (allow_all calls rl) !! k = Some b ->
    within_capacity b /\ capacity b = burst rl /\ refill_rate b = qps rl.
Proof.
  revert last rl. induction calls as [|[[key created] now] rest IH]; intros last rl Hq Hb Hord Hinv k b.
  - cbn [allow_all]. intros Hk. destruct (Hinv _ _ Hk) as (? & ? & ? & _). auto.
  - cbn [allow_all]. destruct Hord as (Hlc & Hcn & Hrest).
    assert (Eq : qps (snd (allow key created now rl)) = qps rl
                 /\ burst (snd (allow key created now rl)) = burst rl).
    { rewrite RateLimitProps.allow_unfold. split; reflexivity. }
    destruct Eq as [Eq Eb]. intros Hk.
    rewrite <- Eq, <- Eb.
    apply (IH now (snd (allow key created now rl))) with (k := k); auto.
    + rewrite Eq. exact Hq.
    + rewrite Eb. exact Hb.
    + intros k' b' Hk'. rewrite Eq, Eb.
      exact (allow_keeps_made_buckets key created now last rl Hq Hb Hlc Hcn Hinv k' b' Hk').
Qed.

(** C6. Every bucket the limiter of the module makes keeps
    [0 <= tokens <= capacity] at all times: after any number of calls of
    [allow], for whatever keys, whose clock readings do not go back, every
    bucket holds between 0 and its capacity, which is 1.0, with refill
    rate 0.5; and a further call changes the bucket of no other key. *)
Theorem buckets_stay_within_capacity
    (calls : list call) (start : Q) (key : string) (b : TokenBucket) :
  clock_in_order start calls ->
  _buckets (allow_all calls default_limiter) !! key = Some b ->
  (0 <= tokens b /\ tokens b <= capacity b)
  /\ capacity b = 1 /\ refill_rate b = 1 # 2
  /\ forall other created now,
       other <> key ->
       _buckets (snd (allow other created now (allow_all calls default_limiter))) !! key = Some b.
Proof.
  intros Hord Hk.
  destruct (allow_all_keeps_made_buckets calls start default_limiter) with (k := key) (b := b)
    as (Hw & Hc & Hr); try exact Hord; try exact Hk.
  - cbn. lra.
  - cbn. lra.
  - intros k0 b0. unfold default_limiter, new_limiter. cbn [_buckets].
    rewrite lookup_empty. discriminate.
  - split; [exact Hw|]. split; [exact Hc|]. split; [exact Hr|].
    intros other created now Hne. rewrite RateLimitProps.allow_unfold. cbn [snd _buckets].
    rewrite lookup_insert_ne by exact Hne. exact Hk.
Qed.

Lemma buckets_stay_within_capacity_witness :
  let calls := [ ("example.com", 0, 0); ("example.com", 1, 1);
                 ("other.org", 2, 2); ("example.com", 3, 7 # 2) ] in
  exists b,
    _buckets (allow_all calls default_limiter) !! "example.com" = Some b
    /\ (0 <= tokens b /\ tokens b <= capacity b)
    /\ capacity b = 1 /\ refill_rate b = 1 # 2.
Proof.
  intros calls.
  destruct (_buckets (allow_all calls default_limiter) !! "example.com") as [b|] eqn:E;
    [|vm_compute in E; discriminate].
  exists b. split; [reflexivity|].
  destruct (buckets_stay_within_capacity calls 0 "example.com" b) as (Hw & Hc & Hr & _).
  - cbn. repeat split; vm_compute; congruence.
  - exact E.
  - auto.
Defined.

End RateLimitRunProps.

(** ** First match wins *)

Module FirstMatchProps.

Import PyStr PyNum PyNumProps Confirm ConfirmSpec ClusteringSpec.
Local Open Scope Q_scope.

Lemma fold_min_in (r : list Z) (t : Z) : In (List.fold_left Z.min r t) (t :: r).
Proof.
  revert t. induction r as [|u r IH]; intros t; cbn [List.fold_left]; [now left|].
  destruct (IH (Z.min t u)) as [E|Hin].
  - rewrite <- E. destruct (Z.min_spec t u) as [[_ ->]|[_ ->]]; [now left|right; now left].
  - right. now right.
Qed.

Lemma fold_min_lower (r : list Z) (t : Z) :
  Forall (fun u => (List.fold_left Z.min r t <= u)%Z) (t :: r).
Proof.
  revert t. induction r as [|u r IH]; intros t; cbn [List.fold_left].
  - constructor; [lia|constructor].
  - specialize (IH (Z.min t u)). apply Forall_cons in IH as [Hm Hr].
    constructor; [lia|]. constructor; [lia|exact Hr].
Qed.

(** The code's [first_seen] is the earliest publication time. *)
Lemma first_seen_earliest (c : ClusterCandidate) (t : Z) :
  first_seen c = Some t <-> earliest c t.
Proof.
  unfold first_seen, earliest. destruct (List.map published_at (items c)) as [|u r].
  - split; [discriminate|]. intros [[] _].
  - split.
    + intros [= <-]. split; [apply fold_min_in|apply fold_min_lower].
    + intros [Hin Hle]. f_equal.
      pose proof (fold_min_in r u) as Hin'. pose proof (fold_min_lower r u) as Hle'.
      rewrite List.Forall_forall in Hle, Hle'.
      specialize (Hle _ Hin'). specialize (Hle' _ Hin). lia.
Qed.

Section FirstMatch.

Variable token_set_ratio : string -> string -> Q.
Variable window_minutes : Z.
Variable similarity_threshold : Q.

Local Abbreviation accepts := (ConfirmSpec.accepts token_set_ratio window_minutes similarity_threshold).
Local Abbreviation place_item_spec :=
  (ConfirmSpec.place_item_spec token_set_ratio window_minutes similarity_threshold).
Local Abbreviation matches := (ClusteringSpec.matches token_set_ratio window_minutes similarity_threshold).
Local Abbreviation placed := (ClusteringSpec.placed token_set_ratio window_minutes similarity_threshold).
Local Abbreviation placed_all :=
  (ClusteringSpec.placed_all token_set_ratio window_minutes similarity_threshold).
Local Abbreviation build_clusters :=
  (Confirm.build_clusters token_set_ratio window_minutes similarity_threshold).

Lemma window_seconds (d : Z) :
  Qle_bool (Qabs (total_seconds d)) (inject_Z (window_minutes * 60)) = true
  <-> (Z.abs d <= window_minutes * 60 * 1000000)%Z.
Proof.
  rewrite Qle_bool_iff. unfold total_seconds, Qabs, Qle, inject_Z. cbn [Qnum Qden].
  lia.
Qed.

(** The test the loop makes is the match of the specification. *)
Lemma accepts_matches (item : NewsItem) (c : ClusterCandidate) :
  accepts item c = true <-> matches item c.
Proof.
  unfold ConfirmSpec.accepts, ClusteringSpec.matches, within_window, in_window.
  fold (ConfirmSpec.similarity token_set_ratio item c).
  change (ConfirmSpec.similarity token_set_ratio item c)
    with (title_similarity token_set_ratio item c).
  rewrite andb_true_iff, Qle_bool_iff. split.
  - intros [Hw Hs]. split; [|exact Hs].
    destruct (first_seen c) as [fs|] eqn:E; [|discriminate].
    exists fs. split; [now apply first_seen_earliest|]. now apply window_seconds.
  - intros [(t & Ht & Hw) Hs]. split; [|exact Hs].
    apply first_seen_earliest in Ht. rewrite Ht. now apply window_seconds.
Qed.

Lemma place_item_spec_placed (clusters : list ClusterCandidate) (item : NewsItem) :
  placed clusters item (place_item_spec clusters item).
Proof.
  unfold ConfirmSpec.place_item_spec.
  destruct (list_find (fun c => accepts item c = true) clusters) as [[i c]|] eqn:E.
  - apply list_find_Some in E as (Hi & Hc & Hbefore).
    rewrite insert_take_drop by (now apply lookup_lt_Some in Hi).
    apply placed_first_match with (c := c).
    + symmetry. now apply take_drop_middle.
    + apply Forall_forall. intros d Hd Hm.
      apply list_elem_of_lookup in Hd as [j Hj].
      apply lookup_take_Some in Hj as [Hj Hlt].
      apply (Hbefore j d Hj Hlt). now apply accepts_matches.
    + now apply accepts_matches.
    + split; reflexivity.
  - apply list_find_None in E. apply placed_new.
    + apply Forall_forall. intros d Hd Hm. rewrite Forall_forall in E.
      apply (E d Hd). now apply accepts_matches.
    + reflexivity.
    + reflexivity.
Qed.

Lemma fold_placed_all (l : list NewsItem) (acc : list ClusterCandidate) :
  placed_all l acc (List.fold_left place_item_spec l acc).
Proof.
  revert acc. induction l as [|x l IH]; intros acc; cbn [List.fold_left].
  - constructor.
  - econstructor; [apply place_item_spec_placed|apply IH].
Qed.

(** C1. When the loop of [cluster_news] returns, its clusters are what
    placing the items one after the other, in order of publication, gives:
    each item went to the first cluster, in creation order, whose
    first-seen time is at most [window_minutes * 60] seconds away and whose
    title similarity divided by 100 reaches the threshold, as its last
    member and with that similarity recorded, no other cluster changing;
    an item that no cluster matched opened a new cluster behind the
    others, as its sole member with similarity 100. *)
Theorem cluster_news_first_match_wins
    (news : list NewsItem) (clusters : list ClusterCandidate) :
  build_clusters news = Some clusters ->
  exists order,
    Permutation order news
    /\ StronglySorted Z.le (List.map published_at order)
    /\ placed_all order [] clusters.
Proof.
  intros H. rewrite ConfirmLaws.build_clusters_fold in H. injection H as <-.
  exists (sorted_by_time news).
  destruct (ConfirmLaws.sorted_by_time_sorts news) as [Hp Hs].
  split; [exact Hp|]. split; [exact Hs|]. apply fold_placed_all.
Qed.

End FirstMatch.

Lemma cluster_news_first_match_wins_witness :
  let news := [ report "theblock" "BTC ETF approved" 60000000;
                report "coindesk" "SEC sues exchange" 0;
                report "messari" "BTC ETF approved" 180000000 ] in
  exists clusters order,
    build_clusters exact_match_ratio 180 (1 # 2) news = Some clusters
    /\ List.length clusters = 2%nat
    /\ Permutation order news
    /\ StronglySorted Z.le (List.map published_at order)
    /\ placed_all exact_match_ratio 180 (1 # 2) order [] clusters.
Proof.
  intros news.
  destruct (build_clusters exact_match_ratio 180 (1 # 2) news) as [clusters|] eqn:E;
    [|vm_compute in E; discriminate].
  destruct (cluster_news_first_match_wins exact_match_ratio 180 (1 # 2) news clusters E)
    as (order & Hp & Hs & Hall).
  exists clusters, order. split; [reflexivity|]. split; [|auto].
  vm_compute in E. injection E as <-. reflexivity.
Defined.

End FirstMatchProps.

(** ** The score, in binary64 *)

Module ConfirmFloatProps.

Import PyStr PyNum PyNumProps Float64 ConfirmFloat ScoreSpec.

Local Abbreviation Aware := Cleanup.Aware.
Local Abbreviation Naive := Cleanup.Naive.

(** *** Rounding *)

Lemma round_half_even_near (y : Q) :
  (Qabs (inject_Z (round_half_even y) - y) <= 1 # 2)%Q
  /\ ((Qabs (inject_Z (round_half_even y) - y) == 1 # 2)%Q -> Z.even (round_half_even y) = true).
Proof.
  unfold round_half_even. cbv zeta.
  pose proof (Qfloor_le y) as Hlo. pose proof (Qlt_floor y) as Hhi.
  rewrite inject_Z_plus in Hhi. change (inject_Z 1) with 1%Q in Hhi.
  set (f := Qfloor y) in *.
  unfold Qlt_bool.
  destruct (Qle_bool (1 # 2) (y - inject_Z f)) eqn:E1; cbn [negb].
  - apply Qle_bool_iff in E1.
    destruct (Qle_bool (y - inject_Z f) (1 # 2)) eqn:E2; cbn [negb].
    + apply Qle_bool_iff in E2.
      assert (Hd : (y - inject_Z f == 1 # 2)%Q) by lra.
      destruct (Z.even f) eqn:Ev.
      * split; [apply Qabs_Qle_condition; lra|]. intros _. exact Ev.
      * rewrite inject_Z_plus. change (inject_Z 1) with 1%Q.
        split; [apply Qabs_Qle_condition; lra|]. intros _.
        rewrite Z.even_add, Ev. reflexivity.
    + apply Qle_bool_false in E2.
      rewrite inject_Z_plus. change (inject_Z 1) with 1%Q.
      split; [apply Qabs_Qle_condition; lra|].
      intros Ht. exfalso.
      assert (Hneg : (inject_Z f + 1 - y >= 0)%Q) by lra.
      rewrite (Qabs_pos _ Hneg) in Ht. lra.
  - apply Qle_bool_false in E1.
    split; [apply Qabs_Qle_condition; lra|].
    intros Ht. exfalso.
    assert (Hneg : (inject_Z f - y <= 0)%Q) by lra.
    rewrite (Qabs_neg _ Hneg) in Ht. lra.
Qed.

Lemma round_half_even_nonneg (y : Q) : (0 <= y)%Q -> (0 <= round_half_even y)%Z.
Proof.
  intros Hy. assert (Hf : (0 <= Qfloor y)%Z).
  { change 0%Z with (Qfloor 0). now apply Qfloor_resp_le. }
  unfold round_half_even. cbv zeta.
  destruct (Qlt_bool _ _); [exact Hf|].
  destruct (Qlt_bool _ _); [lia|]. destruct (Z.even _); lia.
Qed.

Lemma exact_finite_pos (m : positive) (e : Z) :
  exists v, exact (S754_finite false m e) = Some v /\ (0 < v)%Q
            /\ forall s, exact (S754_finite s m e) = Some (if s then Qopp v else v).
Proof.
  unfold exact. eexists. split; [reflexivity|]. split; [|intros []; reflexivity].
  destruct e as [|p|p].
  - unfold Qlt, inject_Z. cbn. lia.
  - unfold Qlt, inject_Z. cbn [Qnum Qden]. pose proof (Z.pow_pos_nonneg 2 (Z.pos p)). lia.
  - unfold Qlt. cbn. lia.
Qed.

(** [round(x, 2)] rounds to 2 decimals. *)
Lemma round2_rounds (x : float) : rounded_to_2_decimals x (round2 x).
Proof.
  unfold rounded_to_2_decimals.
  destruct x as [s|s| |s m e]; try reflexivity.
  - cbn [exact round2]. exists 0%Z. split; [reflexivity|].
    split; [vm_compute; discriminate|]. intros _. reflexivity.
  - destruct (exact_finite_pos m e) as (v & Hv & Hpos & Hs).
    rewrite (Hs s). unfold round2. cbn [fabs SFabs]. rewrite Hv.
    destruct (round_half_even_near (v * 100)) as [Hnear Htie].
    pose proof (round_half_even_nonneg (v * 100)) as Hnn.
    assert (H0 : (0 <= v * 100)%Q) by lra. specialize (Hnn H0).
    set (k0 := round_half_even (v * 100)) in *.
    exists (if s then (- k0)%Z else k0).
    assert (Hdist : (Qabs (inject_Z (if s then (- k0)%Z else k0) / 100
                           - (if s then Qopp v else v))
                     == Qabs (inject_Z k0 - v * 100) / 100)%Q).
    { destruct s.
      - rewrite inject_Z_opp.
        assert (E : (- inject_Z k0 / 100 - - v == - ((inject_Z k0 - v * 100) / 100))%Q) by field.
        rewrite E, Qabs_opp. unfold Qdiv. rewrite Qabs_Qmult. reflexivity.
      - assert (E : (inject_Z k0 / 100 - v == (inject_Z k0 - v * 100) / 100)%Q) by field.
        rewrite E. unfold Qdiv. rewrite Qabs_Qmult. reflexivity. }
    split; [|split].
    + destruct k0 as [|k|k]; [| |lia].
      * destruct s; reflexivity.
      * destruct s; reflexivity.
    + rewrite Hdist. generalize dependent (Qabs (inject_Z k0 - v * 100)).
      intros a Ha _ _. apply Qle_shift_div_r; [reflexivity|].
      assert (E : ((1 # 200) * 100 == 1 # 2)%Q) by reflexivity. rewrite E. exact Ha.
    + intros Ht. rewrite Hdist in Ht.
      assert (Hhalf : (Qabs (inject_Z k0 - v * 100) == 1 # 2)%Q).
      { clear - Ht. generalize dependent (Qabs (inject_Z k0 - v * 100)). intros a Ha.
        assert (E : (a == a / 100 * 100)%Q) by field. rewrite E, Ha. reflexivity. }
      specialize (Htie Hhalf). destruct s; [rewrite Z.even_opp|]; exact Htie.
Qed.

(** *** One item *)

Lemma source_weight_sum (source : string) :
  py_sum [source_weight source] = source_weight source.
Proof.
  unfold source_weight, py_sum, SOURCE_SCORES. cbn [List.fold_left dict_get].
  repeat (destruct (String.eqb source _); [vm_compute; reflexivity|]).
  vm_compute. reflexivity.
Qed.

Lemma distinct_sources_one (item : NewsItem) : distinct_sources [item] = 1%nat.
Proof.
  unfold distinct_sources. cbn [List.map list_to_set].
  rewrite (right_id_L _ _). apply size_singleton.
Qed.

Section OneItem.

Variable token_set_ratio : string -> string -> float.
Variable window_minutes : Z.
Variable similarity_threshold : float.

Local Abbreviation build_clusters :=
  (ConfirmFloat.build_clusters token_set_ratio window_minutes similarity_threshold).
Local Abbreviation cluster_news :=
  (ConfirmFloat.cluster_news token_set_ratio window_minutes similarity_threshold).

(** The cluster the loop opens for a single item. *)
Lemma build_clusters_one (item : NewsItem) :
  build_clusters [item] = Some [mkCandidate (title item) [item] [of_Z 100]].
Proof. reflexivity. Qed.

(** A single item with a naive publication time: [freshness_score]
    subtracts it from an aware one, and the call raises. *)
Lemma naive_item_raises (item : NewsItem) (t : Z) (origin : string) (clock : nat -> Z) :
  published_at item = Naive t -> cluster_news [item] origin clock = None.
Proof.
  intros Ht. unfold ConfirmFloat.cluster_news. rewrite build_clusters_one.
  cbn [mbind option_bind finalize]. unfold to_schema, freshness_score, first_seen.
  cbn [items List.map min_from]. rewrite Ht. reflexivity.
Qed.

Lemma aware_item_returns (item : NewsItem) (t : Z) (origin : string) (clock : nat -> Z) :
  published_at item = Aware t ->
  exists nc,
    cluster_news [item] origin clock = Some [nc]
    /\ source_count nc = 1%nat
    /\ score nc
       = round2 (score_formula (of_Z 100) (source_weight (source item))
                               (freshness_formula (clock 0%nat - t))).
Proof.
  intros Ht. unfold ConfirmFloat.cluster_news. rewrite build_clusters_one.
  cbn [mbind option_bind finalize]. unfold to_schema, freshness_score, first_seen, last_seen.
  cbn [items List.map min_from max_from List.head]. rewrite Ht.
  cbn [dt_sub mbind option_bind]. eexists. split; [reflexivity|].
  cbn [source_count score]. split; [apply distinct_sources_one|].
  f_equal. unfold score_formula, freshness_formula, total_seconds.
  unfold source_score. cbn [items List.map].
  fold (source_weight (source item)). rewrite source_weight_sum.
  reflexivity.
Qed.

End OneItem.

(** C3, as stated, fails: not every single item gives a cluster.  An item
    whose publication time carries no timezone, which the schema accepts,
    makes [cluster_news] raise. *)
Lemma naive_item_gives_no_cluster :
  cluster_news exact_match 60 (of_ratio 1 2)
    [dated "coindesk" "BTC ETF approved" (Naive 0)] "test" (fun _ => 216000000%Z)
  = None.
Proof. vm_compute. reflexivity. Qed.

(** C3, amended: for a single item whose publication time is timezone-aware,
    with a window of 60 minutes and the threshold 0.5, the result is exactly
    one cluster with [source_count] 1, and its score is the formula
    (100/100*100)*0.6 + (weight*10)*0.3 + freshness*0.1, evaluated in
    binary64 with the weight of the source of the item (0.5 when unknown)
    and the freshness max(0, 1 - ageMinutes/1440)*100 at the clock reading
    of the call, rounded to 2 decimals.  For an item whose publication time
    is naive the call raises. *)
Theorem single_item_cluster_binary64
    (token_set_ratio : string -> string -> float)
    (item : NewsItem) (origin : string) (clock : nat -> Z) :
  match published_at item with
  | Aware t =>
      exists nc,
        cluster_news token_set_ratio 60 (of_ratio 1 2) [item] origin clock = Some [nc]
        /\ source_count nc = 1%nat
        /\ rounded_to_2_decimals
             (score_formula (of_Z 100) (source_weight (source item))
                            (freshness_formula (clock 0%nat - t)))
             (score nc)
  | Naive _ =>
      cluster_news token_set_ratio 60 (of_ratio 1 2) [item] origin clock = None
  end.
Proof.
  destruct (published_at item) as [t|t] eqn:Ht.
  - destruct (aware_item_returns token_set_ratio 60 (of_ratio 1 2) item t origin clock Ht)
      as (nc & Hnc & Hcount & Hscore).
    exists nc. split; [exact Hnc|]. split; [exact Hcount|].
    rewrite Hscore. apply round2_rounds.
  - now apply naive_item_raises with (t := t).
Qed.

(** The score of a report by coindesk that is 216 seconds old: the binary64
    value of the formula lies below 72.975, and the score is 72.97. *)
Example score_of_a_216_seconds_old_report :
  exists nc q,
    cluster_news exact_match 60 (of_ratio 1 2)
      [dated "coindesk" "BTC ETF approved" (Aware 0)] "test" (fun _ => 216000000%Z)
    = Some [nc]
    /\ exact (score_formula (of_Z 100) (source_weight "coindesk") (freshness_formula 216000000))
       = Some q
    /\ (q < 72975 # 1000)%Q
    /\ score nc = nearest (7297 # 100).
Proof.
  eexists _, _. split; [vm_compute; reflexivity|].
  split; [vm_compute; reflexivity|]. split; vm_compute; reflexivity.
Qed.

(** *** When [to_schema] returns *)

Lemma min_from_aware (l : list Cleanup.Datetime) (t : Z) :
  Forall (fun d => exists u, d = Aware u) l -> exists t', min_from (Aware t) l = Some (Aware t').
Proof.
  revert t. induction l as [|d l IH]; intros t Hl; cbn [min_from]; [eauto|].
  apply Forall_cons in Hl as [[u ->] Hl]. cbn [dt_lt].
  destruct (u <? t)%Z; now apply IH.
Qed.

Lemma max_from_aware (l : list Cleanup.Datetime) (t : Z) :
  Forall (fun d => exists u, d = Aware u) l -> exists t', max_from (Aware t) l = Some (Aware t').
Proof.
  revert t. induction l as [|d l IH]; intros t Hl; cbn [max_from]; [eauto|].
  apply Forall_cons in Hl as [[u ->] Hl]. cbn [dt_lt].
  destruct (t <? u)%Z; now apply IH.
Qed.

Lemma min_from_is_aware (l : list Cleanup.Datetime) (m : Cleanup.Datetime) (t' : Z) :
  min_from m l = Some (Aware t') ->
  (exists t, m = Aware t) /\ Forall (fun d => exists u, d = Aware u) l.
Proof.
  revert m. induction l as [|d l IH]; intros m; cbn [min_from].
  - intros [= ->]. split; [eauto|constructor].
  - destruct (dt_lt d m) as [b|] eqn:E; [|discriminate]. intros H.
    destruct (IH _ H) as [[t Ht] Hl].
    destruct d as [u|u], m as [v|v]; cbn in E; try discriminate;
      try (destruct b; discriminate).
    split; [eauto|]. constructor; [eauto|exact Hl].
Qed.

(** X8. [to_schema] returns exactly for a cluster that has a member and whose
    members all have a timezone-aware publication time: on a cluster
    without members [min] raises, and a naive time cannot be subtracted
    from, or compared with, an aware one. *)
Theorem to_schema_needs_aware_members (origin : string) (now : Z) (c : ClusterCandidate) :
  is_Some (to_schema origin now c) <-> items c <> [] /\ Forall aware (items c).
Proof.
  unfold to_schema, freshness_score, first_seen, last_seen. split.
  - intros [nc H].
    destruct (items c) as [|x l] eqn:E; [discriminate|]. split; [discriminate|].
    cbn [List.map] in H.
    destruct (min_from (published_at x) (List.map published_at l)) as [[t'|t']|] eqn:Hmin;
      [|discriminate..].
    destruct (min_from_is_aware _ _ _ Hmin) as [Hx Hl].
    constructor; [exact Hx|].
    rewrite List.Forall_map in Hl. exact Hl.
  - intros [Hne Hall]. destruct (items c) as [|x l] eqn:E; [congruence|].
    apply Forall_cons in Hall as [[t Ht] Hl]. cbn [List.map List.head]. rewrite Ht.
    assert (Hl' : Forall (fun d => exists u, d = Aware u) (List.map published_at l))
      by (rewrite List.Forall_map; exact Hl).
    destruct (min_from_aware _ t Hl') as [t1 ->].
    destruct (max_from_aware _ t Hl') as [t2 ->].
    cbn [mbind option_bind dt_sub]. eauto.
Qed.

End ConfirmFloatProps.
